(** * MKB-10 scraper ([mkb_scrape/scraper.py]): a shallow embedding and its properties

    The first part is the model, top-down as the module is written:
    - Python strings as lists of Unicode code points, with the [str] methods
      the scraper calls;
    - a backtracking matcher for the regular expressions the scraper compiles
      (greedy repetition, ordered alternation, capture groups), with
      [re.fullmatch], [Pattern.match], [re.split] and [re.sub] on top of it;
    - the document tree the scraper reads through BeautifulSoup;
    - exceptions, and the library functions the scraper calls, as an
      interface with the facts the proofs rely on (what [urljoin] and
      [urlparse] raise, the limit of [int]), and a reference instance to run
      examples;
    - the scraper's functions, under their own names, and the run as a
      computation that may raise and that logs;
    - the command: the CSV writer, [scrape_to_csv] and [main] from the
      parsed arguments on, over a machine with a site, files, two output
      streams and logging;
    - the vocabulary of the statements, the example pages and sites, and a
      machine that keeps its files in memory.

    The second part holds the properties: the merger, the matcher and the
    patterns, the three extraction strategies and their cascade, the link
    discoverer, and the run. The third part goes on with the functions
    around them: normalised text, what every strategy returns, the merger
    run in steps, the order of the result, the configuration, the delay, and
    the command with the file it writes. *)

From Stdlib Require Import String Ascii List NArith ZArith Bool Arith Lia.
From Stdlib Require Import Sorting.Sorted.
Import ListNotations.

Set Implicit Arguments.
Set Warnings "-register-all".

(** ** Python strings *)

(** A character is a Unicode code point; a [str] is a sequence of them. *)
Definition char := N.
Definition str := list char.

(** UTF-8 decoding, used only to write string literals: [u "Šifra"] is the
    [str] whose UTF-8 encoding is the given byte string. *)
Fixpoint utf8_decode (bs : list N) : str :=
  match bs with
  | [] => []
  | b0 :: t0 =>
    if (b0 <? 128)%N then b0 :: utf8_decode t0
    else match t0 with
    | [] => []
    | b1 :: t1 =>
      if (b0 <? 224)%N then ((b0 - 192) * 64 + (b1 - 128))%N :: utf8_decode t1
      else match t1 with
      | [] => []
      | b2 :: t2 =>
        if (b0 <? 240)%N
        then ((b0 - 224) * 4096 + (b1 - 128) * 64 + (b2 - 128))%N :: utf8_decode t2
        else match t2 with
        | [] => []
        | b3 :: t3 =>
          ((b0 - 240) * 262144 + (b1 - 128) * 4096 + (b2 - 128) * 64 + (b3 - 128))%N
            :: utf8_decode t3
        end
      end
    end
  end.

Definition u (s : string) : str :=
  utf8_decode (map N_of_ascii (list_ascii_of_string s)).

Definition chr (a : ascii) : char := N_of_ascii a.

Module Str.

(** [==] on strings. *)
Fixpoint eqb (a b : str) : bool :=
  match a, b with
  | [], [] => true
  | x :: a', y :: b' => (x =? y)%N && eqb a' b'
  | _, _ => false
  end.

(** [<] on strings: lexicographic on code points. *)
Fixpoint ltb (a b : str) : bool :=
  match a, b with
  | _, [] => false
  | [], _ :: _ => true
  | x :: a', y :: b' => (x <? y)%N || ((x =? y)%N && ltb a' b')
  end.

(** [bool(s)], the truth value of a string. *)
Definition truthy (s : str) : bool :=
  match s with [] => false | _ => true end.

(** [a or b] on strings. *)
Definition or (a b : str) : str := if truthy a then a else b.

(** [s.startswith(pre)]. *)
Fixpoint startswith (pre s : str) : bool :=
  match pre, s with
  | [], _ => true
  | x :: pre', y :: s' => (x =? y)%N && startswith pre' s'
  | _ :: _, [] => false
  end.

(** [sub in s]. *)
Fixpoint contains (sub s : str) : bool :=
  startswith sub s ||
  match s with
  | [] => false
  | _ :: s' => contains sub s'
  end.

(** [str.isspace] on one character (the set of [Py_UNICODE_ISSPACE]); the
    class [\s] of a [str] pattern is the same set. *)
Definition isspace (c : char) : bool :=
  ((9 <=? c) && (c <=? 13) || (28 <=? c) && (c <=? 32) || (c =? 133) || (c =? 160)
   || (c =? 5760) || (8192 <=? c) && (c <=? 8202) || (c =? 8232) || (c =? 8233)
   || (c =? 8239) || (c =? 8287) || (c =? 12288))%N.

Fixpoint lstrip_with (p : char -> bool) (s : str) : str :=
  match s with
  | [] => []
  | c :: s' => if p c then lstrip_with p s' else s
  end.

Definition rstrip_with (p : char -> bool) (s : str) : str :=
  rev (lstrip_with p (rev s)).

(** [s.strip()]. *)
Definition strip (s : str) : str :=
  rstrip_with isspace (lstrip_with isspace s).

(** [s.rstrip(chars)]. *)
Definition rstrip (chars s : str) : str :=
  rstrip_with (fun c => existsb (N.eqb c) chars) s.

(** [sep.join(parts)]. *)
Fixpoint join (sep : str) (parts : list str) : str :=
  match parts with
  | [] => []
  | [p] => p
  | p :: rest => p ++ sep ++ join sep rest
  end.

(** The line boundaries of [str.splitlines]; CR LF counts as one. *)
Definition islinebreak (c : char) : bool :=
  ((10 <=? c) && (c <=? 13) || (28 <=? c) && (c <=? 30) || (c =? 133)
   || (c =? 8232) || (c =? 8233))%N.

Fixpoint splitlines_from (cur : str) (s : str) : list str :=
  match s with
  | [] => match cur with [] => [] | _ => [rev cur] end
  | c :: s' =>
    if (c =? 13)%N then
      match s' with
      | c' :: s'' =>
        if (c' =? 10)%N then rev cur :: splitlines_from [] s''
        else rev cur :: splitlines_from [] s'
      | [] => rev cur :: splitlines_from [] s'
      end
    else if islinebreak c then rev cur :: splitlines_from [] s'
    else splitlines_from (c :: cur) s'
  end.

(** [s.splitlines()]. *)
Definition splitlines (s : str) : list str := splitlines_from [] s.

End Str.

(** ** Regular expressions *)

Module Re.

(** The fragment of Python's pattern syntax the scraper uses. A class
    ([[A-Z]], [\d], [\s], [.], an escaped literal) is a predicate on
    characters. Repetition is greedy and alternation ordered, as in [re]. *)
Inductive t : Type :=
| Eps
| Cls (p : char -> bool)
| Cat (a b : t)
| Alt (a b : t)
| Star (a : t)
| Grp (name : nat) (a : t)
| Bol
| Eol.

(** [a?], [a+], [a{n}], [a{n,m}] and [a{n,}], by their expansions. *)
Definition Opt (a : t) : t := Alt a Eps.
Definition Plus (a : t) : t := Cat a (Star a).

Fixpoint Upto (n : nat) (a : t) : t :=
  match n with
  | O => Eps
  | S n' => Opt (Cat a (Upto n' a))
  end.

Fixpoint Rep (n m : nat) (a : t) : t :=
  match n with
  | O => Upto m a
  | S n' => Cat a (Rep n' (Nat.pred m) a)
  end.

Fixpoint AtLeast (n : nat) (a : t) : t :=
  match n with
  | O => Star a
  | S n' => Cat a (AtLeast n' a)
  end.

(** The groups captured so far, most recent first. *)
Definition groups := list (nat * str).

Fixpoint group (g : groups) (name : nat) : option str :=
  match g with
  | [] => None
  | (n, s) :: g' => if Nat.eqb n name then Some s else group g' name
  end.

Section Matcher.
Variable R : Type.

(** A continuation receives the position reached, the text left and the
    groups. *)
Definition cont := nat -> str -> groups -> option R.

(** The greedy loop of [a*]: one more [a] that consumes something, then
    the loop again; the continuation when that fails. [n] bounds the
    iterations and is the length of the text. *)
Fixpoint star_loop (body : nat -> str -> groups -> cont -> option R) (k : cont)
         (n : nat) (i : nat) (s : str) (g : groups) : option R :=
  match n with
  | O => k i s g
  | S n' =>
    match body i s g
            (fun i' s' g' =>
               if length s' <? length s then star_loop body k n' i' s' g' else None) with
    | Some x => Some x
    | None => k i s g
    end
  end.

(** [exec r i s g k]: match [r] at position [i], where [s] is the text
    from [i] on; on success go on with [k], on failure of [k] backtrack. *)
Fixpoint exec (r : t) (i : nat) (s : str) (g : groups) (k : cont) : option R :=
  match r with
  | Eps => k i s g
  | Cls p =>
    match s with
    | c :: s' => if p c then k (S i) s' g else None
    | [] => None
    end
  | Cat a b => exec a i s g (fun i' s' g' => exec b i' s' g' k)
  | Alt a b =>
    match exec a i s g k with
    | Some x => Some x
    | None => exec b i s g k
    end
  | Star a => star_loop (exec a) k (length s) i s g
  | Grp name a =>
    exec a i s g (fun i' s' g' => k i' s' ((name, firstn (i' - i) s) :: g'))
  | Bol => if i =? 0 then k i s g else None
  | Eol =>
    match s with
    | [] => k i s g
    | [c] => if (c =? 10)%N then k i s g else None
    | _ => None
    end
  end.
End Matcher.

(** [Pattern.match(s)]: a match starting at position 0; the result is the
    length matched and the groups. *)
Definition match_ (r : t) (s : str) : option (nat * groups) :=
  exec r 0 s [] (fun i _ g => Some (i, g)).

(** [re.fullmatch(r, s)]: a match of the whole of [s]. *)
Definition fullmatch (r : t) (s : str) : option groups :=
  exec r 0 s [] (fun _ s' g => match s' with [] => Some g | _ => None end).

(** A non-empty match of [r] at position [i] of the text, as the text left
    after it. An empty match counts as none: no pattern of the scraper
    given to [re.split] or [re.sub] matches the empty string. *)
Definition match_at (r : t) (i : nat) (s : str) : option (nat * str) :=
  exec r i s []
       (fun i' s' _ => if length s' <? length s then Some (i', s') else None).

(** [re.split(r, s)] for a pattern without groups: scan left to right, cut
    at every match. [n] bounds the steps. *)
Fixpoint split_from (r : t) (n : nat) (i : nat) (cur : str) (s : str) : list str :=
  match n with
  | O => [rev cur]
  | S n' =>
    match match_at r i s with
    | Some (i', s') => rev cur :: split_from r n' i' [] s'
    | None =>
      match s with
      | [] => [rev cur]
      | c :: s' => split_from r n' (S i) (c :: cur) s'
      end
    end
  end.

Definition split (r : t) (s : str) : list str :=
  split_from r (S (length s)) 0 [] s.

(** [re.sub(r, repl, s)] for a replacement without group references. *)
Fixpoint sub_from (r : t) (repl : str) (n : nat) (i : nat) (s : str) : str :=
  match n with
  | O => s
  | S n' =>
    match match_at r i s with
    | Some (i', s') => repl ++ sub_from r repl n' i' s'
    | None =>
      match s with
      | [] => []
      | c :: s' => c :: sub_from r repl n' (S i) s'
      end
    end
  end.

Definition sub (r : t) (repl : str) (s : str) : str :=
  sub_from r repl (S (length s)) 0 s.

(** Classes. *)
Definition upper (c : char) : bool := ((65 <=? c) && (c <=? 90))%N.
Definition digit09 (c : char) : bool := ((48 <=? c) && (c <=? 57))%N.
Definition lit (a : ascii) (c : char) : bool := (c =? chr a)%N.
Definition dot (c : char) : bool := negb (c =? 10)%N.
Definition space : char -> bool := Str.isspace.

End Re.

(** ** Exceptions *)

(** What a call can raise: an exception of the transport, the [HTTPError]
    of [raise_for_status], or a [ValueError] with its message. *)
Inductive exn : Type :=
| RequestException (detail : str)
| HTTPError (status : N)
| ValueError (detail : str).

Inductive outcome (A : Type) : Type :=
| Returned (a : A)
| Raised (e : exn).
Arguments Returned {A} a.
Arguments Raised {A} e.

(** A call that returns passes its value on; one that raises ends the
    computation. *)
Definition and_then (A B : Type) (r : outcome A) (f : A -> outcome B) : outcome B :=
  match r with
  | Returned a => f a
  | Raised e => Raised e
  end.

Notation "x <~ r ;; f" := (and_then r (fun x => f))
  (at level 61, r at next level, right associativity).

(** [str(n)] for a natural number, which is also how [%d] and an f-string
    format it: its decimal digits. *)
Fixpoint digits_from (fuel n : nat) (acc : str) : str :=
  match fuel with
  | O => acc
  | S fuel' =>
    let acc := (48 + N.of_nat (n mod 10))%N :: acc in
    if n / 10 =? 0 then acc else digits_from fuel' (n / 10) acc
  end.

Definition str_of_int (n : nat) : str := digits_from (S n) n [].

(** ** Built-ins *)

Module Py.

(** [sorted(l)] under a strict order [lt]: a stable insertion sort, which
    like Python's sort compares with [<] only. *)
Fixpoint insert (A : Type) (lt : A -> A -> bool) (x : A) (l : list A) : list A :=
  match l with
  | [] => [x]
  | y :: l' => if lt y x then y :: insert lt x l' else x :: l
  end.

Definition sorted (A : Type) (lt : A -> A -> bool) (l : list A) : list A :=
  fold_right (insert lt) [] l.

(** [sorted(l, key=key)]: the key of every element is computed first, in
    the order of the list, and the first call that raises ends the sort; the
    elements are then sorted by their keys. *)
Fixpoint keyed (A K : Type) (key : A -> outcome K) (l : list A) : outcome (list (K * A)) :=
  match l with
  | [] => Returned []
  | x :: l' =>
    k <~ key x ;;
    rest <~ keyed key l' ;;
    Returned ((k, x) :: rest)
  end.

Definition sorted_by (A K : Type) (key : A -> outcome K) (lt : K -> K -> bool) (l : list A)
  : outcome (list A) :=
  pairs <~ keyed key l ;;
  Returned (map snd (sorted (fun a b => lt (fst a) (fst b)) pairs)).

(** A [set] of strings: [add] keeps one copy of each element. *)
Definition set_add (x : str) (l : list str) : list str :=
  if existsb (Str.eqb x) l then l else l ++ [x].

(** A [dict] keyed by strings; the keys keep the order of their first
    insertion, as [dict.values()] lists them. *)
Section Dict.
Variable V : Type.

Fixpoint get (d : list (str * V)) (k : str) : option V :=
  match d with
  | [] => None
  | (k', v) :: d' => if Str.eqb k' k then Some v else get d' k
  end.

Fixpoint set (d : list (str * V)) (k : str) (v : V) : list (str * V) :=
  match d with
  | [] => [(k, v)]
  | (k', v') :: d' => if Str.eqb k' k then (k', v) :: d' else (k', v') :: set d' k v
  end.

Definition values (d : list (str * V)) : list V := map snd d.
End Dict.

End Py.

(** ** The document tree *)

(** What the scraper reads of a parsed page: text nodes and tags with their
    name, their [class] attribute (a list of tokens, when present), their
    [href] attribute (when present) and their children. The [BeautifulSoup]
    object itself is the root tag. Comments and the like, which [get_text]
    leaves out, are not part of the tree. *)
Inductive node : Type :=
| Text (s : str)
| Tag (name : str) (cls : option (list str)) (href : option str) (children : list node).

Module Soup.

(** [tag.descendants]: every node below, in document order. *)
Fixpoint descendants (n : node) : list node :=
  match n with
  | Text _ => []
  | Tag _ _ _ kids =>
    (fix each (l : list node) : list node :=
       match l with
       | [] => []
       | k :: l' => k :: descendants k ++ each l'
       end) kids
  end.

Definition is_tag (n : node) : bool :=
  match n with Tag _ _ _ _ => true | Text _ => false end.

(** [tag.find_all(p)]: the descendant tags that satisfy [p]. *)
Definition find_all (p : node -> bool) (n : node) : list node :=
  filter (fun d => is_tag d && p d) (descendants n).

(** [tag.name in names]. *)
Definition named (names : list str) (n : node) : bool :=
  match n with
  | Tag nm _ _ _ => existsb (Str.eqb nm) names
  | Text _ => false
  end.

(** [tag.get("class", [])]. *)
Definition classes (n : node) : list str :=
  match n with
  | Tag _ (Some l) _ _ => l
  | _ => []
  end.

Definition text_of (n : node) : list str :=
  match n with Text s => [s] | Tag _ _ _ _ => [] end.

(** [tag.get_text(sep, strip=True)]: the text nodes below, each stripped,
    the empty ones dropped, joined by [sep]. *)
Definition get_text (sep : str) (n : node) : str :=
  Str.join sep
    (filter Str.truthy (map Str.strip (flat_map text_of (descendants n)))).

End Soup.

(** ** The libraries behind the scraper *)

(** [urllib.parse.ParseResult]. *)
Record ParseResult : Type := {
  scheme : str;
  netloc : str;
  path : str;
  params : str;
  query : str;
  fragment : str
}.

(** The library functions whose tables or algorithms are not part of the
    repository, with the facts about them that the proofs use:
    - [str.lower] leaves no capital letter of Basic Latin or Latin-1;
    - [html.unescape] returns a string without ['&'] as it is;
    - the decimal digits (category Nd, the class [\d], what [int] reads)
      contain [0-9] with their values and no other ASCII character, no
      whitespace, and have values below ten;
    - [urljoin] and [urlparse] return or raise, and what they raise is a
      [ValueError] (as for a network location with one square bracket);
    - the network location [urlparse] returns holds no ['/'], ['?'] or ['#']
      and the path no ['?'] or ['#'].
    [int_max_str_digits] is the interpreter's setting
    [sys.get_int_max_str_digits()], the greatest number of digits [int]
    converts: 4300 unless configured otherwise, 0 for no limit (as in the
    interpreters that have no such setting). *)
Record PyLib : Type := {
  lower : str -> str;
  unescape : str -> str;
  decimal : char -> option N;
  urljoin : str -> str -> outcome str;
  urlparse : str -> outcome ParseResult;
  int_max_str_digits : nat;
  lower_no_capital : forall s c,
      In c (lower s) ->
      ~ ((65 <= c <= 90)%N \/ ((192 <= c <= 222)%N /\ c <> 215%N));
  unescape_plain : forall s, ~ In 38%N s -> unescape s = s;
  decimal_ascii : forall c, (48 <= c <= 57)%N -> decimal c = Some (c - 48)%N;
  decimal_below_ten : forall c v, decimal c = Some v -> (v < 10)%N;
  decimal_ascii_only : forall c, (c < 128)%N -> decimal c <> None -> (48 <= c <= 57)%N;
  decimal_not_space : forall c, Str.isspace c = true -> decimal c = None;
  urljoin_raises : forall base url e,
      urljoin base url = Raised e -> exists detail, e = ValueError detail;
  urlparse_raises : forall url e,
      urlparse url = Raised e -> exists detail, e = ValueError detail;
  netloc_delimited : forall url parsed c,
      urlparse url = Returned parsed ->
      In c (netloc parsed) -> c <> 47%N /\ c <> 63%N /\ c <> 35%N;
  path_delimited : forall url parsed c,
      urlparse url = Returned parsed ->
      In c (path parsed) -> c <> 63%N /\ c <> 35%N
}.

(** ** The scraper *)

Definition BASE_URL : str := u "https://www.stetoskop.info".
Definition INDEX_PATH : str := u "/mkb".
Definition INDEX_URL : str := BASE_URL ++ INDEX_PATH.

(** [MKBEntry]: a single MKB record. *)
Record MKBEntry : Type := {
  code : str;
  serbian : str;
  latin : str
}.

(** The number a string of decimal digits writes. *)
Definition int_value (L : PyLib) (number : str) : N :=
  fold_left (fun acc c => (10 * acc + match decimal L c with Some v => v | None => 0 end)%N)
            number 0%N.

(** The message of the [ValueError] that [int] raises for too many digits. *)
Definition too_many_digits (limit digits : nat) : str :=
  u "Exceeds the limit (" ++ str_of_int limit
    ++ u " digits) for integer string conversion: value has " ++ str_of_int digits
    ++ u " digits; use sys.set_int_max_str_digits() to increase the limit".

(** [int(number)] on a string of decimal digits. A string of more than 640
    digits is checked against the interpreter's limit, when there is one,
    and [int] raises when it has more digits than that. *)
Definition int (L : PyLib) (number : str) : outcome N :=
  let digits := length number in
  if (640 <? digits) && (0 <? int_max_str_digits L) && (int_max_str_digits L <? digits)
  then Raised (ValueError (too_many_digits (int_max_str_digits L) digits))
  else Returned (int_value L number).

(** The classes [\d] and [[0-9A-Z]]. *)
Definition cls_d (L : PyLib) (c : char) : bool :=
  match decimal L c with Some _ => true | None => false end.

Definition cls_09AZ (c : char) : bool := Re.digit09 c || Re.upper c.

(** [[A-Z]{1,2}\d{2}(?:\.[0-9A-Z]{1,4})?] *)
Definition CODE_RE (L : PyLib) : Re.t :=
  Re.Cat (Re.Rep 1 2 (Re.Cls Re.upper))
    (Re.Cat (Re.Rep 2 2 (Re.Cls (cls_d L)))
       (Re.Opt (Re.Cat (Re.Cls (Re.lit ".")) (Re.Rep 1 4 (Re.Cls cls_09AZ))))).

(** [^(?P<code>[A-Z]{1,2}\d{2}(?:\.[0-9A-Z]{1,4})?)\s+(?P<rest>.+)$], with
    [code] as group 1 and [rest] as group 2. *)
Definition LINE_RE (L : PyLib) : Re.t :=
  Re.Cat Re.Bol
    (Re.Cat (Re.Grp 1 (CODE_RE L))
       (Re.Cat (Re.Plus (Re.Cls Re.space))
          (Re.Cat (Re.Grp 2 (Re.Plus (Re.Cls Re.dot))) Re.Eol))).

(** [\s{2,}\|\s{2,}|\s{2,}] *)
Definition PARTS_RE : Re.t :=
  Re.Alt
    (Re.Cat (Re.AtLeast 2 (Re.Cls Re.space))
       (Re.Cat (Re.Cls (Re.lit "|")) (Re.AtLeast 2 (Re.Cls Re.space))))
    (Re.AtLeast 2 (Re.Cls Re.space)).

(** [\s+] *)
Definition SPACES_RE : Re.t := Re.Plus (Re.Cls Re.space).

(** [([A-Z]+)(\d+)(?:\.([0-9A-Z]+))?] *)
Definition SORT_KEY_RE (L : PyLib) : Re.t :=
  Re.Cat (Re.Grp 1 (Re.Plus (Re.Cls Re.upper)))
    (Re.Cat (Re.Grp 2 (Re.Plus (Re.Cls (cls_d L))))
       (Re.Opt (Re.Cat (Re.Cls (Re.lit ".")) (Re.Grp 3 (Re.Plus (Re.Cls cls_09AZ)))))).

Definition _normalize_text (L : PyLib) (value : str) : str :=
  Str.strip (Re.sub SPACES_RE (u " ") (unescape L value)).

Definition _is_code (L : PyLib) (value : str) : bool :=
  match Re.fullmatch (CODE_RE L) value with
  | Some _ => true
  | None => false
  end.

Definition _deduplicate (entries : list MKBEntry) : list MKBEntry :=
  let seen :=
    fold_left
      (fun (seen : list (str * MKBEntry)) (entry : MKBEntry) =>
         match Py.get seen (code entry) with
         | None => Py.set seen (code entry) entry
         | Some existing =>
           let merged :=
             {| code := code entry;
                serbian := Str.or (serbian entry) (serbian existing);
                latin := Str.or (latin entry) (latin existing) |} in
           Py.set seen (code entry) merged
         end)
      entries [] in
  Py.values seen.

(** A sort key: [(prefix, number, suffix)]. *)
Definition sort_key : Type := (str * N * str)%type.

Definition _code_sort_key (L : PyLib) (code : str) : outcome sort_key :=
  match Re.fullmatch (SORT_KEY_RE L) code with
  | Some g =>
    let prefix := match Re.group g 1 with Some s => s | None => [] end in
    let number := match Re.group g 2 with Some s => s | None => [] end in
    number_value <~ int L number ;;
    let suffix_value := match Re.group g 3 with Some s => Str.or s [] | None => [] end in
    Returned (prefix, number_value, suffix_value)
  | None => Returned (code, 0%N, [])
  end.

(** [<] on the key tuples: the first component that differs decides. *)
Definition sort_key_ltb (a b : sort_key) : bool :=
  let '(p1, n1, s1) := a in
  let '(p2, n2, s2) := b in
  if Str.eqb p1 p2
  then if (n1 =? n2)%N then Str.ltb s1 s2 else (n1 <? n2)%N
  else Str.ltb p1 p2.

(** [_find_first_matching(container, class_substrings=..., exclude=...)].
    An element is identified, as by [is], with its position among
    [container.find_all(True)]. *)
Definition class_matches (L : PyLib) (class_substrings : list str) (descendant : node) : bool :=
  let class_list := map (lower L) (Soup.classes descendant) in
  existsb (fun sub => existsb (fun cls => Str.contains sub cls) class_list) class_substrings.

Fixpoint first_matching_from (L : PyLib) (class_substrings : list str) (exclude : option nat)
         (idx : nat) (ds : list node) : option (nat * node) :=
  match ds with
  | [] => None
  | descendant :: ds' =>
    let excluded := match exclude with Some e => Nat.eqb idx e | None => false end in
    if excluded then first_matching_from L class_substrings exclude (S idx) ds'
    else if class_matches L class_substrings descendant then Some (idx, descendant)
    else first_matching_from L class_substrings exclude (S idx) ds'
  end.

Definition _find_first_matching (L : PyLib) (container : node) (class_substrings : list str)
           (exclude : option (nat * node)) : option (nat * node) :=
  first_matching_from L class_substrings (option_map fst exclude) 0
                      (Soup.find_all (fun _ => true) container).

(** The scraper object: [__init__] normalises the base URL and the index
    path. The politeness delay is a float in the source; it enters only
    through [max(0.0, delay)] and its truth value, and is kept here as an
    integer number of time units. *)
Record MKBScraper : Type := {
  base_url : str;
  index_path : str;
  index_url : str;
  delay : Z
}.

Definition __init__ (base_url index_path : str) (delay : Z) : MKBScraper :=
  let base_url := Str.rstrip (u "/") base_url in
  let index_path :=
    if Str.startswith (u "/") index_path then index_path else u "/" ++ index_path in
  {| base_url := base_url;
     index_path := index_path;
     index_url := base_url ++ index_path;
     delay := Z.max 0 delay |}.

Section Scraper.
Variable L : PyLib.
Variable self : MKBScraper.

(** The header word as the source file spells it: the six characters
    U+00C5 U+00A1 i f r a. *)
Definition HEADER_WORD : str := u "Å¡ifra".

(** One pass of the loop of [_discover_detail_pages] over an anchor's
    [href]: the link to add, if any. [urljoin] and [urlparse] may raise, and
    nothing in the loop catches what they raise. *)
Definition detail_link (href : str) : outcome (option str) :=
  let href := Str.strip href in
  if negb (Str.truthy href) || Str.startswith (u "#") href then Returned None
  else
    absolute <~ urljoin L (index_url self) href ;;
    parsed <~ urlparse L absolute ;;
    if negb (existsb (Str.eqb (scheme parsed)) [u "http"; u "https"]) then Returned None
    else
      base <~ urlparse L (base_url self) ;;
      if negb (Str.eqb (netloc parsed) (netloc base)) then Returned None
      else
        let path := Str.rstrip (u "/") (path parsed) in
        if existsb (Str.eqb path)
                   [Str.rstrip (u "/") (index_path self);
                    Str.rstrip (u "/") (index_path self) ++ u "/"]
        then Returned None
        else if negb (Str.startswith (Str.rstrip (u "/") (index_path self)) path)
             then Returned None
             else Returned (Some (scheme parsed ++ u "://" ++ netloc parsed ++ path)).

Definition href_of (n : node) : option str :=
  match n with Tag _ _ h _ => h | Text _ => None end.

(** [soup.find_all("a", href=True)], as the [href] values. *)
Definition anchors (soup : node) : list str :=
  flat_map (fun a => match href_of a with Some h => [h] | None => [] end)
           (Soup.find_all (Soup.named [u "a"]) soup).

(** The loop of [_discover_detail_pages] over the targets, from the links
    gathered so far; it ends at the first target that raises. *)
Fixpoint gather (hrefs : list str) (links : list str) : outcome (list str) :=
  match hrefs with
  | [] => Returned links
  | href :: hrefs' =>
    found <~ detail_link href ;;
    gather hrefs' match found with
                  | Some link => Py.set_add link links
                  | None => links
                  end
  end.

Definition _discover_detail_pages (soup : node) : outcome (list str) :=
  links <~ gather (anchors soup) [] ;;
  Returned (Py.sorted Str.ltb links).

(** The body of the row loop of [_parse_from_tables], from the row's cell
    texts on. *)
Definition is_header_row (cells : list str) : bool :=
  existsb (fun cell => Str.contains HEADER_WORD (lower L cell)) cells.

Definition row_entries (cells : list str) : list MKBEntry :=
  if negb (match cells with [] => false | _ => true end) || is_header_row cells then []
  else if length cells <? 2 then []
  else
    let code := nth 0 cells [] in
    if negb (_is_code L code) then []
    else
      let serbian := nth 1 cells [] in
      let latin := if 3 <=? length cells then nth 2 cells [] else [] in
      [{| code := code; serbian := serbian; latin := latin |}].

Definition row_cells (row : node) : list str :=
  map (fun cell => _normalize_text L (Soup.get_text (u " ") cell))
      (Soup.find_all (Soup.named [u "td"; u "th"]) row).

Definition _parse_from_tables (soup : node) : list MKBEntry :=
  flat_map
    (fun table =>
       flat_map (fun row => row_entries (row_cells row))
                (Soup.find_all (Soup.named [u "tr"]) table))
    (Soup.find_all (Soup.named [u "table"]) soup).

(** The candidate containers of [_parse_from_structured_blocks]. *)
Definition is_candidate (tag : node) : bool :=
  Soup.named [u "div"; u "li"] tag
  && match Soup.classes tag with [] => false | _ => true end
  && existsb (fun cls => Str.contains (u "mkb") (lower L cls)) (Soup.classes tag).

Definition element_text (element : option (nat * node)) : str :=
  match element with
  | Some (_, e) => _normalize_text L (Soup.get_text (u " ") e)
  | None => []
  end.

Definition block_entries (container : node) : list MKBEntry :=
  let code_element :=
    _find_first_matching L container [u "sifra"; u "code"; u "oznaka"] None in
  let serbian_element :=
    _find_first_matching L container [u "sr"; u "opis"; u "naziv"] code_element in
  let latin_element :=
    _find_first_matching L container [u "lat"; u "latin"] code_element in
  let code_text := element_text code_element in
  if negb (_is_code L code_text) then []
  else
    let serbian_text := element_text serbian_element in
    let latin_text := element_text latin_element in
    [{| code := code_text; serbian := serbian_text; latin := latin_text |}].

Definition _parse_from_structured_blocks (soup : node) : list MKBEntry :=
  flat_map block_entries (Soup.find_all is_candidate soup).

(** The body of the line loop of [_parse_from_text_blocks]. *)
Definition line_entries (line : str) : list MKBEntry :=
  match Re.match_ (LINE_RE L) line with
  | None => []
  | Some (_, g) =>
    let code := match Re.group g 1 with Some s => s | None => [] end in
    let rest := match Re.group g 2 with Some s => s | None => [] end in
    let parts :=
      map Str.strip
          (filter (fun part => Str.truthy (Str.strip part)) (Re.split PARTS_RE rest)) in
    let serbian := match parts with [] => [] | _ => nth 0 parts [] end in
    let latin := if 1 <? length parts then nth 1 parts [] else [] in
    [{| code := code; serbian := serbian; latin := latin |}]
  end.

Definition _parse_from_text_blocks (soup : node) : list MKBEntry :=
  let text := Soup.get_text [10%N] soup in
  flat_map line_entries (Str.splitlines text).

(** The three strategies, and [_parse_entries] with the strategies it
    called, in call order, beside its result. *)
Inductive strategy : Type := Tables | StructuredBlocks | TextBlocks.

Definition run (s : strategy) (soup : node) : list MKBEntry :=
  match s with
  | Tables => _parse_from_tables soup
  | StructuredBlocks => _parse_from_structured_blocks soup
  | TextBlocks => _parse_from_text_blocks soup
  end.

Definition _parse_entries_calls (soup : node) : list MKBEntry * list strategy :=
  let entries := [] in
  let entries := entries ++ run Tables soup in
  if match entries with [] => false | _ => true end then (entries, [Tables])
  else
    let entries := entries ++ run StructuredBlocks soup in
    if match entries with [] => false | _ => true end
    then (entries, [Tables; StructuredBlocks])
    else
      let entries := entries ++ run TextBlocks soup in
      (entries, [Tables; StructuredBlocks; TextBlocks]).

Definition _parse_entries (soup : node) : list MKBEntry :=
  fst (_parse_entries_calls soup).

End Scraper.

(** ** The run *)

(** [requests.Response], as far as [_fetch] reads it. *)
Record Response : Type := {
  status_code : N;
  text : str
}.

(** The levels the module logs at, and its messages. *)
Inductive level : Type := DEBUG | INFO.

Module Message.
Definition fetching_index (index_url : str) : str := u "Fetching index page: " ++ index_url.
Definition discovered (pages : nat) : str :=
  u "Discovered " ++ str_of_int pages ++ u " detail pages".
Definition fetching_detail (page_url : str) : str := u "Fetching detail page: " ++ page_url.
Definition found (entries : nat) (page_url : str) : str :=
  u "Found " ++ str_of_int entries ++ u " entries on " ++ page_url.
Definition collected (entries : nat) : str :=
  u "Collected " ++ str_of_int entries ++ u " unique entries".
Definition written (entries : nat) (output_path : str) : str :=
  u "Written " ++ str_of_int entries ++ u " entries to " ++ output_path.
End Message.

(** The collaborators of a run: the session's [get], [time.sleep], the
    page parser [BeautifulSoup(html, "html.parser")] and the module's
    [LOGGER], over a state of the outside world that the calls may change.
    [logger lvl message] is [LOGGER.debug] or [LOGGER.info] with the message
    already formatted; what becomes of the message depends on how logging is
    set up at the time, and the call is taken not to raise. *)
Record Env : Type := {
  world : Type;
  session_get : str -> world -> outcome Response * world;
  time_sleep : Z -> world -> world;
  html_parser : str -> node;
  logger : level -> str -> world -> world
}.

(** Computations that read and change the world and may raise. *)
Definition M (W A : Type) : Type := W -> outcome A * W.

Definition ret (W A : Type) (a : A) : M W A := fun w => (Returned a, w).

Definition raise (W A : Type) (e : exn) : M W A := fun w => (Raised e, w).

Arguments ret {W A} a.
Arguments raise {W A} e.

Definition bind (W A B : Type) (m : M W A) (f : A -> M W B) : M W B :=
  fun w =>
    match m w with
    | (Returned a, w') => f a w'
    | (Raised e, w') => (Raised e, w')
    end.

Notation "x <- m ;; f" := (bind m (fun x => f))
  (at level 61, m at next level, right associativity).

(** A call that changes the world and returns nothing, and a computation
    that leaves the world alone. *)
Definition effect (W : Type) (f : W -> W) : M W unit := fun w => (Returned tt, f w).

Definition lift (W A : Type) (r : outcome A) : M W A := fun w => (r, w).

Section Run.
Variable L : PyLib.
Variable E : Env.
Variable self : MKBScraper.

Definition _fetch (url : str) : M (world E) str :=
  resp <- session_get E url ;;
  if ((400 <=? status_code resp) && (status_code resp <? 600))%N
  then raise (HTTPError (status_code resp))
  else ret (text resp).

(** The loop of [scrape] over the detail pages. *)
Fixpoint fetch_pages (pages : list str) (entries : list MKBEntry)
  : M (world E) (list MKBEntry) :=
  match pages with
  | [] => ret entries
  | page_url :: pages' =>
    _ <- effect (logger E INFO (Message.fetching_detail page_url)) ;;
    html <- _fetch page_url ;;
    let page_entries := _parse_entries L (html_parser E html) in
    _ <- effect (logger E DEBUG (Message.found (length page_entries) page_url)) ;;
    let entries := entries ++ page_entries in
    _ <- (fun w => if (delay self =? 0)%Z then (Returned tt, w)
                   else (Returned tt, time_sleep E (delay self) w)) ;;
    fetch_pages pages' entries
  end.

Definition scrape : M (world E) (list MKBEntry) :=
  _ <- effect (logger E INFO (Message.fetching_index (index_url self))) ;;
  index_html <- _fetch (index_url self) ;;
  let soup := html_parser E index_html in
  let entries := [] ++ _parse_entries L soup in
  pages <- lift (_discover_detail_pages L self soup) ;;
  _ <- effect (logger E INFO (Message.discovered (length pages))) ;;
  entries <- fetch_pages pages entries ;;
  let unique_entries := _deduplicate entries in
  _ <- effect (logger E INFO (Message.collected (length unique_entries))) ;;
  lift (Py.sorted_by (fun entry => _code_sort_key L (code entry)) sort_key_ltb
                     unique_entries).

End Run.

(** ** Writing the result *)

(** [csv.writer(f, delimiter="|")]: the [excel] dialect with another
    delimiter. A field is written as it is, or between quotes with its
    quotes doubled when it holds the delimiter, a quote or a character of
    the line terminator; a row is its fields joined by the delimiter,
    followed by the line terminator. A row of one empty field is written as
    two quotes. *)
Module Csv.

Definition delimiter : char := chr "|".
Definition quotechar : char := 34%N.
Definition lineterminator : str := [13%N; 10%N].

Definition special (c : char) : bool :=
  (c =? delimiter)%N || (c =? quotechar)%N || existsb (N.eqb c) lineterminator.

Definition field (s : str) : str :=
  let body := flat_map (fun c => if (c =? quotechar)%N then [quotechar; quotechar] else [c]) s in
  if existsb special s then quotechar :: body ++ [quotechar] else body.

Definition row (fields : list str) : str :=
  match fields with
  | [[]] => [quotechar; quotechar] ++ lineterminator
  | _ => Str.join [delimiter] (map field fields) ++ lineterminator
  end.

End Csv.

(** What [scrape_to_csv] can raise besides what the run raises: an
    [OSError] of [open], [write] or [close], or the [UnicodeEncodeError] of
    text that UTF-8 cannot encode. *)
Inductive file_exn : Type :=
| OSError (errno : N)
| UnicodeEncodeError.

Inductive failure : Type :=
| RunFailed (e : exn)
| FileFailed (e : file_exn).

(** The machine the command runs on: the site, the file system as far as
    [open(path, "w", newline="", encoding="utf-8")], [write] and [close] go,
    the two output streams, [str(exc)], and
    [logging.basicConfig(level=logging.INFO, format="%(levelname)s: %(message)s")].
    Printing and setting up logging are taken not to raise. *)
Record System : Type := {
  site : Env;
  basicConfig : world site -> world site;
  handle : Type;
  open_w : str -> world site -> (handle + file_exn) * world site;
  write : handle -> str -> world site -> option file_exn * world site;
  close : handle -> world site -> option file_exn * world site;
  print : str -> world site -> world site;
  print_stderr : str -> world site -> world site;
  describe : failure -> str
}.

(** The [argparse.Namespace] that [parse_args] returns. *)
Record Namespace : Type := {
  args_output : str;
  args_delay : Z
}.

Definition CSV_HEADER : list str :=
  [u "code"; u "description_serbian"; u "description_latin"].

Section Command.
Variable L : PyLib.
Variable S : System.

(** [writer.writerow] for each row in turn, up to the first that raises. *)
Fixpoint writerows (csv_file : handle S) (rows : list (list str)) (w : world (site S))
  : option file_exn * world (site S) :=
  match rows with
  | [] => (None, w)
  | r :: rows' =>
    match write S csv_file (Csv.row r) w with
    | (Some e, w') => (Some e, w')
    | (None, w') => writerows csv_file rows' w'
    end
  end.

(** [scrape_to_csv(output_path, delay=delay)]. Logging is set up first;
    the run comes next, and the file is opened after it. The [with]
    statement closes the file on the way out, also when a [writerow] raised;
    what [close] raises then takes the place of that exception. The last
    message is logged when the file was written and closed. *)
Definition scrape_to_csv (output_path : str) (delay : Z) (w : world (site S))
  : (nat + failure) * world (site S) :=
  let w := basicConfig S w in
  let scraper := __init__ BASE_URL INDEX_PATH delay in
  match scrape L (site S) scraper w with
  | (Raised e, w) => (inr (RunFailed e), w)
  | (Returned entries, w) =>
    match open_w S output_path w with
    | (inr e, w) => (inr (FileFailed e), w)
    | (inl csv_file, w) =>
      let rows :=
          CSV_HEADER :: map (fun entry => [code entry; serbian entry; latin entry]) entries in
      let (written, w) := writerows csv_file rows w in
      let (closed, w) := close S csv_file w in
      match closed, written with
      | Some e, _ => (inr (FileFailed e), w)
      | None, Some e => (inr (FileFailed e), w)
      | None, None =>
        (inl (length entries),
         logger (site S) INFO (Message.written (length entries) output_path) w)
      end
    end
  end.

(** [main], from the parsed arguments on: the exit status. Reading the
    command line is the work of [argparse] and is not part of the model.
    Every exception of the model is an [Exception], which the handler
    catches. *)
Definition main (args : Namespace) (w : world (site S)) : N * world (site S) :=
  match scrape_to_csv (args_output args) (args_delay args) w with
  | (inr exc, w) => (1%N, print_stderr S (u "Error: " ++ describe S exc) w)
  | (inl count, w) =>
    (0%N, print S (u "Successfully wrote " ++ str_of_int count ++ u " entries to "
                     ++ args_output args) w)
  end.

End Command.

(** ** A reference instance of the libraries

    Used to run the scraper on example pages. It agrees with CPython 3.11
    (Unicode 14) on the decimal digits everywhere, on [str.lower] for Basic
    Latin, Latin-1, Latin Extended-A and the Cyrillic capitals, on
    [html.unescape] for text whose references are among the few listed, and
    on [urlparse]/[urljoin] for http(s) URLs and references without dot
    segments, whose network location holds no square bracket or only one
    of the two (which raises). The limit of [int] is the interpreter's
    default. The properties below are proved for every instance. *)
Module Ref.

Definition lower_char (c : char) : str :=
  if ((65 <=? c) && (c <=? 90) || (192 <=? c) && (c <=? 222) && negb (c =? 215))%N
  then [(c + 32)%N]
  else if (c =? 304)%N then [105%N; 775%N]
  else if (((256 <=? c) && (c <=? 311) || (330 <=? c) && (c <=? 375)) && N.even c)%N
  then [(c + 1)%N]
  else if (((313 <=? c) && (c <=? 328) || (377 <=? c) && (c <=? 382)) && N.odd c)%N
  then [(c + 1)%N]
  else if (c =? 376)%N then [255%N]
  else if ((1024 <=? c) && (c <=? 1039))%N then [(c + 80)%N]
  else if ((1040 <=? c) && (c <=? 1071))%N then [(c + 32)%N]
  else [c].

Definition lower (s : str) : str := flat_map lower_char s.

(** The character references the reference [unescape] decodes. *)
Definition references : list (str * str) :=
  [(u "&amp;", u "&"); (u "&lt;", u "<"); (u "&gt;", u ">"); (u "&quot;", [34%N]);
   (u "&apos;", [39%N]); (u "&#39;", [39%N]); (u "&nbsp;", [160%N])].

Fixpoint unescape_from (skip : nat) (s : str) : str :=
  match s with
  | [] => []
  | c :: s' =>
    match skip with
    | S k => unescape_from k s'
    | O =>
      if (c =? 38)%N then
        match find (fun r => Str.startswith (fst r) s) references with
        | Some (name, value) => value ++ unescape_from (length name - 1) s'
        | None => c :: unescape_from 0 s'
        end
      else c :: unescape_from 0 s'
    end
  end.

Definition unescape (s : str) : str := unescape_from 0 s.

(** The zeros of the blocks of decimal digits (category Nd). *)
Definition zeros : list N :=
  [48; 1632; 1776; 1984; 2406; 2534; 2662; 2790; 2918; 3046; 3174; 3302; 3430; 3558;
   3664; 3792; 3872; 4160; 4240; 6112; 6160; 6470; 6608; 6784; 6800; 6992; 7088; 7232;
   7248; 42528; 43216; 43264; 43472; 43504; 43600; 44016; 65296; 66720; 68912; 69734;
   69872; 69942; 70096; 70384; 70736; 70864; 71248; 71360; 71472; 71904; 72016; 72784;
   73040; 73120; 92768; 92864; 93008; 120782; 120792; 120802; 120812; 120822; 123200;
   123632; 125264; 130032]%N.

Definition decimal (c : char) : option N :=
  match find (fun z => (z <=? c) && (c <? z + 10))%N zeros with
  | Some z => Some (c - z)%N
  | None => None
  end.

(** [s.partition(c)], as the text before and the text from [c] on. *)
Fixpoint break (p : char -> bool) (s : str) : str * str :=
  match s with
  | [] => ([], [])
  | c :: s' => if p c then ([], s) else let (a, b) := break p s' in (c :: a, b)
  end.

Definition is_one_of (chars : str) (c : char) : bool := existsb (N.eqb c) chars.

Definition scheme_char (c : char) : bool :=
  ((97 <=? c) && (c <=? 122) || (65 <=? c) && (c <=? 90) || (48 <=? c) && (c <=? 57)
   || (c =? 43) || (c =? 45) || (c =? 46))%N.

Definition alpha (c : char) : bool :=
  ((97 <=? c) && (c <=? 122) || (65 <=? c) && (c <=? 90))%N.

(** [urlparse]: scheme, then the network location after [//], which must
    not hold one square bracket without the other, then the fragment, the
    query and the parameters of the last path segment. *)
Definition urlparse (url : str) : outcome ParseResult :=
  let (scheme, url) :=
    match break (is_one_of (u ":")) url with
    | (c :: pre, _ :: rest) =>
      if alpha c && forallb scheme_char pre then (lower (c :: pre), rest) else ([], url)
    | _ => ([], url)
    end in
  let (netloc, url) :=
    if Str.startswith (u "//") url then break (is_one_of (u "/?#")) (skipn 2 url)
    else ([], url) in
  if xorb (existsb (N.eqb 91) netloc) (existsb (N.eqb 93) netloc)
  then Raised (ValueError (u "Invalid IPv6 URL"))
  else
    let (url, fragment) := break (is_one_of (u "#")) url in
    let (url, query) := break (is_one_of (u "?")) url in
    let (last, dirs) := break (is_one_of (u "/")) (rev url) in
    let (last, params) := break (is_one_of (u ";")) (rev last) in
    Returned {| scheme := scheme;
                netloc := netloc;
                path := rev dirs ++ last;
                params := tl params;
                query := tl query;
                fragment := tl fragment |}.

(** [urljoin] for a reference that is a full URL, one that starts with
    ['/'], or one relative to the directory of the base path. Both URLs are
    parsed first. *)
Definition urljoin (base url : str) : outcome str :=
  b <~ urlparse base ;;
  r <~ urlparse url ;;
  if Str.truthy (scheme r) && Str.truthy (netloc r) then Returned url
  else
    let origin := scheme b ++ u "://" ++ netloc b in
    if Str.startswith (u "/") url then Returned (origin ++ url)
    else
      let (_, dirs) := break (is_one_of (u "/")) (rev (path b)) in
      Returned (origin ++ rev dirs ++ url).

(** [sys.int_info.default_max_str_digits]. *)
Definition int_max_str_digits : nat := 4300.

(** The whitespace characters, one by one. *)
Definition spaces : list N :=
  [9; 10; 11; 12; 13; 28; 29; 30; 31; 32; 133; 160; 5760; 8192; 8193; 8194; 8195; 8196;
   8197; 8198; 8199; 8200; 8201; 8202; 8232; 8233; 8239; 8287; 12288]%N.

End Ref.

(** * The vocabulary of the properties *)

(** ** The merger *)

Module Dedup.

(** The loop body of [_deduplicate]. *)
Definition step (seen : list (str * MKBEntry)) (entry : MKBEntry) : list (str * MKBEntry) :=
  match Py.get seen (code entry) with
  | None => Py.set seen (code entry) entry
  | Some existing =>
    Py.set seen (code entry)
           {| code := code entry;
              serbian := Str.or (serbian entry) (serbian existing);
              latin := Str.or (latin entry) (latin existing) |}
  end.

(** The distinct elements of a list, in the order of their first
    occurrence. *)
Fixpoint firsts (l : list str) : list str :=
  match l with
  | [] => []
  | c :: l' => c :: filter (fun c' => negb (Str.eqb c c')) (firsts l')
  end.

(** The last non-empty string of a list; the empty string when there is
    none. *)
Definition last_nonempty (l : list str) : str := last (filter Str.truthy l) [].

(** The entries of a sequence that carry a given code. *)
Definition occurrences (c : str) (entries : list MKBEntry) : list MKBEntry :=
  filter (fun e => Str.eqb (code e) c) entries.

(** The policy as the specification words it: the value seen first stays,
    a later occurrence fills a field only where the record's is empty. *)
Definition step_first_wins (seen : list (str * MKBEntry)) (entry : MKBEntry)
  : list (str * MKBEntry) :=
  match Py.get seen (code entry) with
  | None => Py.set seen (code entry) entry
  | Some existing =>
    Py.set seen (code entry)
           {| code := code entry;
              serbian := Str.or (serbian existing) (serbian entry);
              latin := Str.or (latin existing) (latin entry) |}
  end.

Definition deduplicate_first_wins (entries : list MKBEntry) : list MKBEntry :=
  Py.values (fold_left step_first_wins entries []).

Definition keys (d : list (str * MKBEntry)) : list str := map fst d.

(** One more occurrence merged into the record of its code. *)
Definition merge_onto (o : option MKBEntry) (e : MKBEntry) : option MKBEntry :=
  Some match o with
       | None => e
       | Some existing =>
         {| code := code e;
            serbian := Str.or (serbian e) (serbian existing);
            latin := Str.or (latin e) (latin existing) |}
       end.

End Dedup.

Definition kolera : MKBEntry :=
  {| code := u "A00"; serbian := u "Kolera"; latin := [] |}.

Definition cholera : MKBEntry :=
  {| code := u "A00"; serbian := []; latin := u "Cholera" |}.

Definition azijska_kolera : MKBEntry :=
  {| code := u "A00"; serbian := u "Azijska kolera"; latin := u "Cholera" |}.

(** ** The matcher *)

(** What a pattern can match, as a relation between the position and text
    before and after: the declarative reading of the pattern syntax, without
    priorities. *)
Inductive matches : Re.t -> nat * str -> nat * str -> Prop :=
| m_eps : forall st, matches Re.Eps st st
| m_cls : forall p i c s, p c = true -> matches (Re.Cls p) (i, c :: s) (S i, s)
| m_cat : forall a b st1 st2 st3,
    matches a st1 st2 -> matches b st2 st3 -> matches (Re.Cat a b) st1 st3
| m_alt_l : forall a b st1 st2, matches a st1 st2 -> matches (Re.Alt a b) st1 st2
| m_alt_r : forall a b st1 st2, matches b st1 st2 -> matches (Re.Alt a b) st1 st2
| m_star_nil : forall a st, matches (Re.Star a) st st
| m_star_cons : forall a st1 st2 st3,
    matches a st1 st2 -> matches (Re.Star a) st2 st3 -> matches (Re.Star a) st1 st3
| m_grp : forall n a st1 st2, matches a st1 st2 -> matches (Re.Grp n a) st1 st2
| m_bol : forall s, matches Re.Bol (0, s) (0, s)
| m_eol_end : forall i, matches Re.Eol (i, []) (i, [])
| m_eol_newline : forall i, matches Re.Eol (i, [10%N]) (i, [10%N]).

(** The greedy run of a class: as many characters as the class takes, then
    the continuation, giving characters back one by one while it fails. *)
Fixpoint greedy (R : Type) (p : char -> bool) (k : Re.cont R)
         (i : nat) (s : str) (g : Re.groups) : option R :=
  match s with
  | c :: s' =>
    if p c then
      match greedy p k (S i) s' g with
      | Some x => Some x
      | None => k i s g
      end
    else k i s g
  | [] => k i s g
  end.

(** The text starts with a character outside the class, or is empty. *)
Definition stops (p : char -> bool) (v : str) : Prop :=
  match v with [] => True | c :: _ => p c = false end.

(** ** The code pattern *)

(** The shape [_is_code] accepts: one or two letters A-Z, two decimal
    digits, then nothing or a full stop and one to four characters, each a
    digit 0-9 or a letter A-Z. *)
Definition code_shape (L : PyLib) (s : str) : Prop :=
  exists letters digits suffix,
    s = letters ++ digits ++ suffix
    /\ 1 <= length letters <= 2 /\ forallb Re.upper letters = true
    /\ length digits = 2 /\ forallb (cls_d L) digits = true
    /\ (suffix = []
        \/ exists tail, suffix = chr "." :: tail
                        /\ 1 <= length tail <= 4 /\ forallb cls_09AZ tail = true).

(** The shape as the specification words it: the characters after the full
    stop are alphanumerics, that is letters of either case or digits. *)
Definition alphanumeric (L : PyLib) (c : char) : bool :=
  Re.upper c || ((97 <=? c) && (c <=? 122))%N || cls_d L c.

Definition code_shape_as_specified (L : PyLib) (s : str) : Prop :=
  exists letters digits suffix,
    s = letters ++ digits ++ suffix
    /\ 1 <= length letters <= 2 /\ forallb Re.upper letters = true
    /\ length digits = 2 /\ forallb (cls_d L) digits = true
    /\ (suffix = []
        \/ exists tail, suffix = chr "." :: tail
                        /\ 1 <= length tail <= 4 /\ forallb (alphanumeric L) tail = true).

(** The text after a code token is empty or starts with whitespace. *)
Definition code_end (v : str) : Prop :=
  match v with [] => True | c :: _ => Re.space c = true end.

(** ** The sort key *)

(** A code the sort-key pattern parses: letters A-Z, decimal digits, and
    possibly a full stop and a suffix of digits 0-9 and letters A-Z. *)
Definition key_shape (L : PyLib) (s prefix number : str) (suffix : option str) : Prop :=
  prefix <> [] /\ forallb Re.upper prefix = true
  /\ number <> [] /\ forallb (cls_d L) number = true
  /\ match suffix with
     | None => s = prefix ++ number
     | Some t => t <> [] /\ forallb cls_09AZ t = true /\ s = prefix ++ number ++ chr "." :: t
     end.

(** The key of a code when [int] has no limit on the digits it converts. *)
Definition unlimited_key (L : PyLib) (code : str) : sort_key :=
  match Re.fullmatch (SORT_KEY_RE L) code with
  | Some g =>
    let prefix := match Re.group g 1 with Some s => s | None => [] end in
    let number := match Re.group g 2 with Some s => s | None => [] end in
    let suffix_value := match Re.group g 3 with Some s => Str.or s [] | None => [] end in
    (prefix, int_value L number, suffix_value)
  | None => (code, 0%N, [])
  end.

(** The digit group of a code is longer than [int] converts. *)
Definition over_limit (L : PyLib) (number : str) : Prop :=
  640 < length number /\ 0 < int_max_str_digits L < length number.

(** The order on keys that tuple comparison gives. *)
Definition sort_key_lt (a b : sort_key) : Prop :=
  let '(p1, n1, s1) := a in
  let '(p2, n2, s2) := b in
  Str.ltb p1 p2 = true
  \/ (p1 = p2 /\ ((n1 < n2)%N \/ (n1 = n2 /\ Str.ltb s1 s2 = true))).

(** ** Example pages *)

Module Html.
Definition td (s : string) : node := Tag (u "td") None None [Text (u s)].
Definition tr (cells : list node) : node := Tag (u "tr") None None cells.
Definition table (rows : list node) : node := Tag (u "table") None None rows.
Definition span (cls : string) (s : string) : node :=
  Tag (u "span") (Some [u cls]) None [Text (u s)].
Definition div (cls : string) (children : list node) : node :=
  Tag (u "div") (Some [u cls]) None children.
Definition a (href : string) (s : string) : node :=
  Tag (u "a") None (Some (u href)) [Text (u s)].
Definition p (s : string) : node := Tag (u "p") None None [Text (u s)].
Definition document (body : list node) : node := Tag (u "[document]") None None body.
(** The line break and indentation between two tags. *)
Definition ws : node := Text [10%N; 32%N; 32%N; 32%N; 32%N].
End Html.

(** The page of [test_parse_tables_strips_labels]. *)
Definition labelled_table_page : node :=
  Html.document
    [Html.ws;
     Html.table
       [Html.ws;
        Html.tr
          [Html.ws; Html.td "Šifra: B00"; Html.ws; Html.td "Naziv: Herpes simpleks";
           Html.ws; Html.td "Latinski: Herpes simplex"; Html.ws];
        Html.ws];
     Html.ws].

(** The page of [test_parse_structured_blocks_with_labels]. *)
Definition labelled_block_page : node :=
  Html.document
    [Html.ws;
     Html.div "mkb-item"
       [Html.ws; Html.span "sifra" "Šifra: A00"; Html.ws; Html.span "naziv" "Opis: Kolera";
        Html.ws; Html.span "latin" "Latinski: Cholera"; Html.ws];
     Html.ws].

(** A row whose second cell holds the word for "code". *)
Definition sifra_row_page : node :=
  Html.document [Html.table [Html.tr [Html.td "A00"; Html.td "Kolera (stara šifra 001)"]]].

(** A row of four cells whose fourth cell is the word for "code", and a
    page with that row. *)
Definition header_word_row : list str :=
  [u "A00"; u "Kolera"; u "Cholera"; u "šifra"].

Definition header_word_page : node :=
  Html.document [Html.table [Html.tr [Html.td "A00"; Html.td "Kolera"; Html.td "Cholera"; Html.td "šifra"]]].

(** A page with a row of four cells. *)
Definition four_cell_page : node :=
  Html.document [Html.table [Html.tr [Html.td "A00"; Html.td "Kolera"; Html.td "Cholera"; Html.td "zarazna bolest"]]].

(** A page that every strategy can read: a table row, a marked block and a
    line of text. *)
Definition cascade_page : node :=
  Html.document
    [Html.table [Html.tr [Html.td "A00"; Html.td "Kolera"; Html.td "Cholera"]];
     Html.div "mkb-item" [Html.span "sifra" "B00"; Html.span "naziv" "Herpes"; Html.span "latin" "Herpes simplex"];
     Html.p "C00   Rak usne   Neoplasma malignum labii"].

(** ** The link discoverer *)

(** What makes the target of an anchor a detail page, and the URL it is
    listed under. *)
Definition in_scope_link (L : PyLib) (self : MKBScraper) (href url : str) : Prop :=
  let href := Str.strip href in
  let root := Str.rstrip (u "/") (index_path self) in
  href <> [] /\ Str.startswith (u "#") href = false
  /\ exists absolute parsed base,
      urljoin L (index_url self) href = Returned absolute
      /\ urlparse L absolute = Returned parsed
      /\ urlparse L (base_url self) = Returned base
      /\ (scheme parsed = u "http" \/ scheme parsed = u "https")
      /\ netloc parsed = netloc base
      /\ Str.rstrip (u "/") (path parsed) <> root
      /\ Str.startswith root (Str.rstrip (u "/") (path parsed)) = true
      /\ url = scheme parsed ++ u "://" ++ netloc parsed ++ Str.rstrip (u "/") (path parsed).

(** The target of an anchor goes through the loop without an exception. *)
Definition resolves (L : PyLib) (self : MKBScraper) (href : str) : Prop :=
  exists found, detail_link L self href = Returned found.

(** An index page with a link whose target [urlparse] refuses, after one
    that it accepts. *)
Definition malformed_link_page : node :=
  Html.document [Html.a "/mkb/a00-b99" "Zarazne bolesti"; Html.a "http://[" "pokvaren"].

(** A page with a link beside the index path. *)
Definition mkbx_page : node := Html.document [Html.a "/mkbx" "MKB X"].

(** An index page with links in and out of scope. *)
Definition index_page : node :=
  Html.document
    [Html.a "/mkb/c00-d48" "Tumori"; Html.a "/mkb" "MKB"; Html.a "/mkb/" "MKB";
     Html.a "/mkb/a00-b99?strana=2#vrh" "Zarazne bolesti";
     Html.a "https://www.stetoskop.info/mkb/a00-b99/" "Zarazne bolesti";
     Html.a "https://example.org/mkb/a00" "drugi sajt"; Html.a "/bolesti" "Bolesti";
     Html.a "#vrh" "Vrh"; Html.a "mailto:info@stetoskop.info" "Kontakt"].

(** ** A site that fails *)

(** A site that answers every request but one, which gets a 503; the world
    is the number of requests made so far. The body of a page is its URL,
    the parser knows the index page, and what is logged is lost. *)
Definition failing_page : str := u "https://www.stetoskop.info/mkb/c00-d48".

Definition flaky_site : Env :=
  {| world := nat;
     session_get := fun url n =>
       (Returned {| status_code := if Str.eqb url failing_page then 503%N else 200%N;
                    text := url |},
        S n);
     time_sleep := fun _ n => n;
     html_parser := fun html =>
       if Str.eqb html INDEX_URL then index_page else Html.document [];
     logger := fun _ _ n => n |}.

(** A site that serves every page, whose index page holds a link that
    [urlparse] refuses; the world is the number of requests made. *)
Definition broken_link_site : Env :=
  {| world := nat;
     session_get := fun url n => (Returned {| status_code := 200%N; text := url |}, S n);
     time_sleep := fun _ n => n;
     html_parser := fun html =>
       if Str.eqb html INDEX_URL then malformed_link_page else Html.document [];
     logger := fun _ _ n => n |}.

(** ** The free-text strategy *)

(** A piece of a line: no newline, no two whitespace characters in a row,
    none at either end, and no pipe in front. *)
Fixpoint tight (s : str) : bool :=
  match s with
  | [] => true
  | c :: s' =>
    match s' with
    | [] => negb (Re.space c)
    | c' :: _ => negb (Re.space c && Re.space c') && tight s'
    end
  end.

Definition piece (s : str) : Prop :=
  tight s = true /\ forallb Re.dot s = true
  /\ exists c t, s = c :: t /\ Re.space c = false /\ c <> chr "|".

(** A run of two or more whitespace characters, none a newline. *)
Definition wide_gap (w : str) : Prop :=
  2 <= length w /\ forallb Re.space w = true /\ forallb Re.dot w = true.

(** What [re.split] cuts at: a wide gap, or a pipe between two wide gaps. *)
Definition delimiter (d : str) : Prop :=
  wide_gap d \/ exists w1 w2, wide_gap w1 /\ wide_gap w2 /\ d = w1 ++ chr "|" :: w2.

(** What may follow the second piece: nothing, or a wide gap and any text. *)
Definition trailing (more : str) : Prop :=
  more = [] \/ (forallb Re.dot more = true
                /\ exists c1 c2 t, more = c1 :: c2 :: t
                                   /\ Re.space c1 = true /\ Re.space c2 = true).

(** The text starts with two whitespace characters. *)
Definition starts_wide (s : str) : bool :=
  match s with
  | c1 :: c2 :: _ => Re.space c1 && Re.space c2
  | _ => false
  end.

(** The splitting as the specification words it: at the first run of two or
    more spaces, or the first space-pipe-space, into at most two parts. *)
Fixpoint split_as_specified (cur : str) (s : str) : str * option str :=
  match s with
  | [] => (rev cur, None)
  | c :: s' =>
    if Str.startswith (u " | ") s then (rev cur, Some (skipn 3 s))
    else if Str.startswith (u "  ") s
         then (rev cur, Some (Str.lstrip_with (fun c => (c =? 32)%N) s))
         else split_as_specified (c :: cur) s'
  end.

Definition line_entries_as_specified (L : PyLib) (line : str) : list MKBEntry :=
  match Re.match_ (LINE_RE L) line with
  | None => []
  | Some (_, g) =>
    let code := match Re.group g 1 with Some s => s | None => [] end in
    let rest := match Re.group g 2 with Some s => s | None => [] end in
    let (first, second) := split_as_specified [] rest in
    [{| code := code;
        serbian := Str.strip first;
        latin := match second with Some s => Str.strip s | None => [] end |}]
  end.

Definition text_page : node :=
  Html.document
    [Html.p "MKB-10"; Html.p "A00   Kolera   Cholera"; Html.p "foo bar"].

(** ** Normal text *)

(** No two whitespace characters in a row, and every whitespace character
    is the space U+0020. *)
Fixpoint single_spaced (s : str) : bool :=
  match s with
  | [] => true
  | c :: s' =>
    (negb (Re.space c) || (c =? 32)%N)
    && match s' with
       | c' :: _ => negb (Re.space c && Re.space c')
       | [] => true
       end
    && single_spaced s'
  end.

(** No two whitespace characters in a row. *)
Fixpoint gapless (s : str) : bool :=
  match s with
  | [] => true
  | c :: s' =>
    match s' with
    | c' :: _ => negb (Re.space c && Re.space c')
    | [] => true
    end
    && gapless s'
  end.

(** A description as the strategies leave it: no whitespace at either end
    and no two whitespace characters in a row. *)
Definition tidy (s : str) : Prop := Str.strip s = s /\ gapless s = true.

(** ** The groups of a match *)

(** The names of the groups of a pattern. *)
Fixpoint group_names (r : Re.t) : list nat :=
  match r with
  | Re.Grp n a => n :: group_names a
  | Re.Cat a b | Re.Alt a b => group_names a ++ group_names b
  | Re.Star a => group_names a
  | _ => []
  end.

(** The groups [g'] are the groups [g], but for the given names. *)
Definition keeps (names : list nat) (g g' : Re.groups) : Prop :=
  forall n, ~ In n names -> Re.group g' n = Re.group g n.

(** ** Entries and their keys *)

(** An entry as the strategies build it: a code the code pattern accepts,
    and tidy descriptions. *)
Definition well_formed (L : PyLib) (e : MKBEntry) : Prop :=
  _is_code L (code e) = true /\ tidy (serbian e) /\ tidy (latin e).

(** The order of two entries by the keys of their codes, taken without the
    limit of [int]: the order [sorted] sorts in when every key is returned. *)
Definition entry_ltb (L : PyLib) (a b : MKBEntry) : bool :=
  sort_key_ltb (unlimited_key L (code a)) (unlimited_key L (code b)).

(** The entries have keys, and the key of the second is not below the key
    of the first. *)
Definition in_key_order (L : PyLib) (a b : MKBEntry) : Prop :=
  exists ka kb,
    _code_sort_key L (code a) = Returned ka
    /\ _code_sort_key L (code b) = Returned kb
    /\ sort_key_ltb kb ka = false.

(** Neither key is below the other: the entry ties with the key. *)
Definition tie (L : PyLib) (key : sort_key) (e : MKBEntry) : bool :=
  match _code_sort_key L (code e) with
  | Returned k => negb (sort_key_ltb key k) && negb (sort_key_ltb k key)
  | Raised _ => false
  end.

(** Every character is in Basic Latin. *)
Definition ascii_only (s : str) : Prop := Forall (fun c => (c < 128)%N) s.

(** The letter A and two Arabic-Indic zeros. *)
Definition A00_arabic_indic : str := [65; 1632; 1632]%N.

(** The element at position [j] is the one [_find_first_matching] is told
    to leave out. *)
Definition skipped (exclude : option (nat * node)) (j : nat) : Prop :=
  option_map fst exclude = Some j.

(** ** Lines *)

(** The text is not empty and starts with whitespace. *)
Definition starts_blank (v : str) : Prop :=
  exists c t, v = c :: t /\ Re.space c = true.

(** The pieces of a remainder that are not blank, stripped. *)
Definition pieces_of (rest : str) : list str :=
  map Str.strip (filter (fun part => Str.truthy (Str.strip part)) (Re.split PARTS_RE rest)).

(** ** A site that answers *)

(** Every page of a list is served with a status outside 400-599 and the
    body [content] gives, whatever was requested before. *)
Definition serves (E : Env) (content : str -> str) (urls : list str) : Prop :=
  forall url, In url urls ->
    forall w, exists resp w',
        session_get E url w = (Returned resp, w')
        /\ ((400 <=? status_code resp) && (status_code resp <? 600))%N = false
        /\ text resp = content url.

(** A site of three pages: the index page and the two detail pages it
    links to. The body of a page is its URL; the world is the number of
    requests made and the total time slept; what is logged is lost. *)
Definition page_a00_b99 : node :=
  Html.document
    [Html.table
       [Html.tr [Html.td "B00"; Html.td "Herpes"];
        Html.tr [Html.td "A00"; Html.td "Kolera"]]].

Definition page_c00_d48 : node :=
  Html.document
    [Html.table
       [Html.tr [Html.td "C00"; Html.td "Rak usne"; Html.td "Neoplasma malignum labii"];
        Html.tr [Html.td "A00"; Html.td ""; Html.td "Cholera"]]].

Definition small_site_page (html : str) : node :=
  if Str.eqb html INDEX_URL then index_page
  else if Str.eqb html (u "https://www.stetoskop.info/mkb/a00-b99") then page_a00_b99
  else if Str.eqb html (u "https://www.stetoskop.info/mkb/c00-d48") then page_c00_d48
  else Html.document [].

Definition small_site : Env :=
  {| world := nat * Z;
     session_get := fun url w =>
       (Returned {| status_code := 200%N; text := url |}, (S (fst w), snd w));
     time_sleep := fun d w => (fst w, (snd w + d)%Z);
     html_parser := small_site_page;
     logger := fun _ _ w => w |}.

(** What a run on the small site returns. *)
Definition small_site_entries : list MKBEntry :=
  [{| code := u "A00"; serbian := u "Kolera"; latin := u "Cholera" |};
   {| code := u "B00"; serbian := u "Herpes"; latin := [] |};
   {| code := u "C00"; serbian := u "Rak usne"; latin := u "Neoplasma malignum labii" |}].

(** The links of [index_page], in another order and one of them twice. *)
Definition index_page_shuffled : node :=
  Html.document
    [Html.a "#vrh" "Vrh"; Html.a "/bolesti" "Bolesti";
     Html.a "https://www.stetoskop.info/mkb/a00-b99/" "Zarazne bolesti";
     Html.a "/mkb/" "MKB"; Html.a "/mkb/c00-d48" "Tumori";
     Html.a "mailto:info@stetoskop.info" "Kontakt";
     Html.a "/mkb/a00-b99?strana=2#vrh" "Zarazne bolesti"; Html.a "/mkb" "MKB";
     Html.a "https://example.org/mkb/a00" "drugi sajt"; Html.a "/mkb/c00-d48" "Tumori"].

(** ** A machine with its files in memory *)

(** The world of a site, the files by path, the lines written to the two
    streams, and whether logging is set up. Until [basicConfig] is called
    the root logger has no handler and its level is WARNING: what the module
    logs is dropped. From then on it has a handler that writes the lines
    [LEVEL: message] to the standard error, and its level is INFO. *)
Record Machine (W : Type) : Type := {
  net : W;
  files : list (str * str);
  out : list str;
  err : list str;
  logging : bool
}.

Definition set_net (W : Type) (m : Machine W) (w : W) : Machine W :=
  {| net := w; files := files m; out := out m; err := err m; logging := logging m |}.

Definition set_files (W : Type) (m : Machine W) (fs : list (str * str)) : Machine W :=
  {| net := net m; files := fs; out := out m; err := err m; logging := logging m |}.

Definition to_out (W : Type) (line : str) (m : Machine W) : Machine W :=
  {| net := net m; files := files m; out := out m ++ [line]; err := err m;
     logging := logging m |}.

Definition to_err (W : Type) (line : str) (m : Machine W) : Machine W :=
  {| net := net m; files := files m; out := out m; err := err m ++ [line];
     logging := logging m |}.

(** [LOGGER.debug] and [LOGGER.info] on the machine. *)
Definition log_line (W : Type) (lvl : level) (message : str) (m : Machine W) : Machine W :=
  match lvl with
  | DEBUG => m
  | INFO => if logging m then to_err (u "INFO: " ++ message) m else m
  end.

(** The lines the handler writes for the messages logged at level INFO,
    when logging is set up. *)
Definition info_lines (on : bool) (messages : list str) : list str :=
  if on then map (fun message => u "INFO: " ++ message) messages else [].

(** The machine with more lines on its standard error. *)
Definition more_err (W : Type) (lines : list str) (m : Machine W) : Machine W :=
  {| net := net m; files := files m; out := out m; err := err m ++ lines;
     logging := logging m |}.

(** The site, seen from the machine; the machine does the logging. *)
Definition on_machine (E : Env) : Env :=
  {| world := Machine (world E);
     session_get := fun url m =>
       let (r, w) := session_get E url (net m) in (r, set_net m w);
     time_sleep := fun d m => set_net m (time_sleep E d (net m));
     html_parser := html_parser E;
     logger := @log_line (world E) |}.

(** A file system whose operations succeed: [open] empties the file,
    [write] appends to it, and a handle is the path. *)
Definition mem_system (E : Env) (describe : failure -> str) : System :=
  {| site := on_machine E;
     basicConfig := fun m =>
       {| net := net m; files := files m; out := out m; err := err m; logging := true |};
     handle := str;
     open_w := fun path m => (inl path, set_files m (Py.set (files m) path []));
     write := fun path s m =>
       (None,
        set_files m (Py.set (files m) path
                            (match Py.get (files m) path with
                             | Some old => old
                             | None => []
                             end ++ s)));
     close := fun _ m => (None, m);
     print := @to_out (world E);
     print_stderr := @to_err (world E);
     describe := describe |}.

(** No delimiter, quote, carriage return or line feed. *)
Definition plain (s : str) : bool := forallb (fun c => negb (Csv.special c)) s.

(** The three fields of an entry, as [scrape_to_csv] lists them. *)
Definition fields_of (entry : MKBEntry) : list str :=
  [code entry; serbian entry; latin entry].

(** The small site, with an output file already there. *)
Definition small_machine : Machine (nat * Z) :=
  {| net := (0, 0%Z); files := [(u "mkb10.csv", u "stari sadrzaj")]; out := []; err := [];
     logging := false |}.

(** The arguments [parse_args] returns for an empty command line, the
    delay apart. *)
Definition default_args : Namespace :=
  {| args_output := u "mkb10.csv"; args_delay := 0 |}.

(** * Properties *)

(** Boolean tests on code points, as propositions for [lia]. *)
Ltac bprop :=
  repeat match goal with
         | H : _ /\ _ |- _ => destruct H
         | H : _ \/ _ |- _ => destruct H
         | H : False |- _ => destruct H
         | H : (_ && _) = true |- _ => apply andb_true_iff in H
         | H : (_ || _) = true |- _ => apply orb_true_iff in H
         | H : (_ && _) = false |- _ => apply andb_false_iff in H
         | H : (_ || _) = false |- _ => apply orb_false_iff in H
         | H : negb _ = true |- _ => apply negb_true_iff in H
         | H : negb _ = false |- _ => apply negb_false_iff in H
         | H : (_ <=? _)%N = true |- _ => apply N.leb_le in H
         | H : (_ <=? _)%N = false |- _ => apply N.leb_gt in H
         | H : (_ <? _)%N = true |- _ => apply N.ltb_lt in H
         | H : (_ <? _)%N = false |- _ => apply N.ltb_ge in H
         | H : (_ =? _)%N = true |- _ => apply N.eqb_eq in H
         | H : (_ =? _)%N = false |- _ => apply N.eqb_neq in H
         end.

(** ** The reference instance *)

(** The reference functions satisfy what [PyLib] asks. *)
Module Reference.
Import Ref.

Lemma lower_no_capital : forall s c,
    In c (lower s) ->
    ~ ((65 <= c <= 90)%N \/ ((192 <= c <= 222)%N /\ c <> 215%N)).
Proof.
  intros s c H. unfold lower in H. apply in_flat_map in H.
  destruct H as [x [_ H]]. unfold lower_char in H.
  match type of H with
  | In _ (if ?b then _ else _) =>
    destruct b eqn:Hcap; [simpl in H; bprop; subst; lia|]
  end.
  repeat match type of H with
         | In _ (if ?b then _ else _) =>
           let Hb := fresh in
           destruct b eqn:Hb; [simpl in H; bprop; subst; lia | clear Hb]
         end.
  simpl in H; bprop; subst; lia.
Qed.

Lemma unescape_plain : forall s, ~ In 38%N s -> unescape s = s.
Proof.
  unfold unescape. induction s as [|c s IH]; intros H; simpl; [reflexivity|].
  destruct (c =? 38)%N eqn:Hc.
  - apply N.eqb_eq in Hc. subst c. exfalso. apply H. left. reflexivity.
  - f_equal. apply IH. intro Hin. apply H. right. exact Hin.
Qed.

Lemma decimal_found : forall c v,
    decimal c = Some v -> exists z, In z zeros /\ (z <= c < z + 10)%N /\ v = (c - z)%N.
Proof.
  unfold decimal. intros c v H.
  destruct (find (fun z => (z <=? c) && (c <? z + 10))%N zeros) as [z|] eqn:Hf;
    [|discriminate].
  apply find_some in Hf. destruct Hf as [Hin Hz]. inversion H; subst.
  bprop. exists z. repeat split; assumption.
Qed.

Lemma decimal_ascii : forall c, (48 <= c <= 57)%N -> decimal c = Some (c - 48)%N.
Proof.
  intros c H.
  assert (E : ((48 <=? c) && (c <? 48 + 10))%N = true).
  { apply andb_true_iff. split; [apply N.leb_le | apply N.ltb_lt]; lia. }
  unfold decimal, zeros.
  match goal with
  | |- context [find ?f (?z :: ?l)] =>
    change (find f (z :: l)) with (if f z then Some z else find f l)
  end.
  cbv beta. rewrite E. reflexivity.
Qed.

Lemma decimal_below_ten : forall c v, decimal c = Some v -> (v < 10)%N.
Proof.
  intros c v H. apply decimal_found in H. destruct H as [z [_ [Hz ->]]]. lia.
Qed.

Lemma zeros_beyond_ascii : Forall (fun z => z = 48%N \/ (128 <= z)%N) zeros.
Proof. unfold zeros. repeat (apply Forall_cons; [lia|]). apply Forall_nil. Qed.

Lemma decimal_ascii_only : forall c,
    (c < 128)%N -> decimal c <> None -> (48 <= c <= 57)%N.
Proof.
  intros c Hc H. destruct (decimal c) as [v|] eqn:Hd; [|congruence].
  apply decimal_found in Hd. destruct Hd as [z [Hin [Hz _]]].
  pose proof zeros_beyond_ascii as Hall. rewrite Forall_forall in Hall.
  destruct (Hall z Hin); lia.
Qed.

Lemma isspace_spaces : forall c, Str.isspace c = true -> In c spaces.
Proof.
  intros c H. unfold Str.isspace in H. unfold spaces. simpl. bprop; lia.
Qed.

Lemma decimal_not_space : forall c, Str.isspace c = true -> decimal c = None.
Proof.
  intros c H. apply isspace_spaces in H. unfold spaces in H. simpl in H.
  repeat (destruct H as [<-|H]; [vm_compute; reflexivity|]). contradiction.
Qed.

Lemma break_stops : forall p s a b c,
    break p s = (a, b) -> In c a -> p c = false.
Proof.
  induction s as [|x s IH]; simpl; intros a b c H Hin.
  - inversion H; subst. contradiction.
  - destruct (p x) eqn:Hx.
    + inversion H; subst. contradiction.
    + destruct (break p s) as [a' b'] eqn:Hb. inversion H; subst.
      destruct Hin as [<-|Hin]; [assumption|]. eapply IH; [reflexivity|exact Hin].
Qed.

Lemma break_append : forall p s a b, break p s = (a, b) -> s = a ++ b.
Proof.
  induction s as [|x s IH]; simpl; intros a b H.
  - inversion H; reflexivity.
  - destruct (p x).
    + inversion H; reflexivity.
    + destruct (break p s) as [a' b'] eqn:Hb. inversion H; subst.
      simpl. f_equal. apply IH. reflexivity.
Qed.

Lemma is_one_of_false : forall chars c x,
    is_one_of chars c = false -> In x chars -> c <> x.
Proof.
  unfold is_one_of. intros chars c x H Hin Heq. subst x.
  assert (existsb (N.eqb c) chars = true); [|congruence].
  apply existsb_exists. exists c. split; [assumption|apply N.eqb_refl].
Qed.

Lemma urlparse_raises : forall url e,
    urlparse url = Raised e -> exists detail, e = ValueError detail.
Proof.
  intros url e. unfold urlparse.
  destruct (match break (is_one_of (u ":")) url with
            | (c0 :: pre, _ :: rest) =>
              if alpha c0 && forallb scheme_char pre
              then (lower (c0 :: pre), rest) else ([], url)
            | _ => ([], url)
            end) as [sch url1].
  destruct (if Str.startswith (u "//") url1
            then break (is_one_of (u "/?#")) (skipn 2 url1)
            else ([], url1)) as [nl url2].
  destruct (xorb (existsb (N.eqb 91) nl) (existsb (N.eqb 93) nl)).
  - intros H. inversion H. eexists. reflexivity.
  - destruct (break (is_one_of (u "#")) url2) as [url3 frag].
    destruct (break (is_one_of (u "?")) url3) as [url4 qry].
    destruct (break (is_one_of (u "/")) (rev url4)) as [lst dirs].
    destruct (break (is_one_of (u ";")) (rev lst)) as [lst' prm].
    discriminate.
Qed.

Lemma urljoin_raises : forall base url e,
    urljoin base url = Raised e -> exists detail, e = ValueError detail.
Proof.
  intros base url e. unfold urljoin, and_then.
  destruct (urlparse base) as [b|e1] eqn:Eb;
    [|intros H; inversion H; subst; eapply urlparse_raises; exact Eb].
  destruct (urlparse url) as [r|e2] eqn:Er;
    [|intros H; inversion H; subst; eapply urlparse_raises; exact Er].
  destruct (Str.truthy (scheme r) && Str.truthy (netloc r)); [discriminate|].
  destruct (Str.startswith (u "/") url); [discriminate|].
  destruct (break (is_one_of (u "/")) (rev (path b))). discriminate.
Qed.

Lemma netloc_delimited : forall url parsed c,
    urlparse url = Returned parsed ->
    In c (netloc parsed) -> c <> 47%N /\ c <> 63%N /\ c <> 35%N.
Proof.
  intros url parsed c. unfold urlparse.
  destruct (match break (is_one_of (u ":")) url with
            | (c0 :: pre, _ :: rest) =>
              if alpha c0 && forallb scheme_char pre
              then (lower (c0 :: pre), rest) else ([], url)
            | _ => ([], url)
            end) as [sch url1].
  destruct (if Str.startswith (u "//") url1
            then break (is_one_of (u "/?#")) (skipn 2 url1)
            else ([], url1)) as [nl url2] eqn:Hnl.
  destruct (xorb (existsb (N.eqb 91) nl) (existsb (N.eqb 93) nl)); [discriminate|].
  destruct (break (is_one_of (u "#")) url2) as [url3 frag].
  destruct (break (is_one_of (u "?")) url3) as [url4 qry].
  destruct (break (is_one_of (u "/")) (rev url4)) as [lst dirs].
  destruct (break (is_one_of (u ";")) (rev lst)) as [lst' prm].
  intros Hp Hin. inversion Hp; subst parsed; clear Hp. simpl in Hin.
  destruct (Str.startswith (u "//") url1).
  - pose proof (break_stops _ _ c Hnl Hin) as Hc.
    repeat split; apply (is_one_of_false _ Hc); simpl; auto.
  - inversion Hnl; subst. contradiction.
Qed.

Lemma path_delimited : forall url parsed c,
    urlparse url = Returned parsed ->
    In c (path parsed) -> c <> 63%N /\ c <> 35%N.
Proof.
  intros url parsed c. unfold urlparse.
  destruct (match break (is_one_of (u ":")) url with
            | (c0 :: pre, _ :: rest) =>
              if alpha c0 && forallb scheme_char pre
              then (lower (c0 :: pre), rest) else ([], url)
            | _ => ([], url)
            end) as [sch url1].
  destruct (if Str.startswith (u "//") url1
            then break (is_one_of (u "/?#")) (skipn 2 url1)
            else ([], url1)) as [nl url2].
  destruct (xorb (existsb (N.eqb 91) nl) (existsb (N.eqb 93) nl)); [discriminate|].
  destruct (break (is_one_of (u "#")) url2) as [url3 frag] eqn:H3.
  destruct (break (is_one_of (u "?")) url3) as [url4 qry] eqn:H4.
  destruct (break (is_one_of (u "/")) (rev url4)) as [lst dirs] eqn:H5.
  destruct (break (is_one_of (u ";")) (rev lst)) as [lst' prm] eqn:H6.
  intros Hp Hin. inversion Hp; subst parsed; clear Hp. simpl in Hin.
  assert (Hin4 : In c url4).
  { apply in_rev. rewrite (break_append _ _ H5). apply in_or_app.
    apply in_app_or in Hin. destruct Hin as [Hin|Hin].
    - right. apply in_rev. exact Hin.
    - left. apply in_rev. rewrite (break_append _ _ H6).
      apply in_or_app. left. exact Hin. }
  split.
  - apply (is_one_of_false _ (break_stops _ _ c H4 Hin4)). simpl. auto.
  - assert (Hin3 : In c url3).
    { rewrite (break_append _ _ H4). apply in_or_app. left. exact Hin4. }
    apply (is_one_of_false _ (break_stops _ _ c H3 Hin3)). simpl. auto.
Qed.

Definition lib : PyLib :=
  Build_PyLib lower unescape decimal urljoin urlparse int_max_str_digits
              lower_no_capital unescape_plain decimal_ascii decimal_below_ten
              decimal_ascii_only decimal_not_space urljoin_raises urlparse_raises
              netloc_delimited path_delimited.

End Reference.

(** ** Strings *)

Lemma str_eqb_eq : forall a b, Str.eqb a b = true <-> a = b.
Proof.
  induction a as [|x a IH]; destruct b as [|y b]; simpl; split; intros H;
    try reflexivity; try discriminate.
  - apply andb_true_iff in H. destruct H as [Hx Hab].
    apply N.eqb_eq in Hx. apply IH in Hab. subst. reflexivity.
  - inversion H; subst. rewrite N.eqb_refl. simpl. apply IH. reflexivity.
Qed.

Lemma str_eqb_refl : forall a, Str.eqb a a = true.
Proof. intros a. apply str_eqb_eq. reflexivity. Qed.

Lemma str_eqb_neq : forall a b, Str.eqb a b = false <-> a <> b.
Proof.
  intros a b. split.
  - intros H Heq. apply str_eqb_eq in Heq. congruence.
  - intros H. destruct (Str.eqb a b) eqn:E; [|reflexivity].
    apply str_eqb_eq in E. contradiction.
Qed.

Lemma str_eqb_sym : forall a b, Str.eqb a b = Str.eqb b a.
Proof.
  intros a b. destruct (Str.eqb a b) eqn:E.
  - apply str_eqb_eq in E. subst. symmetry. apply str_eqb_refl.
  - symmetry. apply str_eqb_neq. apply str_eqb_neq in E. congruence.
Qed.

(** ** The merger *)

Module DedupFacts.
Import Dedup.

Lemma deduplicate_fold : forall entries,
    _deduplicate entries = Py.values (fold_left step entries []).
Proof. reflexivity. Qed.

Lemma get_none_keys : forall (d : list (str * MKBEntry)) k,
    Py.get d k = None <-> ~ In k (keys d).
Proof.
  induction d as [|[k' v] d IH]; simpl; intros k.
  - split; [intros _ H; exact H | reflexivity].
  - destruct (Str.eqb k' k) eqn:E.
    + apply str_eqb_eq in E. subst. split; [discriminate|].
      intros H. exfalso. apply H. left. reflexivity.
    + apply str_eqb_neq in E. rewrite IH. split.
      * intros H [Hk|Hk]; [congruence|contradiction].
      * intros H Hk. apply H. right. exact Hk.
Qed.

Lemma keys_set_new : forall (d : list (str * MKBEntry)) k v,
    Py.get d k = None -> keys (Py.set d k v) = keys d ++ [k].
Proof.
  induction d as [|[k' v'] d IH]; simpl; intros k v H; [reflexivity|].
  destruct (Str.eqb k' k); [discriminate|]. simpl. f_equal. apply IH. exact H.
Qed.

Lemma keys_set_old : forall (d : list (str * MKBEntry)) k v v0,
    Py.get d k = Some v0 -> keys (Py.set d k v) = keys d.
Proof.
  induction d as [|[k' v'] d IH]; simpl; intros k v v0 H; [discriminate|].
  destruct (Str.eqb k' k); [reflexivity|]. simpl. f_equal. eapply IH. exact H.
Qed.

Lemma get_set_same : forall (d : list (str * MKBEntry)) k v,
    Py.get (Py.set d k v) k = Some v.
Proof.
  induction d as [|[k' v'] d IH]; simpl; intros k v.
  - rewrite str_eqb_refl. reflexivity.
  - destruct (Str.eqb k' k) eqn:E; simpl; rewrite E; [reflexivity|apply IH].
Qed.

Lemma get_set_other : forall (d : list (str * MKBEntry)) k k0 v,
    k <> k0 -> Py.get (Py.set d k v) k0 = Py.get d k0.
Proof.
  induction d as [|[k' v'] d IH]; simpl; intros k k0 v H.
  - apply str_eqb_neq in H. rewrite H. reflexivity.
  - destruct (Str.eqb k' k) eqn:E; simpl.
    + apply str_eqb_eq in E. subst k'. apply str_eqb_neq in H. rewrite H. reflexivity.
    + destruct (Str.eqb k' k0); [reflexivity|]. apply IH. exact H.
Qed.

Lemma filter_filter : forall (A : Type) (p q : A -> bool) l,
    filter p (filter q l) = filter (fun x => q x && p x) l.
Proof.
  induction l as [|x l IH]; simpl; [reflexivity|].
  destruct (q x); simpl; [destruct (p x)|]; rewrite IH; reflexivity.
Qed.

Lemma filter_id : forall (A : Type) (p : A -> bool) l,
    (forall x, p x = true) -> filter p l = l.
Proof.
  intros A p l H. induction l as [|x l IH]; simpl; [reflexivity|].
  rewrite H, IH. reflexivity.
Qed.

Lemma in_keys_existsb : forall (K : list str) x,
    existsb (Str.eqb x) K = true <-> In x K.
Proof.
  intros K x. rewrite existsb_exists. split.
  - intros [y [Hin Hy]]. apply str_eqb_eq in Hy. subst. exact Hin.
  - intros H. exists x. split; [exact H|apply str_eqb_refl].
Qed.

Lemma step_keys_old : forall seen e,
    In (code e) (keys seen) -> keys (step seen e) = keys seen.
Proof.
  intros seen e H. unfold step.
  destruct (Py.get seen (code e)) as [ex|] eqn:G.
  - eapply keys_set_old. exact G.
  - apply get_none_keys in G. contradiction.
Qed.

Lemma step_keys_new : forall seen e,
    ~ In (code e) (keys seen) -> keys (step seen e) = keys seen ++ [code e].
Proof.
  intros seen e H. unfold step. apply get_none_keys in H. rewrite H.
  apply keys_set_new. exact H.
Qed.

Lemma fold_keys : forall entries seen,
    keys (fold_left step entries seen)
    = keys seen
      ++ filter (fun c => negb (existsb (Str.eqb c) (keys seen)))
                (firsts (map code entries)).
Proof.
  induction entries as [|e es IH]; intros seen; simpl.
  - rewrite app_nil_r. reflexivity.
  - rewrite IH. destruct (existsb (Str.eqb (code e)) (keys seen)) eqn:E; simpl.
    + apply in_keys_existsb in E. rewrite (step_keys_old _ _ E). f_equal.
      rewrite filter_filter. apply filter_ext. intros x.
      destruct (existsb (Str.eqb x) (keys seen)) eqn:Ex; simpl.
      * symmetry. apply andb_false_r.
      * rewrite andb_true_r. symmetry. apply negb_true_iff. apply str_eqb_neq.
        intros Heq. subst x. apply in_keys_existsb in E. congruence.
    + assert (Hn : ~ In (code e) (keys seen)).
      { intros Hin. apply in_keys_existsb in Hin. congruence. }
      rewrite (step_keys_new _ _ Hn). rewrite <- app_assoc. simpl. do 2 f_equal.
      rewrite filter_filter. apply filter_ext. intros x.
      rewrite existsb_app. simpl. rewrite orb_false_r. rewrite negb_orb.
      rewrite (str_eqb_sym x (code e)). apply andb_comm.
Qed.

Lemma fold_get : forall entries seen k,
    Py.get (fold_left step entries seen) k
    = fold_left merge_onto (occurrences k entries) (Py.get seen k).
Proof.
  induction entries as [|e es IH]; intros seen k; simpl; [reflexivity|].
  rewrite IH. destruct (Str.eqb (code e) k) eqn:E; simpl.
  - apply str_eqb_eq in E. subst k. f_equal. unfold step, merge_onto.
    destruct (Py.get seen (code e)); apply get_set_same.
  - apply str_eqb_neq in E. f_equal. unfold step.
    destruct (Py.get seen (code e)); apply get_set_other; exact E.
Qed.

Lemma last_cons : forall (A : Type) (x d : A) l, last (x :: l) d = last l x.
Proof.
  intros A x d l. revert x d. induction l as [|y l IH]; intros x d; [reflexivity|].
  change (last (x :: y :: l) d) with (last (y :: l) d). rewrite IH.
  symmetry. apply IH.
Qed.

Lemma str_or_nil : forall s, Str.or s [] = s.
Proof. intros [|c s]; reflexivity. Qed.

(** A field of the merged record is the last non-empty value among the
    occurrences, for any projection that [merge_onto] combines with [or]. *)
Lemma fold_field : forall (f : MKBEntry -> str),
    (forall o e r, merge_onto o e = Some r ->
                   f r = Str.or (f e) (match o with Some a => f a | None => [] end)) ->
    forall l o r,
      fold_left merge_onto l o = Some r ->
      f r = last (filter Str.truthy (map f l)) (match o with Some a => f a | None => [] end).
Proof.
  intros f Hf. induction l as [|e l IH]; intros o r H; simpl in *.
  - subst o. reflexivity.
  - destruct (merge_onto o e) as [m|] eqn:Hm; [|discriminate].
    rewrite (IH _ _ H). rewrite (Hf _ _ _ Hm).
    unfold Str.or. destruct (Str.truthy (f e)).
    + rewrite last_cons. reflexivity.
    + reflexivity.
Qed.

Lemma fold_code : forall k l o r,
    fold_left merge_onto l o = Some r ->
    Forall (fun e => code e = k) l ->
    (forall a, o = Some a -> code a = k) ->
    code r = k.
Proof.
  induction l as [|e l IH]; intros o r H Hl Ho; simpl in *.
  - apply Ho. exact H.
  - inversion Hl; subst. eapply IH; [exact H|assumption|].
    intros a Ha. unfold merge_onto in Ha. inversion Ha. destruct o; reflexivity.
Qed.

Lemma firsts_in : forall l x, In x (firsts l) -> In x l.
Proof.
  induction l as [|c l IH]; simpl; intros x H; [exact H|].
  destruct H as [H|H]; [left; exact H|]. apply filter_In in H. right. apply IH. apply H.
Qed.

Lemma firsts_nodup : forall l, NoDup (firsts l).
Proof.
  induction l as [|c l IH]; simpl; constructor.
  - intros H. apply filter_In in H. destruct H as [_ H].
    rewrite str_eqb_refl in H. discriminate.
  - apply NoDup_filter. exact IH.
Qed.

Lemma get_in_nodup : forall (d : list (str * MKBEntry)) k v,
    NoDup (keys d) -> In (k, v) d -> Py.get d k = Some v.
Proof.
  induction d as [|[k' v'] d IH]; simpl; intros k v Hn Hin; [contradiction|].
  inversion Hn; subst. destruct Hin as [Hin|Hin].
  - inversion Hin; subst. rewrite str_eqb_refl. reflexivity.
  - destruct (Str.eqb k' k) eqn:E.
    + apply str_eqb_eq in E. subst k'. exfalso. apply H1.
      apply in_map_iff. exists (k, v). split; [reflexivity|exact Hin].
    + apply IH; assumption.
Qed.

Lemma occurrences_code : forall k entries,
    Forall (fun e => code e = k) (occurrences k entries).
Proof.
  intros k entries. apply Forall_forall. intros e H. apply filter_In in H.
  apply str_eqb_eq. apply H.
Qed.

(** What [_deduplicate] builds, entry by entry. *)
Lemma deduplicate_records : forall entries k r,
    In (k, r) (fold_left step entries []) ->
    code r = k
    /\ serbian r = last_nonempty (map serbian (occurrences k entries))
    /\ latin r = last_nonempty (map latin (occurrences k entries)).
Proof.
  intros entries k r Hin.
  assert (Hk : keys (fold_left step entries []) = firsts (map code entries)).
  { rewrite fold_keys. simpl. apply filter_id. reflexivity. }
  assert (Hg : Py.get (fold_left step entries []) k = Some r).
  { apply get_in_nodup; [rewrite Hk; apply firsts_nodup|exact Hin]. }
  rewrite fold_get in Hg. simpl in Hg. split; [|split].
  - eapply fold_code; [exact Hg|apply occurrences_code|discriminate].
  - apply (fold_field serbian) with (o := None); [|exact Hg].
    intros o e r' H. inversion H. destruct o; simpl; [reflexivity|].
    symmetry. apply str_or_nil.
  - apply (fold_field latin) with (o := None); [|exact Hg].
    intros o e r' H. inversion H. destruct o; simpl; [reflexivity|].
    symmetry. apply str_or_nil.
Qed.

End DedupFacts.

(** C1, as amended. For every input sequence the output of [_deduplicate]
    holds one record per distinct code, in the order in which the codes first
    occur; the record's primary (serbian) field is the last non-empty primary
    description among the occurrences of its code, the empty string when
    every occurrence is blank, and likewise for the secondary (latin) field:
    a later non-empty value replaces the value seen earlier, and a later
    blank leaves it. Merging (A00, Kolera, blank) then (A00, blank, Cholera) gives
    (A00, Kolera, Cholera). *)
Theorem C1_deduplicate_later_value_wins : forall entries,
    map code (_deduplicate entries) = Dedup.firsts (map code entries)
    /\ (forall r, In r (_deduplicate entries) ->
          serbian r
          = Dedup.last_nonempty (map serbian (Dedup.occurrences (code r) entries))
          /\ latin r
             = Dedup.last_nonempty (map latin (Dedup.occurrences (code r) entries)))
    /\ _deduplicate [kolera; cholera]
       = [{| code := u "A00"; serbian := u "Kolera"; latin := u "Cholera" |}].
Proof.
  intros entries. rewrite DedupFacts.deduplicate_fold. unfold Py.values.
  split; [|split].
  - assert (Hk : Dedup.keys (fold_left Dedup.step entries [])
                 = Dedup.firsts (map code entries)).
    { rewrite DedupFacts.fold_keys. simpl. apply DedupFacts.filter_id. reflexivity. }
    rewrite <- Hk. unfold Dedup.keys. rewrite map_map. apply map_ext_in.
    intros [k r] Hin. simpl.
    apply (DedupFacts.deduplicate_records entries k r Hin).
  - intros r Hin. apply in_map_iff in Hin. destruct Hin as [[k r'] [Heq Hin]].
    simpl in Heq. subst r'.
    destruct (DedupFacts.deduplicate_records entries k r Hin) as [Hc [Hs Hl]].
    rewrite Hc. split; assumption.
  - reflexivity.
Qed.

(** C1, as stated, fails: the first occurrence (A00, Kolera, blank) is followed
    by (A00, Azijska kolera, Cholera), and the record that comes out carries
    the later primary description; under the first-seen policy of the
    specification it would carry "Kolera". *)
Lemma C1_first_seen_value_overwritten :
  _deduplicate [kolera; azijska_kolera]
  = [{| code := u "A00"; serbian := u "Azijska kolera"; latin := u "Cholera" |}]
  /\ Dedup.deduplicate_first_wins [kolera; azijska_kolera]
     = [{| code := u "A00"; serbian := u "Kolera"; latin := u "Cholera" |}].
Proof. split; reflexivity. Qed.

(** ** The matcher *)

Section MatcherFacts.
Variable R : Type.

Lemma star_loop_sound : forall (a : Re.t) (body : nat -> str -> Re.groups -> Re.cont R -> option R),
    (forall i s g k x, body i s g k = Some x ->
       exists i' s' g', matches a (i, s) (i', s') /\ k i' s' g' = Some x) ->
    forall (k : Re.cont R) n i s g x,
      Re.star_loop body k n i s g = Some x ->
      exists i' s' g', matches (Re.Star a) (i, s) (i', s') /\ k i' s' g' = Some x.
Proof.
  intros a body Hbody k. induction n as [|n IH]; intros i s g x H; simpl in H.
  - exists i, s, g. split; [constructor|exact H].
  - destruct (body i s g
                (fun i' s' g' =>
                   if length s' <? length s then Re.star_loop body k n i' s' g' else None))
      as [y|] eqn:Hb.
    + inversion H; subst y. apply Hbody in Hb.
      destruct Hb as [i1 [s1 [g1 [Hm Hk]]]].
      destruct (length s1 <? length s); [|discriminate].
      apply IH in Hk. destruct Hk as [i2 [s2 [g2 [Hm2 Hk2]]]].
      exists i2, s2, g2. split; [|exact Hk2]. eapply m_star_cons; eassumption.
    + exists i, s, g. split; [constructor|exact H].
Qed.

(** Soundness: a match the matcher finds is a match of the pattern. *)
Lemma exec_sound : forall r i s g (k : Re.cont R) x,
    Re.exec r i s g k = Some x ->
    exists i' s' g', matches r (i, s) (i', s') /\ k i' s' g' = Some x.
Proof.
  induction r as [|p|a IHa b IHb|a IHa b IHb|a IHa|n a IHa| |];
    intros i s g k x H; simpl in H.
  - exists i, s, g. split; [constructor|exact H].
  - destruct s as [|c s]; [discriminate|]. destruct (p c) eqn:Hp; [|discriminate].
    exists (S i), s, g. split; [constructor; exact Hp|exact H].
  - apply IHa in H. destruct H as [i1 [s1 [g1 [Hm1 H]]]].
    apply IHb in H. destruct H as [i2 [s2 [g2 [Hm2 H]]]].
    exists i2, s2, g2. split; [|exact H]. eapply m_cat; eassumption.
  - destruct (Re.exec a i s g k) as [y|] eqn:Ha.
    + inversion H; subst y. apply IHa in Ha. destruct Ha as [i1 [s1 [g1 [Hm Hk]]]].
      exists i1, s1, g1. split; [apply m_alt_l; exact Hm|exact Hk].
    + apply IHb in H. destruct H as [i1 [s1 [g1 [Hm Hk]]]].
      exists i1, s1, g1. split; [apply m_alt_r; exact Hm|exact Hk].
  - eapply star_loop_sound; [|exact H]. intros i0 s0 g0 k0 x0 H0. exact (IHa _ _ _ _ _ H0).
  - apply IHa in H. destruct H as [i1 [s1 [g1 [Hm Hk]]]].
    exists i1, s1, ((n, firstn (i1 - i) s) :: g1). split; [constructor; exact Hm|exact Hk].
  - destruct i; [|discriminate]. exists 0, s, g. split; [constructor|exact H].
  - destruct s as [|c [|c' s]]; try discriminate.
    + exists i, [], g. split; [constructor|exact H].
    + destruct (c =? 10)%N eqn:Hc; [|discriminate]. apply N.eqb_eq in Hc. subst c.
      exists i, [10%N], g. split; [constructor|exact H].
Qed.

(** The loop of [p*] on a class is the greedy run. *)
Lemma star_cls_greedy : forall p (k : Re.cont R) s n i g,
    length s <= n ->
    Re.star_loop (Re.exec (Re.Cls p)) k n i s g = greedy p k i s g.
Proof.
  intros p k. induction s as [|c s IH]; intros n i g Hn.
  - destruct n; reflexivity.
  - destruct n as [|n]; [simpl in Hn; lia|]. simpl.
    destruct (p c); [|reflexivity].
    assert (Hlt : (length s <? S (length s)) = true) by (apply Nat.ltb_lt; lia).
    simpl in Hlt. rewrite Hlt. rewrite IH by (simpl in Hn; lia). reflexivity.
Qed.

Lemma exec_star_cls : forall p i s g (k : Re.cont R),
    Re.exec (Re.Star (Re.Cls p)) i s g k = greedy p k i s g.
Proof. intros. simpl. apply star_cls_greedy. apply Nat.le_refl. Qed.

Lemma exec_cat : forall a b i s g (k : Re.cont R),
    Re.exec (Re.Cat a b) i s g k
    = Re.exec a i s g (fun i' s' g' => Re.exec b i' s' g' k).
Proof. reflexivity. Qed.

Lemma exec_alt : forall a b i s g (k : Re.cont R),
    Re.exec (Re.Alt a b) i s g k
    = match Re.exec a i s g k with Some x => Some x | None => Re.exec b i s g k end.
Proof. reflexivity. Qed.

Lemma exec_cls_cons : forall p i c s g (k : Re.cont R),
    Re.exec (Re.Cls p) i (c :: s) g k = if p c then k (S i) s g else None.
Proof. reflexivity. Qed.

Lemma exec_cls_nil : forall p i g (k : Re.cont R),
    Re.exec (Re.Cls p) i [] g k = None.
Proof. reflexivity. Qed.

Lemma exec_atleast_succ : forall n a i s g (k : Re.cont R),
    Re.exec (Re.AtLeast (S n) a) i s g k
    = Re.exec a i s g (fun i' s' g' => Re.exec (Re.AtLeast n a) i' s' g' k).
Proof. reflexivity. Qed.

Lemma exec_atleast_zero_cls : forall p i s g (k : Re.cont R),
    Re.exec (Re.AtLeast 0 (Re.Cls p)) i s g k = greedy p k i s g.
Proof. intros. apply exec_star_cls. Qed.

(** A run of the class that ends where the class stops: when the
    continuation accepts there, that is the match. *)
Lemma greedy_run : forall p (k : Re.cont R) w v i g x,
    forallb p w = true -> stops p v ->
    k (i + length w) v g = Some x ->
    greedy p k i (w ++ v) g = Some x.
Proof.
  intros p k. induction w as [|c w IH]; intros v i g x Hw Hv Hk; simpl in *.
  - rewrite Nat.add_0_r in Hk. destruct v as [|c v]; simpl; [exact Hk|].
    simpl in Hv. rewrite Hv. exact Hk.
  - apply andb_true_iff in Hw. destruct Hw as [Hc Hw]. rewrite Hc.
    rewrite (IH v (S i) g x Hw Hv); [reflexivity|].
    rewrite <- Hk. f_equal. lia.
Qed.

(** When the continuation refuses every way of cutting the run, the greedy
    run fails. *)
Lemma greedy_none : forall p (k : Re.cont R) w v i g,
    forallb p w = true -> stops p v ->
    (forall w1 w2, w = w1 ++ w2 -> k (i + length w1) (w2 ++ v) g = None) ->
    greedy p k i (w ++ v) g = None.
Proof.
  intros p k. induction w as [|c w IH]; intros v i g Hw Hv Hk; simpl in *.
  - specialize (Hk [] [] eq_refl). simpl in Hk. rewrite Nat.add_0_r in Hk.
    destruct v as [|c v]; simpl; [exact Hk|]. simpl in Hv. rewrite Hv. exact Hk.
  - apply andb_true_iff in Hw. destruct Hw as [Hc Hw]. rewrite Hc.
    rewrite (IH v (S i) g Hw Hv).
    + specialize (Hk [] (c :: w) eq_refl). simpl in Hk. rewrite Nat.add_0_r in Hk.
      exact Hk.
    + intros w1 w2 E. specialize (Hk (c :: w1) w2). simpl in Hk.
      rewrite <- Hk by (f_equal; exact E). f_equal. lia.
Qed.

End MatcherFacts.

(** *** Repetitions of a class *)

Lemma matches_cls_inv : forall p i s i' s',
    matches (Re.Cls p) (i, s) (i', s') ->
    exists c, s = c :: s' /\ p c = true /\ i' = S i.
Proof.
  intros p i s i' s' H. inversion H; subst. exists c. auto.
Qed.

Lemma matches_star_cls : forall p st st',
    matches (Re.Star (Re.Cls p)) st st' ->
    exists w, snd st = w ++ snd st' /\ forallb p w = true
              /\ fst st' = fst st + length w.
Proof.
  intros p st st' H. remember (Re.Star (Re.Cls p)) as r eqn:Hr.
  induction H; try discriminate.
  - exists []. simpl. auto.
  - inversion Hr; subst a. clear IHmatches1.
    destruct (IHmatches2 eq_refl) as [w [Hs [Hw Hi]]].
    destruct st1 as [i1 s1]. destruct st2 as [i2 s2].
    apply matches_cls_inv in H. destruct H as [c [Hc [Hp Hi2]]].
    exists (c :: w). simpl in *. subst. rewrite Hp, Hw, Hi. repeat split. lia.
Qed.

Lemma matches_upto_cls : forall p m i s i' s',
    matches (Re.Upto m (Re.Cls p)) (i, s) (i', s') ->
    exists w, s = w ++ s' /\ length w <= m /\ forallb p w = true /\ i' = i + length w.
Proof.
  intros p. induction m as [|m IH]; intros i s i' s' H; simpl in H.
  - inversion H; subst. exists []. simpl. auto.
  - inversion H as [| | |a b st1 st2 Hl| a b st1 st2 Hr| | | | | |]; subst.
    + inversion Hl as [| |a b st1 [i2 s2] st3 H1 H2| | | | | | | |]; subst.
      apply matches_cls_inv in H1. destruct H1 as [c [Hc [Hp Hi]]].
      apply IH in H2. destruct H2 as [w [Hs [Hlen [Hw Hi']]]].
      exists (c :: w). simpl. subst. rewrite Hp, Hw. repeat split; lia.
    + inversion Hr; subst. exists []. simpl. repeat split; lia.
Qed.

Lemma matches_rep_cls : forall p n m i s i' s',
    matches (Re.Rep n m (Re.Cls p)) (i, s) (i', s') ->
    exists w, s = w ++ s' /\ n <= length w <= Nat.max n m
              /\ forallb p w = true /\ i' = i + length w.
Proof.
  intros p. induction n as [|n IH]; intros m i s i' s' H; simpl in H.
  - apply matches_upto_cls in H. destruct H as [w [Hs [Hlen [Hw Hi]]]].
    exists w. simpl. repeat split; auto; lia.
  - inversion H as [| |a b st1 [i2 s2] st3 H1 H2| | | | | | | |]; subst.
    apply matches_cls_inv in H1. destruct H1 as [c [Hc [Hp Hi]]].
    apply IH in H2. destruct H2 as [w [Hs [Hlen [Hw Hi']]]].
    exists (c :: w). subst. simpl forallb. rewrite Hp, Hw.
    destruct m; simpl in *; repeat split; lia.
Qed.

Lemma matches_plus_cls : forall p i s i' s',
    matches (Re.Plus (Re.Cls p)) (i, s) (i', s') ->
    exists w, s = w ++ s' /\ w <> [] /\ forallb p w = true /\ i' = i + length w.
Proof.
  intros p i s i' s' H. unfold Re.Plus in H.
  inversion H as [| |a b st1 [i2 s2] st3 H1 H2| | | | | | | |]; subst.
  apply matches_cls_inv in H1. destruct H1 as [c [Hc [Hp Hi]]].
  apply matches_star_cls in H2. simpl in H2. destruct H2 as [w [Hs [Hw Hi']]].
  exists (c :: w). simpl. subst. rewrite Hp, Hw. repeat split; [discriminate|lia].
Qed.

Section RunFacts.
Variable R : Type.

Lemma exec_upto_run : forall p (k : Re.cont R) m w v i g x,
    forallb p w = true -> length w <= m -> (length w = m \/ stops p v) ->
    k (i + length w) v g = Some x ->
    Re.exec (Re.Upto m (Re.Cls p)) i (w ++ v) g k = Some x.
Proof.
  intros p k. induction m as [|m IH]; intros w v i g x Hw Hlen Hend Hk.
  - destruct w; [|simpl in Hlen; lia]. simpl in *. rewrite Nat.add_0_r in Hk. exact Hk.
  - destruct w as [|c w]; simpl in *.
    + rewrite Nat.add_0_r in Hk. destruct Hend as [Hend|Hend]; [discriminate|].
      destruct v as [|c v]; simpl in *; [exact Hk|]. rewrite Hend. exact Hk.
    + apply andb_true_iff in Hw. destruct Hw as [Hc Hw]. rewrite Hc.
      rewrite (IH w v (S i) g x Hw); [reflexivity|lia| |].
      * destruct Hend as [Hend|Hend]; [left; lia|right; exact Hend].
      * rewrite <- Hk. f_equal. lia.
Qed.

Lemma exec_rep_run : forall p (k : Re.cont R) n m w v i g x,
    forallb p w = true -> n <= length w <= Nat.max n m ->
    (length w = Nat.max n m \/ stops p v) ->
    k (i + length w) v g = Some x ->
    Re.exec (Re.Rep n m (Re.Cls p)) i (w ++ v) g k = Some x.
Proof.
  intros p k. induction n as [|n IH]; intros m w v i g x Hw Hlen Hend Hk; simpl.
  - apply exec_upto_run; auto; simpl in *; lia.
  - destruct w as [|c w]; [simpl in Hlen; lia|]. simpl in *.
    apply andb_true_iff in Hw. destruct Hw as [Hc Hw]. rewrite Hc.
    apply IH; auto.
    + destruct m; simpl in *; lia.
    + destruct Hend as [Hend|Hend]; [left; destruct m; simpl in *; lia|right; exact Hend].
    + rewrite <- Hk. f_equal. lia.
Qed.

Lemma exec_atleast_run : forall p (k : Re.cont R) n w v i g x,
    forallb p w = true -> n <= length w -> stops p v ->
    k (i + length w) v g = Some x ->
    Re.exec (Re.AtLeast n (Re.Cls p)) i (w ++ v) g k = Some x.
Proof.
  intros p k. induction n as [|n IH]; intros w v i g x Hw Hlen Hend Hk.
  - change (Re.AtLeast 0 (Re.Cls p)) with (Re.Star (Re.Cls p)).
    rewrite exec_star_cls. apply greedy_run; assumption.
  - destruct w as [|c w]; [simpl in Hlen; lia|]. simpl in *.
    apply andb_true_iff in Hw. destruct Hw as [Hc Hw]. rewrite Hc.
    apply IH; auto; [lia|]. rewrite <- Hk. f_equal. lia.
Qed.

Lemma exec_plus_run : forall p (k : Re.cont R) w v i g x,
    forallb p w = true -> w <> [] -> stops p v ->
    k (i + length w) v g = Some x ->
    Re.exec (Re.Plus (Re.Cls p)) i (w ++ v) g k = Some x.
Proof.
  intros p k w v i g x Hw Hne Hend Hk.
  change (Re.Plus (Re.Cls p)) with (Re.AtLeast 1 (Re.Cls p)).
  apply exec_atleast_run; auto.
  destruct w; [congruence|simpl; lia].
Qed.

Lemma firstn_run : forall (w v : str) i, firstn (i + length w - i) (w ++ v) = w.
Proof.
  intros w v i. replace (i + length w - i) with (length w + 0) by lia.
  rewrite firstn_app_2. simpl. apply app_nil_r.
Qed.

End RunFacts.

(** ** The code pattern *)

Section ClassFacts.
Variable L : PyLib.

Lemma cls_d_ascii : forall c, (c < 128)%N -> cls_d L c = true -> (48 <= c <= 57)%N.
Proof.
  unfold cls_d. intros c Hc H. apply (decimal_ascii_only L); [exact Hc|].
  destruct (decimal L c); [discriminate|discriminate H].
Qed.

Lemma digit09_cls_d : forall c, Re.digit09 c = true -> cls_d L c = true.
Proof.
  unfold Re.digit09, cls_d. intros c H. bprop.
  rewrite (decimal_ascii L) by lia. reflexivity.
Qed.

Lemma cls_d_not_upper : forall c, cls_d L c = true -> Re.upper c = false.
Proof.
  intros c H. destruct (Re.upper c) eqn:E; [|reflexivity].
  unfold Re.upper in E. bprop. pose proof (@cls_d_ascii c) as Hd.
  assert (48 <= c <= 57)%N by (apply Hd; [lia|exact H]). lia.
Qed.

Lemma cls_d_not_dot : forall c, cls_d L c = true -> Re.lit "." c = false.
Proof.
  intros c H. destruct (Re.lit "." c) eqn:E; [|reflexivity].
  unfold Re.lit in E. apply N.eqb_eq in E. subst c.
  pose proof (@cls_d_ascii (chr ".")) as Hd.
  assert (48 <= chr "." <= 57)%N by (apply Hd; [reflexivity|exact H]).
  vm_compute in H0. destruct H0 as [H0 _]. exfalso. apply H0. reflexivity.
Qed.

Lemma space_not_cls_d : forall c, Re.space c = true -> cls_d L c = false.
Proof.
  unfold Re.space, cls_d. intros c H. rewrite (decimal_not_space L c H). reflexivity.
Qed.

Lemma space_not_upper : forall c, Re.space c = true -> Re.upper c = false.
Proof.
  unfold Re.space, Str.isspace, Re.upper. intros c H.
  apply not_true_is_false. intros E. bprop; lia.
Qed.

Lemma space_not_09AZ : forall c, Re.space c = true -> cls_09AZ c = false.
Proof.
  unfold Re.space, Str.isspace, cls_09AZ, Re.digit09, Re.upper. intros c H.
  apply not_true_is_false. intros E. bprop; lia.
Qed.

Lemma space_not_dot : forall c, Re.space c = true -> Re.lit "." c = false.
Proof.
  unfold Re.space, Str.isspace, Re.lit. intros c H.
  apply not_true_is_false. intros E. apply N.eqb_eq in E. subst c. discriminate H.
Qed.

End ClassFacts.

Section CodeFacts.
Variable L : PyLib.

(** On a code token followed by whitespace or by nothing the pattern takes
    exactly the token, whatever comes next. *)
Lemma exec_code_run : forall (R : Type) (k : Re.cont R) c v i g x,
    code_shape L c -> code_end v ->
    k (i + length c) v g = Some x ->
    Re.exec (CODE_RE L) i (c ++ v) g k = Some x.
Proof.
  intros R k c v i g x (letters & digits & suffix & Hc & Hl & Hup & Hd & Hdig & Hsuf) Hv Hk.
  subst c. rewrite <- !app_assoc. unfold CODE_RE.
  change (Re.exec (Re.Cat ?a ?b) ?i ?s ?g ?k)
    with (Re.exec a i s g (fun i' s' g' => Re.exec b i' s' g' k)).
  apply exec_rep_run; [exact Hup|simpl; lia| |].
  { right. destruct digits as [|d1 ds]; [discriminate Hd|]. simpl in *.
    apply andb_true_iff in Hdig. apply cls_d_not_upper with (L := L). apply Hdig. }
  change (Re.exec (Re.Cat ?a ?b) ?i ?s ?g ?k)
    with (Re.exec a i s g (fun i' s' g' => Re.exec b i' s' g' k)).
  apply exec_rep_run; [exact Hdig|simpl; lia|left; simpl; lia|].
  assert (Hk' : k (i + length letters + length digits + length suffix) v g = Some x).
  { rewrite <- Hk. f_equal. rewrite !length_app. lia. }
  clear Hk. destruct Hsuf as [Hs|(tail & Hs & Hlen & Htail)]; subst suffix.
  - simpl in *. rewrite Nat.add_0_r in Hk'.
    destruct v as [|sp v]; simpl; [exact Hk'|].
    simpl in Hv. rewrite (space_not_dot _ Hv). exact Hk'.
  - change (Re.exec (Re.Opt ?a) ?i ?s ?g ?k)
      with (match Re.exec a i s g k with Some y => Some y | None => k i s g end).
    change (Re.exec (Re.Cat ?a ?b) ?i ?s ?g ?k)
      with (Re.exec a i s g (fun i' s' g' => Re.exec b i' s' g' k)).
    simpl app. change (Re.exec (Re.Cls ?p) ?i (?c :: ?s) ?g ?k)
      with (if p c then k (S i) s g else None).
    change (Re.lit "." 46%N) with true. cbv beta iota.
    rewrite (@exec_rep_run R cls_09AZ k 1 4 tail v _ g x); [reflexivity|exact Htail|simpl; lia| |].
    + right. destruct v as [|sp v]; simpl; [exact I|]. apply space_not_09AZ. exact Hv.
    + rewrite <- Hk'. f_equal. simpl. lia.
Qed.

Lemma is_code_shape : forall s, _is_code L s = true <-> code_shape L s.
Proof.
  intros s. unfold _is_code, Re.fullmatch. split.
  - destruct (Re.exec (CODE_RE L) 0 s []
                (fun _ s' g => match s' with [] => Some g | _ :: _ => None end))
      as [g|] eqn:E; [intros _|discriminate].
    apply exec_sound in E. destruct E as (i' & s' & g' & Hm & Hk).
    destruct s'; [clear Hk|discriminate]. unfold CODE_RE in Hm.
    inversion Hm as [| |a b st1 [i1 s1] st3 H1 H2| | | | | | | |]; subst.
    apply (matches_rep_cls Re.upper 1 2) in H1.
    destruct H1 as (letters & Hs & Hl & Hup & Hi1).
    inversion H2 as [| |a b st1 [i2 s2] st3 H3 H4| | | | | | | |]; subst.
    apply (matches_rep_cls (cls_d L) 2 2) in H3.
    destruct H3 as (digits & Hs1 & Hd & Hdig & Hi2).
    exists letters, digits, s2. subst. repeat split; try assumption; simpl in *; try lia.
    unfold Re.Opt in H4.
    inversion H4 as [| | |a b st1 st2 Hl'|a b st1 st2 Hr| | | | | |]; subst.
    + inversion Hl' as [| |a b st1 [i3 s3] st3 H5 H6| | | | | | | |]; subst.
      apply matches_cls_inv in H5. destruct H5 as (c & Hc & Hp & Hi3).
      apply (matches_rep_cls cls_09AZ 1 4) in H6.
      destruct H6 as (tail & Hs3 & Ht & Htail & Hi4).
      right. exists tail. unfold Re.lit in Hp. apply N.eqb_eq in Hp. subst.
      rewrite app_nil_r. repeat split; try assumption; simpl in *; lia.
    + inversion Hr; subst. left. reflexivity.
  - intros H.
    assert (E : Re.exec (CODE_RE L) 0 (s ++ []) []
                        (fun _ s' g => match s' with [] => Some g | _ :: _ => None end)
                = Some []).
    { apply exec_code_run; [exact H|exact I|reflexivity]. }
    rewrite app_nil_r in E. rewrite E. reflexivity.
Qed.

End CodeFacts.

Ltac shape_of letters digits suffix :=
  exists letters, digits, suffix;
  repeat split; try (simpl; lia); try reflexivity;
  try (apply forallb_forall; intros c Hc; apply digit09_cls_d;
       simpl in Hc; repeat (destruct Hc as [<-|Hc]; [reflexivity|]); contradiction).

Ltac shape_refute H :=
  let letters := fresh "letters" in
  let digits := fresh "digits" in
  let suffix := fresh "suffix" in
  let Hs := fresh "Hs" in
  destruct H as (letters & digits & suffix & Hs & Hl & Hup & Hd & Hdig & Hsuf);
  destruct letters as [|? [|? [|? ?]]]; simpl in Hl; try lia;
  destruct digits as [|? [|? [|? ?]]]; simpl in Hd; try lia;
  simpl in Hs; simpl in Hup;
  destruct Hsuf as [->|(tail & -> & Ht & _)];
  try (destruct tail as [|? ?]; simpl in Ht; [lia|]);
  try discriminate Hs;
  inversion Hs; subst; try discriminate Hup;
  try (simpl in Hdig; apply andb_true_iff in Hdig; destruct Hdig as [Hd1 Hd2];
       apply andb_true_iff in Hd2; destruct Hd2 as [Hd2 _];
       first [ apply cls_d_ascii in Hd1; [lia|reflexivity]
             | apply cls_d_ascii in Hd2; [lia|reflexivity] ]).

(** C7, as amended. [_is_code] accepts exactly the strings made of one or two
    letters A-Z, two decimal digits, and then nothing or a full stop followed
    by one to four characters, each a digit 0-9 or a letter A-Z (a lowercase
    letter is not accepted); it accepts "A00", "B00.1" and "AB12.3A" and
    rejects "A0", "1A0" and "A000". *)
Theorem C7_is_code_accepts_exactly : forall (L : PyLib) (s : str),
    (_is_code L s = true <-> code_shape L s)
    /\ _is_code L (u "A00") = true
    /\ _is_code L (u "B00.1") = true
    /\ _is_code L (u "AB12.3A") = true
    /\ _is_code L (u "A0") = false
    /\ _is_code L (u "1A0") = false
    /\ _is_code L (u "A000") = false.
Proof.
  intros L s. split; [apply is_code_shape|].
  split.
  { apply is_code_shape. shape_of (u "A") (u "00") (@nil char).
    left. reflexivity. }
  split.
  { apply is_code_shape. shape_of (u "B") (u "00") (u ".1").
    right. exists (u "1"). repeat split; simpl; lia. }
  split.
  { apply is_code_shape. shape_of (u "AB") (u "12") (u ".3A").
    right. exists (u "3A"). repeat split; simpl; lia. }
  split.
  { apply not_true_is_false. intros H. apply is_code_shape in H. shape_refute H. }
  split.
  { reflexivity. }
  apply not_true_is_false. intros H. apply is_code_shape in H. shape_refute H.
Qed.

(** C7, as stated, fails: "A00.a" has the stated shape (a letter, two digits,
    a full stop and one alphanumeric), and [_is_code] rejects it. *)
Lemma C7_lowercase_suffix_rejected :
  code_shape_as_specified Reference.lib (u "A00.a")
  /\ _is_code Reference.lib (u "A00.a") = false.
Proof.
  split; [|vm_compute; reflexivity].
  exists (u "A"), (u "00"), (u ".a"). repeat split; try (simpl; lia).
  right. exists (u "a"). repeat split; simpl; lia.
Qed.

(** ** The sort key *)

Lemma str_ltb_irrefl : forall a, Str.ltb a a = false.
Proof.
  induction a as [|x a IH]; simpl; [reflexivity|].
  rewrite N.ltb_irrefl, N.eqb_refl, IH. reflexivity.
Qed.

Lemma exec_grp_plus_run : forall (R : Type) p (k : Re.cont R) name w v i g x,
    forallb p w = true -> w <> [] -> stops p v ->
    k (i + length w) v ((name, w) :: g) = Some x ->
    Re.exec (Re.Grp name (Re.Plus (Re.Cls p))) i (w ++ v) g k = Some x.
Proof.
  intros R p k name w v i g x Hw Hne Hv Hk.
  change (Re.exec (Re.Grp name ?a) i ?s g k)
    with (Re.exec a i s g (fun i' s' g' => k i' s' ((name, firstn (i' - i) s) :: g'))).
  apply exec_plus_run; try assumption.
  cbv beta. rewrite firstn_run. exact Hk.
Qed.

Section SortKeyFacts.
Variable L : PyLib.

(** The groups of a code the sort-key pattern parses. *)
Lemma sort_key_groups : forall s prefix number suffix,
    key_shape L s prefix number suffix ->
    Re.fullmatch (SORT_KEY_RE L) s
    = Some (match suffix with Some t => [(3, t)] | None => [] end
              ++ [(2, number); (1, prefix)]).
Proof.
  intros s prefix number suffix (Hp & Hup & Hn & Hdig & Hs).
  assert (Hstop : forall v, stops Re.upper (number ++ v)).
  { intros v. destruct number as [|d ds]; [congruence|]. simpl in *.
    apply andb_true_iff in Hdig. apply cls_d_not_upper with (L := L). apply Hdig. }
  unfold Re.fullmatch, SORT_KEY_RE.
  destruct suffix as [t|].
  - destruct Hs as (Ht & Han & Hs). subst s.
    change (Re.exec (Re.Cat ?a ?b) ?i ?s ?g ?k)
      with (Re.exec a i s g (fun i' s' g' => Re.exec b i' s' g' k)).
    apply exec_grp_plus_run; [assumption|assumption|apply Hstop|]. cbv beta.
    change (Re.exec (Re.Cat ?a ?b) ?i ?s ?g ?k)
      with (Re.exec a i s g (fun i' s' g' => Re.exec b i' s' g' k)).
    apply exec_grp_plus_run; [assumption|assumption| |].
    { simpl. apply not_true_is_false. intros E.
      apply cls_d_not_dot in E. discriminate E. }
    cbv beta.
    change (Re.exec (Re.Opt ?a) ?i ?s ?g ?k)
      with (match Re.exec a i s g k with Some y => Some y | None => k i s g end).
    change (Re.exec (Re.Cat ?a ?b) ?i ?s ?g ?k)
      with (Re.exec a i s g (fun i' s' g' => Re.exec b i' s' g' k)).
    change (Re.exec (Re.Cls ?p) ?i (?c :: ?s) ?g ?k)
      with (if p c then k (S i) s g else None).
    change (Re.lit "." (chr ".")) with true. cbv beta iota.
    rewrite <- (app_nil_r t) at 1.
    rewrite (@exec_grp_plus_run _ cls_09AZ _ 3 t [] _ _ [(3, t); (2, number); (1, prefix)]);
      [reflexivity|assumption|assumption|exact I|reflexivity].
  - subst s. rewrite <- (app_nil_r number) at 1.
    change (Re.exec (Re.Cat ?a ?b) ?i ?s ?g ?k)
      with (Re.exec a i s g (fun i' s' g' => Re.exec b i' s' g' k)).
    apply exec_grp_plus_run; [assumption|assumption|apply Hstop|]. cbv beta.
    change (Re.exec (Re.Cat ?a ?b) ?i ?s ?g ?k)
      with (Re.exec a i s g (fun i' s' g' => Re.exec b i' s' g' k)).
    apply exec_grp_plus_run; [assumption|assumption|exact I|]. reflexivity.
Qed.

(** What the sort-key pattern matches has the shape of a key. *)
Lemma sort_key_match_shape : forall s g,
    Re.fullmatch (SORT_KEY_RE L) s = Some g ->
    exists prefix number suffix, key_shape L s prefix number suffix.
Proof.
  intros s g E. unfold Re.fullmatch in E.
  apply exec_sound in E. destruct E as (i' & s' & g' & Hm & Hk).
  destruct s'; [clear Hk|discriminate]. unfold SORT_KEY_RE in Hm.
  inversion Hm as [| |a b st1 [i1 s1] st3 H1 H2| | | | | | | |]; subst.
  inversion H1 as [| | | | | | |n a st1 st2 H1'| | |]; subst.
  apply matches_plus_cls in H1'. destruct H1' as (prefix & Hs & Hp & Hup & Hi1).
  inversion H2 as [| |a b st1 [i2 s2] st3 H3 H4| | | | | | | |]; subst.
  inversion H3 as [| | | | | | |n a st1 st2 H3'| | |]; subst.
  apply matches_plus_cls in H3'. destruct H3' as (number & Hs1 & Hn & Hdig & Hi2).
  unfold Re.Opt in H4.
  inversion H4 as [| | |a b st1 st2 Hl|a b st1 st2 Hr| | | | | |]; subst.
  - inversion Hl as [| |a b st1 [i3 s3] st3 H5 H6| | | | | | | |]; subst.
    apply matches_cls_inv in H5. destruct H5 as (c & Hc & Hdot & Hi3).
    inversion H6 as [| | | | | | |n a st1 st2 H6'| | |]; subst.
    apply matches_plus_cls in H6'. destruct H6' as (t & Hs3 & Ht & Han & Hi4).
    unfold Re.lit in Hdot. apply N.eqb_eq in Hdot. subst.
    exists prefix, number, (Some t). rewrite app_nil_r.
    repeat split; assumption.
  - inversion Hr; subst. exists prefix, number, None. rewrite app_nil_r.
    repeat split; assumption.
Qed.

Lemma sort_key_no_match : forall s,
    (forall prefix number suffix, ~ key_shape L s prefix number suffix) ->
    Re.fullmatch (SORT_KEY_RE L) s = None.
Proof.
  intros s Hno. destruct (Re.fullmatch (SORT_KEY_RE L) s) as [g|] eqn:E; [|reflexivity].
  apply sort_key_match_shape in E. destruct E as (p & n & t & H).
  exfalso. exact (Hno p n t H).
Qed.

Lemma unlimited_parsed : forall s prefix number suffix,
    key_shape L s prefix number suffix ->
    unlimited_key L s
    = (prefix, int_value L number, match suffix with Some t => t | None => [] end).
Proof.
  intros s prefix number suffix H. unfold unlimited_key.
  rewrite (sort_key_groups H).
  destruct suffix as [t|]; [|reflexivity].
  destruct H as (_ & _ & _ & _ & Ht & _). simpl. destruct t; [congruence|reflexivity].
Qed.

Lemma unlimited_fallback : forall s,
    (forall prefix number suffix, ~ key_shape L s prefix number suffix) ->
    unlimited_key L s = (s, 0%N, []).
Proof.
  intros s Hno. unfold unlimited_key. rewrite (sort_key_no_match Hno). reflexivity.
Qed.

(** The test of [int] on the number of digits. *)
Lemma over_limit_test : forall number,
    (640 <? length number) && (0 <? int_max_str_digits L)
    && (int_max_str_digits L <? length number) = true
    <-> over_limit L number.
Proof.
  intros number. unfold over_limit.
  rewrite !andb_true_iff, !Nat.ltb_lt. tauto.
Qed.

Lemma int_within_limit : forall number,
    ~ over_limit L number -> int L number = Returned (int_value L number).
Proof.
  intros number H. unfold int.
  destruct ((640 <? length number) && (0 <? int_max_str_digits L)
            && (int_max_str_digits L <? length number)) eqn:E; [|reflexivity].
  exfalso. apply H. apply over_limit_test. exact E.
Qed.

Lemma int_over_limit : forall number,
    over_limit L number ->
    int L number
    = Raised (ValueError (too_many_digits (int_max_str_digits L) (length number))).
Proof.
  intros number H. unfold int. apply over_limit_test in H. rewrite H. reflexivity.
Qed.

Lemma short_within_limit : forall number, length number <= 640 -> ~ over_limit L number.
Proof. intros number H [H1 _]. apply (Nat.lt_irrefl 640). eapply Nat.lt_le_trans; eassumption. Qed.

Lemma sort_key_of_groups : forall s prefix number suffix,
    key_shape L s prefix number suffix ->
    _code_sort_key L s
    = and_then (int L number)
               (fun v => Returned (prefix, v, match suffix with Some t => t | None => [] end)).
Proof.
  intros s prefix number suffix H. unfold _code_sort_key.
  rewrite (sort_key_groups H).
  destruct suffix as [t|]; [|reflexivity].
  destruct H as (_ & _ & _ & _ & Ht & _). simpl.
  destruct t; [congruence|reflexivity].
Qed.

Lemma sort_key_parsed : forall s prefix number suffix,
    key_shape L s prefix number suffix ->
    ~ over_limit L number ->
    _code_sort_key L s
    = Returned (prefix, int_value L number, match suffix with Some t => t | None => [] end).
Proof.
  intros s prefix number suffix H Hlim.
  rewrite (sort_key_of_groups H), (int_within_limit Hlim). reflexivity.
Qed.

Lemma sort_key_raises : forall s prefix number suffix,
    key_shape L s prefix number suffix ->
    over_limit L number ->
    _code_sort_key L s
    = Raised (ValueError (too_many_digits (int_max_str_digits L) (length number))).
Proof.
  intros s prefix number suffix H Hlim.
  rewrite (sort_key_of_groups H), (int_over_limit Hlim). reflexivity.
Qed.

Lemma sort_key_fallback : forall s,
    (forall prefix number suffix, ~ key_shape L s prefix number suffix) ->
    _code_sort_key L s = Returned (s, 0%N, []).
Proof.
  intros s Hno. unfold _code_sort_key. rewrite (sort_key_no_match Hno). reflexivity.
Qed.

(** A string has a shape of a key or has none. *)
Lemma key_shape_or_not : forall s,
    (exists prefix number suffix, key_shape L s prefix number suffix)
    \/ (forall prefix number suffix, ~ key_shape L s prefix number suffix).
Proof.
  intros s. destruct (Re.fullmatch (SORT_KEY_RE L) s) as [g|] eqn:E.
  - left. eapply sort_key_match_shape. exact E.
  - right. intros p n t H. rewrite (sort_key_groups H) in E. discriminate E.
Qed.

Lemma over_limit_or_not : forall number, over_limit L number \/ ~ over_limit L number.
Proof.
  intros number.
  destruct ((640 <? length number) && (0 <? int_max_str_digits L)
            && (int_max_str_digits L <? length number)) eqn:E.
  - left. apply over_limit_test. exact E.
  - right. intros H. apply over_limit_test in H. congruence.
Qed.

(** A key that is returned is the key without the limit. *)
Lemma sort_key_returned : forall s k,
    _code_sort_key L s = Returned k -> k = unlimited_key L s.
Proof.
  intros s k H. destruct (key_shape_or_not s) as [(p & n & t & Hs)|Hno].
  - rewrite (unlimited_parsed Hs). destruct (over_limit_or_not n) as [Ho|Ho].
    + rewrite (sort_key_raises Hs Ho) in H. discriminate H.
    + rewrite (sort_key_parsed Hs Ho) in H. inversion H. reflexivity.
  - rewrite (unlimited_fallback Hno). rewrite (sort_key_fallback Hno) in H.
    inversion H. reflexivity.
Qed.

(** The key function raises for a digit group over the limit only. *)
Lemma sort_key_raised : forall s e,
    _code_sort_key L s = Raised e ->
    exists prefix number suffix,
      key_shape L s prefix number suffix /\ over_limit L number
      /\ e = ValueError (too_many_digits (int_max_str_digits L) (length number)).
Proof.
  intros s e H. destruct (key_shape_or_not s) as [(p & n & t & Hs)|Hno].
  - exists p, n, t. destruct (over_limit_or_not n) as [Ho|Ho].
    + rewrite (sort_key_raises Hs Ho) in H. inversion H; subst.
      split; [exact Hs|split; [exact Ho|reflexivity]].
    + rewrite (sort_key_parsed Hs Ho) in H. discriminate H.
  - rewrite (sort_key_fallback Hno) in H. discriminate H.
Qed.

Lemma sort_key_ltb_lt : forall a b, sort_key_ltb a b = true <-> sort_key_lt a b.
Proof.
  intros [[p1 n1] s1] [[p2 n2] s2]. unfold sort_key_ltb, sort_key_lt.
  destruct (Str.eqb p1 p2) eqn:Ep.
  - apply str_eqb_eq in Ep. subst p2. rewrite str_ltb_irrefl.
    destruct (n1 =? n2)%N eqn:En.
    + apply N.eqb_eq in En. subst n2. split.
      * intros H. right. split; [reflexivity|]. right. split; [reflexivity|exact H].
      * intros [H|[_ [H|[_ H]]]]; [discriminate|lia|exact H].
    + apply N.eqb_neq in En. rewrite N.ltb_lt. split.
      * intros H. right. split; [reflexivity|]. left. exact H.
      * intros [H|[_ [H|[H _]]]]; [discriminate|exact H|contradiction].
  - apply str_eqb_neq in Ep. split.
    + intros H. left. exact H.
    + intros [H|[H _]]; [exact H|contradiction].
Qed.

Lemma sort_key_A9 : _code_sort_key L (u "A9") = Returned (u "A", 9%N, []).
Proof.
  rewrite (@sort_key_parsed (u "A9") (u "A") (u "9") None).
  - unfold int_value. simpl. rewrite (decimal_ascii L) by (vm_compute; split; discriminate).
    reflexivity.
  - repeat split; try discriminate.
    apply forallb_forall. intros c [<-|[]]. apply digit09_cls_d. reflexivity.
  - apply short_within_limit. apply Nat.leb_le. reflexivity.
Qed.

Lemma sort_key_A10 : _code_sort_key L (u "A10") = Returned (u "A", 10%N, []).
Proof.
  rewrite (@sort_key_parsed (u "A10") (u "A") (u "10") None).
  - unfold int_value. simpl.
    rewrite !(decimal_ascii L) by (vm_compute; split; discriminate).
    reflexivity.
  - repeat split; try discriminate.
    apply forallb_forall. intros c [<-|[<-|[]]]; apply digit09_cls_d; reflexivity.
  - apply short_within_limit. apply Nat.leb_le. reflexivity.
Qed.

End SortKeyFacts.

(** C6, as amended. [_code_sort_key] parses a code into (letter prefix,
    value of the digit group, suffix after the full stop, empty when there is
    none), unless the digit group has more digits than [int] converts: then
    it raises the [ValueError] of [int]. That needs more than 640 digits and
    more than the interpreter's limit, which is 4300 digits unless set
    otherwise. A string the pattern does not parse gets the key (string, 0,
    empty), and the function raises in no other case. Keys compare on the
    prefix first, then on the number as a number, then on the suffix; and
    "A9" sorts before "A10", although it is the greater string. *)
Theorem C6_code_sort_key : forall L : PyLib,
    (forall s prefix number suffix,
        key_shape L s prefix number suffix ->
        length number <= 640 \/ int_max_str_digits L = 0
        \/ length number <= int_max_str_digits L ->
        _code_sort_key L s
        = Returned (prefix, int_value L number,
                    match suffix with Some t => t | None => [] end))
    /\ (forall s prefix number suffix,
           key_shape L s prefix number suffix ->
           640 < length number -> 0 < int_max_str_digits L < length number ->
           _code_sort_key L s
           = Raised (ValueError (too_many_digits (int_max_str_digits L) (length number))))
    /\ (forall s,
           (forall prefix number suffix, ~ key_shape L s prefix number suffix) ->
           _code_sort_key L s = Returned (s, 0%N, []))
    /\ (forall s e,
           _code_sort_key L s = Raised e ->
           exists prefix number suffix,
             key_shape L s prefix number suffix
             /\ 640 < length number /\ 0 < int_max_str_digits L < length number)
    /\ (forall a b, sort_key_ltb a b = true <-> sort_key_lt a b)
    /\ _code_sort_key L (u "A9") = Returned (u "A", 9%N, [])
    /\ _code_sort_key L (u "A10") = Returned (u "A", 10%N, [])
    /\ sort_key_ltb (u "A", 9%N, []) (u "A", 10%N, []) = true
    /\ Str.ltb (u "A9") (u "A10") = false
    /\ Py.sorted_by (_code_sort_key L) sort_key_ltb [u "A10"; u "A9"]
       = Returned [u "A9"; u "A10"].
Proof.
  intros L.
  split.
  { intros s prefix number suffix Hs Hlim. apply sort_key_parsed; [exact Hs|].
    intros [H1 [H2 H3]]. destruct Hlim as [H|[H|H]].
    - apply (Nat.lt_irrefl 640). eapply Nat.lt_le_trans; eassumption.
    - rewrite H in H2. inversion H2.
    - apply (Nat.lt_irrefl (length number)). eapply Nat.le_lt_trans; eassumption. }
  split.
  { intros s prefix number suffix Hs H1 H2. apply (sort_key_raises Hs). split; assumption. }
  split; [apply sort_key_fallback|].
  split.
  { intros s e H. apply sort_key_raised in H.
    destruct H as (p & n & t & Hs & [H1 [H2 H3]] & _). exists p, n, t.
    split; [exact Hs|]. split; [exact H1|]. split; [exact H2|exact H3]. }
  split; [apply sort_key_ltb_lt|].
  split; [apply sort_key_A9|]. split; [apply sort_key_A10|].
  split; [reflexivity|].
  split; [reflexivity|].
  unfold Py.sorted_by. cbn [Py.keyed and_then].
  rewrite sort_key_A9, sort_key_A10. reflexivity.
Qed.

(** C6, as stated, fails: the letter A followed by 4301 digits parses, and
    under the interpreter's default limit of 4300 digits the key function
    raises the [ValueError] of [int] instead of returning a key. *)
Lemma C6_long_digit_group_raises :
  key_shape Reference.lib (u "A" ++ repeat 49%N 4301) (u "A") (repeat 49%N 4301) None
  /\ _code_sort_key Reference.lib (u "A" ++ repeat 49%N 4301)
     = Raised (ValueError
                 (u "Exceeds the limit (4300 digits) for integer string conversion: value has 4301 digits; use sys.set_int_max_str_digits() to increase the limit")).
Proof.
  assert (Hs : key_shape Reference.lib (u "A" ++ repeat 49%N 4301) (u "A")
                         (repeat 49%N 4301) None).
  { split; [discriminate|]. split; [reflexivity|].
    split; [intros H; apply (f_equal (@length _)) in H; rewrite repeat_length in H;
            discriminate H|].
    split; [vm_compute; reflexivity|reflexivity]. }
  split; [exact Hs|].
  rewrite (sort_key_raises Hs).
  - vm_compute. reflexivity.
  - unfold over_limit. rewrite repeat_length.
    repeat split; apply Nat.ltb_lt; vm_compute; reflexivity.
Qed.

(** ** The table strategy *)

Lemma startswith_in : forall sub s c,
    Str.startswith sub s = true -> In c sub -> In c s.
Proof.
  induction sub as [|x sub IH]; intros s c H Hin; [contradiction|].
  destruct s as [|y s]; simpl in H; [discriminate|].
  apply andb_true_iff in H. destruct H as [Hx H]. apply N.eqb_eq in Hx. subst y.
  destruct Hin as [<-|Hin]; [left; reflexivity|right; eapply IH; eassumption].
Qed.

Lemma contains_in : forall sub s c,
    Str.contains sub s = true -> In c sub -> In c s.
Proof.
  intros sub. induction s as [|y s IH]; intros c H Hin; simpl in H.
  - rewrite orb_false_r in H. eapply startswith_in; eassumption.
  - apply orb_true_iff in H. destruct H as [H|H].
    + eapply startswith_in; eassumption.
    + right. apply IH; assumption.
Qed.

Section TableFacts.
Variable L : PyLib.

(** The header word of the source starts with the capital U+00C5, which no
    lowercased text contains: the header test never holds. *)
Lemma header_test_never_holds : forall cells, is_header_row L cells = false.
Proof.
  intros cells. unfold is_header_row. apply not_true_is_false. intros H.
  apply existsb_exists in H. destruct H as [cell [_ H]].
  apply (@lower_no_capital L cell 197%N).
  - eapply contains_in; [exact H|]. left. reflexivity.
  - right. split; [lia|discriminate].
Qed.

Lemma normalize_plain : forall s,
    forallb (fun c => negb (c =? 38)%N) s = true ->
    _normalize_text L s = Str.strip (Re.sub SPACES_RE (u " ") s).
Proof.
  intros s H. unfold _normalize_text. rewrite (unescape_plain L); [reflexivity|].
  intros Hin. rewrite forallb_forall in H. specialize (H _ Hin). discriminate H.
Qed.

Lemma row_entries_four : forall c1 c2 c3 c4 rest,
    row_entries L (c1 :: c2 :: c3 :: c4 :: rest)
    = if is_header_row L (c1 :: c2 :: c3 :: c4 :: rest) then []
      else if _is_code L c1
           then [{| code := c1; serbian := c2; latin := c3 |}]
           else [].
Proof.
  intros c1 c2 c3 c4 rest. unfold row_entries.
  destruct (is_header_row L (c1 :: c2 :: c3 :: c4 :: rest)); [reflexivity|].
  simpl. destruct (_is_code L c1); reflexivity.
Qed.

End TableFacts.

(** Evaluation of a closed term inside a goal that mentions the libraries. *)
Ltac compute_closed t := let v := eval vm_compute in t in change t with v.

Ltac compute_find_all :=
  repeat match goal with
         | |- context [Soup.find_all ?p ?n] => compute_closed (Soup.find_all p n)
         end.

Ltac compute_cells L :=
  unfold _parse_from_tables, row_cells;
  repeat (progress (compute_find_all; cbn [flat_map app map]));
  repeat (rewrite (@normalize_plain L) by (vm_compute; reflexivity));
  repeat match goal with
         | |- context [Str.strip ?s] => compute_closed (Str.strip s)
         end.

Section TableExamples.
Variable L : PyLib.

Lemma row_entries_code : forall c1 c2 rest,
    _is_code L c1 = true ->
    row_entries L (c1 :: c2 :: rest)
    = [{| code := c1; serbian := c2;
          latin := match rest with [] => [] | c3 :: _ => c3 end |}].
Proof.
  intros c1 c2 rest H. unfold row_entries. rewrite header_test_never_holds.
  simpl. rewrite H. destruct rest; reflexivity.
Qed.

Lemma row_entries_not_code : forall c1 rest,
    _is_code L c1 = false -> row_entries L (c1 :: rest) = [].
Proof.
  intros c1 rest H. unfold row_entries. rewrite header_test_never_holds.
  simpl. rewrite H. destruct rest; reflexivity.
Qed.

Lemma is_code_A00 : _is_code L (u "A00") = true.
Proof.
  apply is_code_shape. shape_of (u "A") (u "00") (@nil char). left. reflexivity.
Qed.

Lemma sifra_row_kept :
  _parse_from_tables L sifra_row_page
  = [{| code := u "A00"; serbian := u "Kolera (stara šifra 001)"; latin := [] |}].
Proof.
  compute_cells L. rewrite row_entries_code by apply is_code_A00. reflexivity.
Qed.

Lemma four_cell_page_entry :
  _parse_from_tables L four_cell_page
  = [{| code := u "A00"; serbian := u "Kolera"; latin := u "Cholera" |}].
Proof.
  compute_cells L. rewrite row_entries_code by apply is_code_A00. reflexivity.
Qed.

Lemma header_word_page_entry :
  _parse_from_tables L header_word_page
  = [{| code := u "A00"; serbian := u "Kolera"; latin := u "Cholera" |}].
Proof.
  compute_cells L. rewrite row_entries_code by apply is_code_A00. reflexivity.
Qed.

Lemma labelled_table_no_entry : _parse_from_tables L labelled_table_page = [].
Proof.
  compute_cells L. rewrite row_entries_not_code by reflexivity. reflexivity.
Qed.

End TableExamples.


(** ** The structured-block strategy *)

Lemma first_matching_in : forall L subs exclude ds idx i d,
    first_matching_from L subs exclude idx ds = Some (i, d) -> In d ds.
Proof.
  intros L subs exclude. induction ds as [|x ds IH]; intros idx i d H; simpl in H.
  - discriminate.
  - destruct (match exclude with Some e => Nat.eqb idx e | None => false end).
    + right. eapply IH. exact H.
    + destruct (class_matches L subs x).
      * inversion H; subst. left. reflexivity.
      * right. eapply IH. exact H.
Qed.

(** A container none of whose elements holds a code gives no entry, whichever
    element the class markers select. *)
Lemma block_without_code : forall L container,
    Forall (fun e => _is_code L (_normalize_text L (Soup.get_text (u " ") e)) = false)
           (Soup.find_all (fun _ => true) container) ->
    block_entries L container = [].
Proof.
  intros L container Hall. unfold block_entries.
  destruct (_find_first_matching L container [u "sifra"; u "code"; u "oznaka"] None)
    as [[idx e]|] eqn:E; simpl.
  - unfold _find_first_matching in E. apply first_matching_in in E.
    rewrite Forall_forall in Hall. rewrite (Hall e E). reflexivity.
  - reflexivity.
Qed.

Lemma labelled_block_no_entry : forall L,
    _parse_from_structured_blocks L labelled_block_page = [].
Proof.
  intros L. unfold _parse_from_structured_blocks.
  assert (H : forall c, In c (Soup.descendants labelled_block_page) ->
                        block_entries L c = []).
  { intros c Hin. apply block_without_code.
    let v := eval vm_compute in (Soup.descendants labelled_block_page) in
    change (Soup.descendants labelled_block_page) with v in Hin.
    simpl in Hin.
    repeat (destruct Hin as [<-|Hin];
            [compute_find_all;
             repeat (apply Forall_cons;
                     [cbv beta;
                      rewrite (@normalize_plain L) by (vm_compute; reflexivity);
                      match goal with
                      | |- context [Str.strip ?s] => compute_closed (Str.strip s)
                      end;
                      apply not_true_is_false; intros Hcode;
                      apply is_code_shape in Hcode; shape_refute Hcode|]);
             apply Forall_nil|]).
    contradiction. }
  unfold Soup.find_all.
  induction (Soup.descendants labelled_block_page) as [|d ds IH]; [reflexivity|].
  simpl. destruct (Soup.is_tag d && is_candidate L d).
  - simpl. rewrite (H d) by (left; reflexivity). apply IH.
    intros c Hc. apply H. right. exact Hc.
  - apply IH. intros c Hc. apply H. right. exact Hc.
Qed.

(** C2. The test suite asks the table and the structured-block strategies to
    strip a leading label; the strategies do not: on the pages of
    [test_parse_tables_strips_labels] and
    [test_parse_structured_blocks_with_labels] the code field keeps its
    label, fails the code pattern, and no entry comes out. *)
Theorem C2_labels_are_not_stripped : forall L : PyLib,
    _parse_from_tables L labelled_table_page = []
    /\ _parse_from_structured_blocks L labelled_block_page = [].
Proof.
  intros L. split; [apply labelled_table_no_entry|apply labelled_block_no_entry].
Qed.

(** C3. The header test looks for the word as the source file spells it,
    U+00C5 U+00A1 "ifra", in the lowercased cell; no lowercased text holds
    U+00C5, so the test never holds, and a row with a cell that contains
    "šifra" is kept when its first cell is a code. *)
Theorem C3_sifra_row_is_not_skipped : forall L : PyLib,
    (forall cells, is_header_row L cells = false)
    /\ _parse_from_tables L sifra_row_page
       = [{| code := u "A00"; serbian := u "Kolera (stara šifra 001)"; latin := [] |}].
Proof.
  intros L. split; [apply header_test_never_holds|apply sifra_row_kept].
Qed.

(** ** The cascade *)



(** ** The link discoverer *)

Lemma str_ltb_trans : forall a b c,
    Str.ltb a b = true -> Str.ltb b c = true -> Str.ltb a c = true.
Proof.
  induction a as [|x a IH]; intros b c Hab Hbc.
  - destruct b; simpl in *; [discriminate|]. destruct c; [discriminate|reflexivity].
  - destruct b as [|y b]; simpl in *; [discriminate|].
    destruct c as [|z c]; simpl in *; [discriminate|].
    bprop; subst; apply orb_true_iff;
      try (left; apply N.ltb_lt; lia).
    right. rewrite N.eqb_refl. simpl. eapply IH; eassumption.
Qed.

Lemma str_ltb_total : forall a b,
    Str.ltb a b = false -> a <> b -> Str.ltb b a = true.
Proof.
  induction a as [|x a IH]; intros b Hab Hne.
  - destruct b; simpl in *; [congruence|discriminate].
  - destruct b as [|y b]; [reflexivity|]. simpl in *.
    apply orb_false_iff in Hab. destruct Hab as [Hlt Hab].
    apply N.ltb_ge in Hlt. apply orb_true_iff.
    destruct (N.eq_dec x y) as [->|Hxy].
    + right. rewrite N.eqb_refl in *. simpl in *. apply IH; [exact Hab|congruence].
    + left. apply N.ltb_lt. lia.
Qed.

Section SortedFacts.
Variable A : Type.
Variable lt : A -> A -> bool.

Lemma insert_in : forall x y l, In y (Py.insert lt x l) <-> y = x \/ In y l.
Proof.
  intros x y. induction l as [|z l IH]; simpl.
  - split; intros [H|H]; auto.
  - destruct (lt z x); simpl; [rewrite IH|]; split; intros H; intuition auto.
Qed.

Lemma sorted_in : forall y l, In y (Py.sorted lt l) <-> In y l.
Proof.
  intros y. induction l as [|x l IH]; simpl; [reflexivity|].
  rewrite insert_in, IH. split; intros [H|H]; auto.
Qed.

Lemma insert_nodup : forall x l, ~ In x l -> NoDup l -> NoDup (Py.insert lt x l).
Proof.
  intros x. induction l as [|z l IH]; intros Hx Hl; simpl.
  - constructor; [exact Hx|constructor].
  - inversion Hl; subst. destruct (lt z x).
    + constructor.
      * rewrite insert_in. intros [H|H]; [subst; apply Hx; left; reflexivity|contradiction].
      * apply IH; [intros H; apply Hx; right; exact H|assumption].
    + constructor; assumption.
Qed.

Lemma sorted_nodup : forall l, NoDup l -> NoDup (Py.sorted lt l).
Proof.
  induction l as [|x l IH]; intros H; simpl; [constructor|].
  inversion H; subst. apply insert_nodup; [rewrite sorted_in; assumption|auto].
Qed.

Hypothesis lt_trans : forall a b c, lt a b = true -> lt b c = true -> lt a c = true.
Hypothesis lt_total : forall a b, lt a b = false -> a <> b -> lt b a = true.

Lemma insert_sorted : forall x l,
    ~ In x l ->
    StronglySorted (fun a b => lt a b = true) l ->
    StronglySorted (fun a b => lt a b = true) (Py.insert lt x l).
Proof.
  intros x. induction l as [|z l IH]; intros Hx Hl; simpl.
  - constructor; constructor.
  - inversion Hl as [|z' l' Hs Hall]; subst. destruct (lt z x) eqn:E.
    + constructor.
      * apply IH; [intros H; apply Hx; right; exact H|assumption].
      * apply Forall_forall. intros y Hy. apply insert_in in Hy.
        destruct Hy as [->|Hy]; [exact E|].
        rewrite Forall_forall in Hall. apply Hall. exact Hy.
    + assert (Hxz : lt x z = true).
      { apply lt_total; [exact E|]. intros Heq. apply Hx. left. exact Heq. }
      constructor; [exact Hl|]. constructor; [exact Hxz|].
      apply Forall_forall. intros y Hy. rewrite Forall_forall in Hall.
      eapply lt_trans; [exact Hxz|apply Hall; exact Hy].
Qed.

Lemma sorted_strongly : forall l,
    NoDup l -> StronglySorted (fun a b => lt a b = true) (Py.sorted lt l).
Proof.
  induction l as [|x l IH]; intros H; simpl; [constructor|].
  inversion H; subst. apply insert_sorted; [rewrite sorted_in; assumption|auto].
Qed.

End SortedFacts.

Lemma insert_length : forall (A : Type) (lt : A -> A -> bool) x l,
    length (Py.insert lt x l) = S (length l).
Proof.
  intros A lt x. induction l as [|y l IH]; [reflexivity|].
  cbn [Py.insert]. destruct (lt y x); cbn [length]; [rewrite IH|]; reflexivity.
Qed.

Lemma sorted_length : forall (A : Type) (lt : A -> A -> bool) l,
    length (Py.sorted lt l) = length l.
Proof.
  intros A lt. induction l as [|x l IH]; [reflexivity|].
  unfold Py.sorted in *. cbn [fold_right length]. rewrite insert_length, IH. reflexivity.
Qed.

Lemma lstrip_with_in : forall p s c, In c (Str.lstrip_with p s) -> In c s.
Proof.
  intros p. induction s as [|x s IH]; intros c H; simpl in H; [exact H|].
  destruct (p x); [right; apply IH; exact H|exact H].
Qed.

Lemma rstrip_in : forall chars s c, In c (Str.rstrip chars s) -> In c s.
Proof.
  intros chars s c H. unfold Str.rstrip, Str.rstrip_with in H.
  apply in_rev in H. apply lstrip_with_in in H. apply in_rev. exact H.
Qed.

Lemma set_add_in : forall x y l, In y (Py.set_add x l) <-> y = x \/ In y l.
Proof.
  intros x y l. unfold Py.set_add. destruct (existsb (Str.eqb x) l) eqn:E.
  - split; [auto|]. intros [->|H]; [|exact H].
    apply existsb_exists in E. destruct E as [z [Hz Hxz]].
    apply str_eqb_eq in Hxz. subst. exact Hz.
  - rewrite in_app_iff. simpl. split; intros H; intuition auto.
Qed.

Lemma set_add_nodup : forall x l, NoDup l -> NoDup (Py.set_add x l).
Proof.
  intros x l H. unfold Py.set_add. destruct (existsb (Str.eqb x) l) eqn:E; [exact H|].
  apply NoDup_app; [exact H|constructor; [intros []|constructor]|].
  intros y Hy Hin. destruct Hin as [Heq|[]]. subst y.
  assert (existsb (Str.eqb x) l = true); [|congruence].
  apply existsb_exists. exists x. split; [exact Hy|apply str_eqb_refl].
Qed.

Lemma lstrip_with_head : forall p s c t,
    Str.lstrip_with p s = c :: t -> p c = false.
Proof.
  intros p. induction s as [|x s IH]; intros c t H; simpl in H; [discriminate|].
  destruct (p x) eqn:E; [eapply IH; exact H|]. inversion H; subst. exact E.
Qed.

Lemma rstrip_not_ending : forall chars s t c,
    Str.rstrip chars s = t ++ [c] -> existsb (N.eqb c) chars = false.
Proof.
  intros chars s t c H. unfold Str.rstrip, Str.rstrip_with in H.
  apply (f_equal (@rev char)) in H. rewrite rev_involutive, rev_app_distr in H.
  simpl in H. apply lstrip_with_head in H. exact H.
Qed.

Section LinkFacts.
Variable L : PyLib.
Variable self : MKBScraper.

Lemma detail_link_in_scope : forall href url,
    detail_link L self href = Returned (Some url) <-> in_scope_link L self href url.
Proof.
  intros href url. unfold detail_link, in_scope_link, and_then.
  set (h := Str.strip href).
  set (root := Str.rstrip (u "/") (index_path self)).
  destruct h as [|h0 h'] eqn:Eh.
  { simpl. split; [discriminate|]. intros [H _]. congruence. }
  rewrite <- Eh. replace (Str.truthy h) with true by (rewrite Eh; reflexivity).
  change (negb true) with false. rewrite orb_false_l.
  destruct (Str.startswith (u "#") h) eqn:Ehash.
  { split; [discriminate|]. intros (_ & H & _). discriminate H. }
  destruct (urljoin L (index_url self) h) as [absolute|e] eqn:Ej.
  2: { split; [discriminate|]. intros (_ & _ & a & p & b & H & _). discriminate H. }
  destruct (urlparse L absolute) as [parsed|e] eqn:Epar.
  2: { split; [discriminate|]. intros (_ & _ & a & p & b & Ha & Hp & _).
       inversion Ha; subst a. rewrite Epar in Hp. discriminate Hp. }
  set (pth := Str.rstrip (u "/") (path parsed)).
  assert (Hslash : pth <> root ++ u "/").
  { intros E. apply rstrip_not_ending in E. discriminate E. }
  assert (Hsame : forall a p b (P : str -> ParseResult -> ParseResult -> Prop),
             Returned absolute = Returned a /\ urlparse L a = Returned p
             /\ urlparse L (base_url self) = Returned b /\ P a p b ->
             a = absolute /\ p = parsed /\ urlparse L (base_url self) = Returned b
             /\ P a p b).
  { intros a p b P (Ha & Hp & Hb & HP). inversion Ha; subst a.
    rewrite Epar in Hp. inversion Hp; subst p. auto. }
  cbn [existsb].
  destruct (Str.eqb (scheme parsed) (u "http")) eqn:E1;
    [apply str_eqb_eq in E1|apply str_eqb_neq in E1];
    (destruct (Str.eqb (scheme parsed) (u "https")) eqn:E2;
     [apply str_eqb_eq in E2|apply str_eqb_neq in E2]); cbn [orb negb].
  1: { rewrite E1 in E2. discriminate E2. }
  3: { split; [discriminate|]. intros (_ & _ & a & p & b & H).
       apply (Hsame a p b (fun a p b => _ /\ _)) in H.
       destruct H as (-> & -> & _ & [H|H] & _); contradiction. }
  all: destruct (urlparse L (base_url self)) as [base|e] eqn:Eb;
    [|split; [discriminate|]; intros (_ & _ & a & p & b & H);
      apply (Hsame a p b (fun a p b => _ /\ _)) in H;
      destruct H as (_ & _ & H & _); discriminate H].
  all: destruct (Str.eqb (netloc parsed) (netloc base)) eqn:En;
    [apply str_eqb_eq in En|apply str_eqb_neq in En]; cbn [negb];
    try (split; [discriminate|]; intros (_ & _ & a & p & b & H);
         apply (Hsame a p b (fun a p b => _ /\ _)) in H;
         destruct H as (-> & -> & Hb & _ & H & _); inversion Hb; subst b; contradiction).
  all: fold pth; fold root.
  all: destruct (Str.eqb pth root) eqn:Er;
    [apply str_eqb_eq in Er|apply str_eqb_neq in Er]; cbn [orb];
    try (split; [discriminate|]; intros (_ & _ & a & p & b & H);
         apply (Hsame a p b (fun a p b => _ /\ _)) in H;
         destruct H as (-> & -> & _ & _ & _ & H & _); contradiction).
  all: destruct (Str.eqb pth (root ++ u "/")) eqn:Es;
    [apply str_eqb_eq in Es; contradiction|]; cbn [orb].
  all: destruct (Str.startswith root pth) eqn:Ep; cbn [negb];
    try (split; [discriminate|]; intros (_ & _ & a & p & b & H);
         apply (Hsame a p b (fun a p b => _ /\ _)) in H;
         destruct H as (-> & -> & _ & _ & _ & _ & H & _); fold pth in H; fold root in H;
         congruence).
  all: split;
    [ intros H; inversion H; subst; split; [rewrite Eh; discriminate|];
      split; [reflexivity|]; exists absolute, parsed, base; repeat split; auto
    | intros (_ & _ & a & p & b & H);
      apply (Hsame a p b (fun a p b => _ /\ _)) in H;
      destruct H as (-> & -> & _ & _ & _ & _ & _ & ->); reflexivity ].
Qed.

(** What the loop raises is a [ValueError]. *)
Lemma detail_link_raised : forall href e,
    detail_link L self href = Raised e -> exists detail, e = ValueError detail.
Proof.
  intros href e. unfold detail_link, and_then.
  destruct (negb (Str.truthy (Str.strip href)) || Str.startswith (u "#") (Str.strip href));
    [discriminate|].
  destruct (urljoin L (index_url self) (Str.strip href)) as [absolute|e1] eqn:Ej;
    [|intros H; inversion H; subst; eapply urljoin_raises; exact Ej].
  destruct (urlparse L absolute) as [parsed|e1] eqn:Ep;
    [|intros H; inversion H; subst; eapply urlparse_raises; exact Ep].
  destruct (negb (existsb (Str.eqb (scheme parsed)) [u "http"; u "https"]));
    [discriminate|].
  destruct (urlparse L (base_url self)) as [base|e1] eqn:Eb;
    [|intros H; inversion H; subst; eapply urlparse_raises; exact Eb].
  destruct (negb (Str.eqb (netloc parsed) (netloc base))); [discriminate|].
  destruct (existsb _ _); [discriminate|].
  destruct (negb _); discriminate.
Qed.

Lemma gather_in : forall hrefs init links url,
    gather L self hrefs init = Returned links ->
    (In url links
     <-> In url init
         \/ exists href, In href hrefs /\ detail_link L self href = Returned (Some url)).
Proof.
  induction hrefs as [|h hs IH]; intros init links url; cbn [gather]; unfold and_then.
  - intros H. inversion H; subst. split; [auto|]. intros [H'|[href [[] _]]]. exact H'.
  - destruct (detail_link L self h) as [found|e] eqn:E; [|discriminate].
    intros H. rewrite (@IH _ links url H). destruct found as [link|].
    + rewrite set_add_in. split.
      * intros [[->|H']|[href [Hin Hd]]].
        -- right. exists h. split; [left; reflexivity|exact E].
        -- left. exact H'.
        -- right. exists href. split; [right; exact Hin|exact Hd].
      * intros [H'|[href [[->|Hin] Hd]]].
        -- left. right. exact H'.
        -- left. left. congruence.
        -- right. exists href. split; assumption.
    + split.
      * intros [H'|[href [Hin Hd]]].
        -- left. exact H'.
        -- right. exists href. split; [right; exact Hin|exact Hd].
      * intros [H'|[href [[->|Hin] Hd]]].
        -- left. exact H'.
        -- congruence.
        -- right. exists href. split; assumption.
Qed.

Lemma gather_nodup : forall hrefs init links,
    gather L self hrefs init = Returned links -> NoDup init -> NoDup links.
Proof.
  induction hrefs as [|h hs IH]; intros init links; cbn [gather]; unfold and_then.
  - intros H Hn. inversion H; subst. exact Hn.
  - destruct (detail_link L self h) as [found|e]; [|discriminate].
    intros H Hn. apply (@IH _ links H).
    destruct found; [apply set_add_nodup|]; exact Hn.
Qed.

(** The loop returns exactly when every target goes through it. *)
Lemma gather_returns : forall hrefs init,
    (exists links, gather L self hrefs init = Returned links)
    <-> forall href, In href hrefs -> resolves L self href.
Proof.
  induction hrefs as [|h hs IH]; intros init; cbn [gather]; unfold and_then.
  - split; [intros _ href []|]. intros _. eexists. reflexivity.
  - destruct (detail_link L self h) as [found|e] eqn:E.
    + rewrite IH. split.
      * intros H href [<-|Hin]; [exists found; exact E|apply H; exact Hin].
      * intros H href Hin. apply H. right. exact Hin.
    + split.
      * intros [links H]. discriminate H.
      * intros H. destruct (H h (or_introl eq_refl)) as [found Hf]. congruence.
Qed.

(** What the loop raises is what the first failing target raises. *)
Lemma gather_raised : forall hrefs init e,
    gather L self hrefs init = Raised e ->
    exists before href after,
      hrefs = before ++ href :: after
      /\ (forall h, In h before -> resolves L self h)
      /\ detail_link L self href = Raised e.
Proof.
  induction hrefs as [|h hs IH]; intros init e; cbn [gather]; unfold and_then; [discriminate|].
  destruct (detail_link L self h) as [found|e1] eqn:E.
  - intros H. apply IH in H. destruct H as (before & href & after & -> & Hb & Hd).
    exists (h :: before), href, after. split; [reflexivity|]. split; [|exact Hd].
    intros h' [<-|Hin]; [exists found; exact E|apply Hb; exact Hin].
  - intros H. inversion H; subst. exists [], h, hs.
    split; [reflexivity|]. split; [intros h' []|exact E].
Qed.

Lemma discover_gathered : forall soup pages,
    _discover_detail_pages L self soup = Returned pages ->
    exists links,
      gather L self (anchors soup) [] = Returned links
      /\ pages = Py.sorted Str.ltb links.
Proof.
  intros soup pages. unfold _discover_detail_pages, and_then.
  destruct (gather L self (anchors soup) []) as [links|e]; [|discriminate].
  intros H. inversion H; subst. exists links. split; reflexivity.
Qed.

Lemma discover_in : forall soup pages url,
    _discover_detail_pages L self soup = Returned pages ->
    (In url pages
     <-> exists href, In href (anchors soup) /\ in_scope_link L self href url).
Proof.
  intros soup pages url H. apply discover_gathered in H.
  destruct H as (links & Hg & ->). rewrite sorted_in, (@gather_in (anchors soup) [] links url Hg). split.
  - intros [[]|[href [Hh Hd]]]. exists href. split; [exact Hh|].
    apply detail_link_in_scope. exact Hd.
  - intros [href [Hh Hd]]. right. exists href. split; [exact Hh|].
    apply detail_link_in_scope. exact Hd.
Qed.

Lemma discover_increasing : forall soup pages,
    _discover_detail_pages L self soup = Returned pages ->
    StronglySorted (fun a b => Str.ltb a b = true) pages.
Proof.
  intros soup pages H. apply discover_gathered in H.
  destruct H as (links & Hg & ->).
  apply sorted_strongly; [apply str_ltb_trans|apply str_ltb_total|].
  apply (@gather_nodup (anchors soup) [] links Hg). constructor.
Qed.

Lemma discover_nodup : forall soup pages,
    _discover_detail_pages L self soup = Returned pages -> NoDup pages.
Proof.
  intros soup pages H. apply discover_gathered in H.
  destruct H as (links & Hg & ->).
  apply sorted_nodup. apply (@gather_nodup (anchors soup) [] links Hg). constructor.
Qed.

Lemma discover_returns : forall soup,
    (exists pages, _discover_detail_pages L self soup = Returned pages)
    <-> forall href, In href (anchors soup) -> resolves L self href.
Proof.
  intros soup. rewrite <- (gather_returns (anchors soup) []).
  unfold _discover_detail_pages, and_then.
  destruct (gather L self (anchors soup) []) as [links|e].
  - split; intros _; eexists; reflexivity.
  - split; intros [x H]; discriminate H.
Qed.

Lemma discover_raised : forall soup e,
    _discover_detail_pages L self soup = Raised e ->
    exists before href after,
      anchors soup = before ++ href :: after
      /\ (forall h, In h before -> resolves L self h)
      /\ detail_link L self href = Raised e.
Proof.
  intros soup e. unfold _discover_detail_pages, and_then.
  destruct (gather L self (anchors soup) []) as [links|e1] eqn:E; [discriminate|].
  intros H. inversion H; subst. eapply gather_raised. exact E.
Qed.

End LinkFacts.


(** On [index_page], for the site's own configuration, two detail pages are
    found, each once. *)
Lemma discovered_pages_example :
  _discover_detail_pages Reference.lib (__init__ BASE_URL INDEX_PATH 0) index_page
  = Returned [u "https://www.stetoskop.info/mkb/a00-b99";
              u "https://www.stetoskop.info/mkb/c00-d48"].
Proof. vm_compute. reflexivity. Qed.


(** ** The run *)

Section FetchFacts.
Variable L : PyLib.
Variable E : Env.
Variable self : MKBScraper.

(** [_fetch] is one call of the session; it raises what the call raises, and
    [HTTPError] on a 4xx or 5xx status. *)
Lemma fetch_once : forall url w,
    _fetch E url w
    = match session_get E url w with
      | (Returned resp, w') =>
        if ((400 <=? status_code resp) && (status_code resp <? 600))%N
        then (Raised (HTTPError (status_code resp)), w')
        else (Returned (text resp), w')
      | (Raised e, w') => (Raised e, w')
      end.
Proof.
  intros url w. unfold _fetch, bind. destruct (session_get E url w) as [[resp|e] w'].
  - destruct ((400 <=? status_code resp) && (status_code resp <? 600))%N; reflexivity.
  - reflexivity.
Qed.

(** One turn of the loop over the detail pages. *)
Lemma fetch_pages_cons : forall page rest entries w,
    fetch_pages L E self (page :: rest) entries w
    = match _fetch E page (logger E INFO (Message.fetching_detail page) w) with
      | (Returned html, w1) =>
        let page_entries := _parse_entries L (html_parser E html) in
        let w2 := logger E DEBUG (Message.found (length page_entries) page) w1 in
        fetch_pages L E self rest (entries ++ page_entries)
                    (if (delay self =? 0)%Z then w2 else time_sleep E (delay self) w2)
      | (Raised e, w1) => (Raised e, w1)
      end.
Proof.
  intros page rest entries w. cbn [fetch_pages]. unfold bind, effect.
  destruct (_fetch E page (logger E INFO (Message.fetching_detail page) w))
    as [[html|e] w1]; [|reflexivity].
  destruct (delay self =? 0)%Z; reflexivity.
Qed.

Lemma fetch_pages_app : forall done rest entries w,
    fetch_pages L E self (done ++ rest) entries w
    = match fetch_pages L E self done entries w with
      | (Returned entries', w') => fetch_pages L E self rest entries' w'
      | (Raised e, w') => (Raised e, w')
      end.
Proof.
  induction done as [|page done IH]; intros rest entries w; [reflexivity|].
  rewrite <- app_comm_cons, !fetch_pages_cons.
  destruct (_fetch E page (logger E INFO (Message.fetching_detail page) w))
    as [[html|e] w1]; [|reflexivity].
  cbv zeta. apply IH.
Qed.

Lemma fetch_pages_raises : forall page rest entries w e w',
    _fetch E page (logger E INFO (Message.fetching_detail page) w) = (Raised e, w') ->
    fetch_pages L E self (page :: rest) entries w = (Raised e, w').
Proof.
  intros page rest entries w e w' H. rewrite fetch_pages_cons, H. reflexivity.
Qed.

(** The run, step by step: the index page, the links, the detail pages,
    the merger and the sort, with what is logged on the way. *)
Lemma scrape_steps : forall w,
    scrape L E self w
    = match _fetch E (index_url self)
                   (logger E INFO (Message.fetching_index (index_url self)) w) with
      | (Raised e, w1) => (Raised e, w1)
      | (Returned index_html, w1) =>
        let soup := html_parser E index_html in
        match _discover_detail_pages L self soup with
        | Raised e => (Raised e, w1)
        | Returned pages =>
          match fetch_pages L E self pages (_parse_entries L soup)
                            (logger E INFO (Message.discovered (length pages)) w1) with
          | (Raised e, w2) => (Raised e, w2)
          | (Returned entries, w2) =>
            (Py.sorted_by (fun entry => _code_sort_key L (code entry)) sort_key_ltb
                          (_deduplicate entries),
             logger E INFO (Message.collected (length (_deduplicate entries))) w2)
          end
        end
      end.
Proof.
  intros w. unfold scrape, bind, effect, lift.
  destruct (_fetch E (index_url self)
                   (logger E INFO (Message.fetching_index (index_url self)) w))
    as [[index_html|e] w1]; [|reflexivity].
  cbv zeta. rewrite app_nil_l.
  destruct (_discover_detail_pages L self (html_parser E index_html)) as [pages|e];
    [|reflexivity].
  destruct (fetch_pages L E self pages (_parse_entries L (html_parser E index_html))
                        (logger E INFO (Message.discovered (length pages)) w1))
    as [[entries|e] w2]; reflexivity.
Qed.

End FetchFacts.

(** C9. A failed fetch fails the run. A fetch is one call of the session
    and fails when the call raises or answers with a 4xx or 5xx status. When
    fetching the index page raises, [scrape] raises the same exception; when
    the index page and the detail pages before some page were fetched and
    fetching that page raises, [scrape] raises the same exception. In both
    cases no entry list is returned and the world is left as the failed call
    left it: nothing is fetched again or afterwards. A run that returns
    entries fetched the index page and every detail page without a failure;
    its entries are the merged entries of the pages, sorted. *)
Theorem C9_fetch_failure_fails_the_run :
  forall (L : PyLib) (E : Env) (self : MKBScraper) (w : world E),
    (forall url w0,
        _fetch E url w0
        = match session_get E url w0 with
          | (Returned resp, w') =>
            if ((400 <=? status_code resp) && (status_code resp <? 600))%N
            then (Raised (HTTPError (status_code resp)), w')
            else (Returned (text resp), w')
          | (Raised e, w') => (Raised e, w')
          end)
    /\ (forall e w',
        _fetch E (index_url self) (logger E INFO (Message.fetching_index (index_url self)) w)
        = (Raised e, w') ->
        scrape L E self w = (Raised e, w'))
    /\ (forall index_html w1 done page rest entries w2 e w3,
           _fetch E (index_url self)
                  (logger E INFO (Message.fetching_index (index_url self)) w)
           = (Returned index_html, w1) ->
           _discover_detail_pages L self (html_parser E index_html)
           = Returned (done ++ page :: rest) ->
           fetch_pages L E self done (_parse_entries L (html_parser E index_html))
                       (logger E INFO (Message.discovered (length (done ++ page :: rest))) w1)
           = (Returned entries, w2) ->
           _fetch E page (logger E INFO (Message.fetching_detail page) w2) = (Raised e, w3) ->
           scrape L E self w = (Raised e, w3))
    /\ (forall entries w',
           scrape L E self w = (Returned entries, w') ->
           exists index_html w1 pages fetched w2,
             _fetch E (index_url self)
                    (logger E INFO (Message.fetching_index (index_url self)) w)
             = (Returned index_html, w1)
             /\ _discover_detail_pages L self (html_parser E index_html) = Returned pages
             /\ fetch_pages L E self pages (_parse_entries L (html_parser E index_html))
                            (logger E INFO (Message.discovered (length pages)) w1)
                = (Returned fetched, w2)
             /\ Py.sorted_by (fun entry => _code_sort_key L (code entry)) sort_key_ltb
                             (_deduplicate fetched)
                = Returned entries
             /\ w' = logger E INFO (Message.collected (length (_deduplicate fetched))) w2).
Proof.
  intros L E self w. split; [apply fetch_once|split; [|split]].
  - intros e w' H. rewrite scrape_steps, H. reflexivity.
  - intros index_html w1 done page rest entries w2 e w3 Hi Hp Hd Hf.
    rewrite scrape_steps, Hi. cbv zeta. rewrite Hp.
    rewrite fetch_pages_app. rewrite Hd.
    erewrite fetch_pages_raises; [reflexivity|exact Hf].
  - intros entries w' H. rewrite scrape_steps in H.
    destruct (_fetch E (index_url self)
                     (logger E INFO (Message.fetching_index (index_url self)) w))
      as [[index_html|e] w1] eqn:Hi; [|discriminate].
    cbv zeta in H.
    destruct (_discover_detail_pages L self (html_parser E index_html))
      as [pages|e] eqn:Hdisc; [|discriminate].
    destruct (fetch_pages L E self pages (_parse_entries L (html_parser E index_html))
                          (logger E INFO (Message.discovered (length pages)) w1))
      as [[fetched|e] w2] eqn:Hp; [|discriminate].
    inversion H as [[Hs Hw]]. exists index_html, w1, pages, fetched, w2.
    repeat split; try reflexivity; assumption.
Qed.

(** On [flaky_site] the index page and the first detail page are fetched,
    the second detail page answers 503, and the run ends there with
    [HTTPError]: three requests were made. *)
Lemma C9_flaky_site_run_fails :
  scrape Reference.lib flaky_site (__init__ BASE_URL INDEX_PATH 0) 0
  = (Raised (HTTPError 503), 3).
Proof.
  apply (proj1 (proj2 (proj2 (C9_fetch_failure_fails_the_run
                                Reference.lib flaky_site (__init__ BASE_URL INDEX_PATH 0) 0)))
               INDEX_URL 1 [u "https://www.stetoskop.info/mkb/a00-b99"] failing_page []
               [] 2).
  - vm_compute. reflexivity.
  - vm_compute. reflexivity.
  - vm_compute. reflexivity.
  - vm_compute. reflexivity.
Defined.

Lemma span_run : forall (p : char -> bool) s,
    exists w v, s = w ++ v /\ forallb p w = true /\ stops p v.
Proof.
  intros p. induction s as [|c s IH].
  - exists [], []. repeat split.
  - destruct (p c) eqn:E.
    + destruct IH as (w & v & Hs & Hw & Hv). exists (c :: w), v.
      simpl. rewrite E, Hw, Hs. repeat split. exact Hv.
    + exists [], (c :: s). repeat split. exact E.
Qed.

Lemma pipe_not_space : Re.space (chr "|") = false.
Proof. reflexivity. Qed.

(** ** The free-text strategy *)

Section SplitFacts.
Variable R : Type.

(** Where the text does not start with two whitespace characters the
    pattern of the delimiters does not match. *)
Lemma parts_no_match : forall (k : Re.cont R) i s g,
    starts_wide s = false -> Re.exec PARTS_RE i s g k = None.
Proof.
  intros k i s g H. unfold PARTS_RE. simpl.
  destruct s as [|c1 [|c2 s]]; simpl in *.
  - reflexivity.
  - destruct (Re.space c1); reflexivity.
  - destruct (Re.space c1); [|reflexivity]. simpl in H. rewrite H. reflexivity.
Qed.

(** At a wide gap that a piece follows the pattern matches the gap. *)
Lemma parts_match_gap : forall (k : Re.cont R) w v i g x,
    wide_gap w ->
    match v with [] => True | c :: _ => Re.space c = false /\ c <> chr "|" end ->
    k (i + length w) v g = Some x ->
    Re.exec PARTS_RE i (w ++ v) g k = Some x.
Proof.
  intros k w v i g x (Hlen & Hw & _) Hv Hk. unfold PARTS_RE.
  assert (Hstop : stops Re.space v).
  { destruct v; [exact I|]. simpl. apply Hv. }
  rewrite exec_alt.
  rewrite (@exec_atleast_run R Re.space k 2 w v i g x Hw Hlen Hstop Hk).
  destruct w as [|c1 [|c2 w]]; simpl in Hlen; try lia.
  simpl in Hw. apply andb_true_iff in Hw. destruct Hw as [H1 Hw].
  apply andb_true_iff in Hw. destruct Hw as [H2 Hw].
  rewrite exec_cat. simpl app.
  rewrite exec_atleast_succ, exec_cls_cons, H1.
  rewrite exec_atleast_succ, exec_cls_cons, H2.
  rewrite exec_atleast_zero_cls.
  rewrite greedy_none; [reflexivity|exact Hw|exact Hstop|].
  intros w1 w2 Ew. rewrite exec_cat. destruct w2 as [|c w2]; simpl app.
  - destruct v as [|c v]; [reflexivity|]. destruct Hv as [_ Hv].
    rewrite exec_cls_cons. unfold Re.lit.
    destruct (c =? chr "|")%N eqn:Ec; [|reflexivity].
    apply N.eqb_eq in Ec. contradiction.
  - assert (Hc : Re.space c = true).
    { subst w. rewrite forallb_app in Hw. apply andb_true_iff in Hw.
      destruct Hw as [_ Hw]. simpl in Hw. apply andb_true_iff in Hw. apply Hw. }
    rewrite exec_cls_cons. unfold Re.lit.
    destruct (c =? chr "|")%N eqn:Ec; [|reflexivity].
    apply N.eqb_eq in Ec. subst c. discriminate Hc.
Qed.

(** At a pipe between two wide gaps the pattern matches all three. *)
Lemma parts_match_pipe : forall (k : Re.cont R) w1 w2 v i g x,
    wide_gap w1 -> wide_gap w2 -> stops Re.space v ->
    k (i + length (w1 ++ chr "|" :: w2)) v g = Some x ->
    Re.exec PARTS_RE i ((w1 ++ chr "|" :: w2) ++ v) g k = Some x.
Proof.
  intros k w1 w2 v i g x (Hlen1 & Hw1 & _) (Hlen2 & Hw2 & _) Hv Hk. unfold PARTS_RE.
  change (Re.exec (Re.Alt ?a ?b) ?i ?s ?g ?k)
    with (match Re.exec a i s g k with Some y => Some y | None => Re.exec b i s g k end).
  change (Re.exec (Re.Cat ?a ?b) ?i ?s ?g ?k)
    with (Re.exec a i s g (fun i' s' g' => Re.exec b i' s' g' k)).
  rewrite <- app_assoc.
  rewrite (@exec_atleast_run R Re.space _ 2 w1 _ i g x); [reflexivity|exact Hw1|exact Hlen1| |].
  - simpl. reflexivity.
  - cbv beta.
    change (Re.exec (Re.Cat ?a ?b) ?i ?s ?g ?k)
      with (Re.exec a i s g (fun i' s' g' => Re.exec b i' s' g' k)).
    simpl app.
    change (Re.exec (Re.Cls ?p) ?i (?c :: ?s) ?g ?k)
      with (if p c then k (S i) s g else None).
    change (Re.lit "|" (chr "|")) with true. cbv beta iota.
    apply exec_atleast_run; [exact Hw2|exact Hlen2|exact Hv|].
    rewrite <- Hk. f_equal. rewrite length_app. simpl. lia.
Qed.

End SplitFacts.

Lemma tight_not_wide : forall c p rest,
    tight (c :: p) = true -> starts_wide ((c :: p) ++ rest) = false.
Proof.
  intros c p rest H. simpl in *. destruct p as [|c' p]; simpl.
  - apply negb_true_iff in H. destruct rest; [reflexivity|]. rewrite H. reflexivity.
  - apply andb_true_iff in H. destruct H as [H _]. apply negb_true_iff in H. exact H.
Qed.

Lemma tight_tail : forall c p, tight (c :: p) = true -> tight p = true.
Proof.
  intros c p H. simpl in H. destruct p as [|c' p]; [reflexivity|].
  apply andb_true_iff in H. apply H.
Qed.

Lemma tight_last : forall p c t, tight p = true -> rev p = c :: t -> Re.space c = false.
Proof.
  induction p as [|x p IH]; intros c t H E; [discriminate|].
  destruct p as [|y p].
  - simpl in *. inversion E; subst. apply negb_true_iff. exact H.
  - apply tight_tail in H. simpl in E.
    destruct (rev p ++ [y]) as [|z r] eqn:Er.
    + destruct (rev p); discriminate.
    + simpl in E. inversion E; subst. eapply IH; [exact H|]. simpl. exact Er.
Qed.

Lemma strip_piece : forall s, piece s -> Str.strip s = s.
Proof.
  intros s (Ht & _ & c & t & -> & Hc & _). unfold Str.strip, Str.rstrip_with.
  simpl Str.lstrip_with. change (Str.isspace c) with (Re.space c). rewrite Hc.
  destruct (rev (c :: t)) as [|x r] eqn:E.
  - apply (f_equal (@rev char)) in E. rewrite rev_involutive in E. discriminate E.
  - simpl Str.lstrip_with. change (Str.isspace x) with (Re.space x).
    rewrite (tight_last _ Ht E). rewrite <- E. apply rev_involutive.
Qed.

Lemma piece_truthy : forall s, piece s -> Str.truthy s = true.
Proof. intros s (_ & _ & c & t & -> & _). reflexivity. Qed.

Lemma split_through_piece : forall p n i cur rest,
    tight p = true ->
    Re.split_from PARTS_RE (length p + n) i cur (p ++ rest)
    = Re.split_from PARTS_RE n (i + length p) (rev p ++ cur) rest.
Proof.
  induction p as [|c p IH]; intros n i cur rest H.
  - simpl. rewrite Nat.add_0_r. reflexivity.
  - simpl Datatypes.length. simpl Nat.add. simpl Re.split_from.
    unfold Re.match_at. rewrite parts_no_match by (apply tight_not_wide; exact H).
    simpl app. rewrite IH by (eapply tight_tail; exact H).
    rewrite <- app_assoc. simpl. f_equal. lia.
Qed.

Lemma split_end : forall n i cur, Re.split_from PARTS_RE (S n) i cur [] = [rev cur].
Proof. reflexivity. Qed.

Lemma wide_gap_length : forall d, delimiter d -> 2 <= length d.
Proof.
  intros d [(H & _)|(w1 & w2 & (H1 & _) & _ & ->)]; [exact H|].
  rewrite length_app. lia.
Qed.

Lemma split_at_delimiter : forall d v n i cur,
    delimiter d ->
    match v with [] => True | c :: _ => Re.space c = false /\ c <> chr "|" end ->
    Re.split_from PARTS_RE (S n) i cur (d ++ v)
    = rev cur :: Re.split_from PARTS_RE n (i + length d) [] v.
Proof.
  intros d v n i cur Hd Hv. simpl Re.split_from. unfold Re.match_at.
  assert (Hk : (if length v <? length (d ++ v) then Some (i + length d, v) else None)
               = Some (i + length d, v)).
  { replace (length v <? length (d ++ v)) with true; [reflexivity|].
    symmetry. apply Nat.ltb_lt. rewrite length_app.
    pose proof (wide_gap_length Hd). lia. }
  destruct Hd as [Hw|(w1 & w2 & Hw1 & Hw2 & ->)].
  - rewrite (@parts_match_gap _ _ d v i [] _ Hw Hv Hk). reflexivity.
  - assert (Hs : stops Re.space v).
    { destruct v; [exact I|]. simpl. apply Hv. }
    rewrite (@parts_match_pipe _ _ w1 w2 v i [] _ Hw1 Hw2 Hs Hk). reflexivity.
Qed.

Lemma starts_wide_run : forall w v,
    starts_wide (w ++ v) = true -> stops Re.space v -> 2 <= length w.
Proof.
  intros w v H Hv. destruct w as [|c1 [|c2 w]]; simpl; try lia; exfalso.
  - destruct v as [|c1 [|c2 v]]; try discriminate H.
    unfold starts_wide in H. simpl in H, Hv. rewrite Hv in H. discriminate H.
  - destruct v as [|c2 v]; [discriminate H|].
    unfold starts_wide in H. simpl in H, Hv. rewrite Hv in H.
    rewrite andb_false_r in H. discriminate H.
Qed.

Lemma split_at_wide : forall s n i cur,
    starts_wide s = true ->
    exists parts, Re.split_from PARTS_RE (S n) i cur s = rev cur :: parts.
Proof.
  intros s n i cur H. simpl Re.split_from.
  assert (Hm : exists r, Re.match_at PARTS_RE i s = Some r).
  { unfold Re.match_at, PARTS_RE. rewrite exec_alt.
    match goal with
    | |- exists r, match ?e with Some y => Some y | None => _ end = Some r =>
      destruct e as [y|]; [exists y; reflexivity|]
    end.
    destruct (span_run Re.space s) as (w & v & Hs & Hw & Hv). subst s.
    pose proof (starts_wide_run _ _ H Hv) as Hlen.
    exists (i + length w, v). apply exec_atleast_run; try assumption.
    replace (length v <? length (w ++ v)) with true; [reflexivity|].
    symmetry. apply Nat.ltb_lt. rewrite length_app. lia. }
  destruct Hm as [[i' s'] Hm]. rewrite Hm. eexists. reflexivity.
Qed.

Section LineFacts.
Variable L : PyLib.

(** On a code token, whitespace and a remainder the line pattern matches,
    the code token being group 1 and the whole remainder group 2. *)
Lemma line_match : forall token gap body,
    code_shape L token ->
    gap <> [] -> forallb Re.space gap = true ->
    forallb Re.dot body = true ->
    (exists c t, body = c :: t /\ Re.space c = false) ->
    Re.match_ (LINE_RE L) (token ++ gap ++ body)
    = Some (length token + length gap + length body, [(2, body); (1, token)]).
Proof.
  intros token gap body Hc Hg Hgap Hbody (c & t & Eb & Hcs).
  assert (E : Re.match_ (LINE_RE L) (token ++ gap ++ body ++ [])
              = Some (length token + length gap + length body, [(2, body); (1, token)])).
  { unfold Re.match_, LINE_RE. rewrite exec_cat.
    change (Re.exec Re.Bol 0 ?s ?g ?k) with (k 0 s g). cbv beta.
    rewrite exec_cat.
    change (Re.exec (Re.Grp 1 ?a) ?i ?s ?g ?k)
      with (Re.exec a i s g (fun i' s' g' => k i' s' ((1, firstn (i' - i) s) :: g'))).
    apply exec_code_run; [exact Hc| |].
    { destruct gap as [|sp gap]; [congruence|]. simpl in *.
      apply andb_true_iff in Hgap. apply Hgap. }
    cbv beta. rewrite firstn_run. rewrite exec_cat.
    apply exec_plus_run; [exact Hgap|exact Hg| |].
    { subst body. simpl. exact Hcs. }
    cbv beta. rewrite exec_cat.
    apply exec_grp_plus_run; [exact Hbody|subst body; discriminate|exact I|].
    cbv beta. simpl. reflexivity. }
  rewrite app_nil_r in E. exact E.
Qed.

Lemma entry_of_parts : forall token gap body p1 parts,
    code_shape L token ->
    gap <> [] -> forallb Re.space gap = true ->
    forallb Re.dot body = true ->
    (exists c t, body = c :: t /\ Re.space c = false) ->
    piece p1 ->
    Re.split PARTS_RE body = p1 :: parts ->
    line_entries L (token ++ gap ++ body)
    = [{| code := token; serbian := p1;
          latin := match map Str.strip
                               (filter (fun part => Str.truthy (Str.strip part)) parts) with
                   | [] => []
                   | p2 :: _ => p2
                   end |}].
Proof.
  intros token gap body p1 parts Hc Hg Hgap Hbody Hhead Hp1 Hsplit.
  unfold line_entries. rewrite line_match by assumption.
  cbn [Re.group Nat.eqb]. rewrite Hsplit. cbn [filter].
  rewrite (strip_piece Hp1), (piece_truthy Hp1). cbn [map nth].
  rewrite (strip_piece Hp1).
  destruct (map Str.strip (filter (fun part => Str.truthy (Str.strip part)) parts));
    reflexivity.
Qed.

End LineFacts.

Lemma split_one_piece : forall p1, piece p1 -> Re.split PARTS_RE p1 = [p1].
Proof.
  intros p1 (Ht & _). unfold Re.split.
  assert (E : Re.split_from PARTS_RE (length p1 + 1) 0 [] (p1 ++ []) = [p1]).
  { rewrite split_through_piece by exact Ht. rewrite split_end.
    rewrite app_nil_r, rev_involutive. reflexivity. }
  rewrite app_nil_r in E. rewrite <- E. f_equal. lia.
Qed.

Lemma piece_head : forall s more,
    piece s ->
    match s ++ more with [] => True | c :: _ => Re.space c = false /\ c <> chr "|" end.
Proof.
  intros s more (_ & _ & c & t & -> & Hc & Hp). simpl. split; assumption.
Qed.

Lemma split_two_pieces : forall p1 d p2 more,
    piece p1 -> delimiter d -> piece p2 -> trailing more ->
    exists parts, Re.split PARTS_RE (p1 ++ d ++ p2 ++ more) = p1 :: p2 :: parts.
Proof.
  intros p1 d p2 more Hp1 Hd Hp2 Hmore. unfold Re.split.
  pose proof (wide_gap_length Hd) as Hlen.
  replace (S (length (p1 ++ d ++ p2 ++ more)))
    with (length p1 + S (length p2 + (length d + length more)))
    by (rewrite !length_app; lia).
  rewrite split_through_piece by apply Hp1.
  rewrite split_at_delimiter; [|exact Hd|apply piece_head; exact Hp2].
  rewrite app_nil_r, rev_involutive.
  rewrite split_through_piece by apply Hp2.
  rewrite app_nil_r.
  destruct (length d + length more) as [|n] eqn:En; [lia|].
  destruct Hmore as [->|(_ & c1 & c2 & t & -> & H1 & H2)].
  - rewrite split_end. rewrite rev_involutive. exists []. reflexivity.
  - destruct (@split_at_wide (c1 :: c2 :: t) n
                             (0 + length p1 + length d + length p2) (rev p2))
      as [parts Hparts].
    { unfold starts_wide. rewrite H1, H2. reflexivity. }
    rewrite Hparts. rewrite rev_involutive. exists parts. reflexivity.
Qed.

Lemma delimiter_dot : forall d, delimiter d -> forallb Re.dot d = true.
Proof.
  intros d [(_ & _ & H)|(w1 & w2 & (_ & _ & H1) & (_ & _ & H2) & ->)]; [exact H|].
  rewrite forallb_app. simpl. rewrite H1, H2. reflexivity.
Qed.

Lemma trailing_dot : forall more, trailing more -> forallb Re.dot more = true.
Proof. intros more [->|(H & _)]; [reflexivity|exact H]. Qed.

Section LineEntries.
Variable L : PyLib.

Lemma line_one_piece : forall token gap p1,
    code_shape L token -> gap <> [] -> forallb Re.space gap = true -> piece p1 ->
    line_entries L (token ++ gap ++ p1)
    = [{| code := token; serbian := p1; latin := [] |}].
Proof.
  intros token gap p1 Hc Hg Hgap Hp1.
  rewrite (@entry_of_parts L token gap p1 p1 []); try assumption.
  - reflexivity.
  - apply Hp1.
  - destruct Hp1 as (_ & _ & c & t & E & Hs & _). exists c, t. split; assumption.
  - apply split_one_piece. exact Hp1.
Qed.

Lemma line_two_pieces : forall token gap p1 d p2 more,
    code_shape L token -> gap <> [] -> forallb Re.space gap = true ->
    piece p1 -> delimiter d -> piece p2 -> trailing more ->
    line_entries L (token ++ gap ++ p1 ++ d ++ p2 ++ more)
    = [{| code := token; serbian := p1; latin := p2 |}].
Proof.
  intros token gap p1 d p2 more Hc Hg Hgap Hp1 Hd Hp2 Hmore.
  destruct (split_two_pieces Hp1 Hd Hp2 Hmore) as [parts Hparts].
  rewrite (@entry_of_parts L token gap (p1 ++ d ++ p2 ++ more) p1 (p2 :: parts));
    try assumption.
  - cbn [filter]. rewrite (strip_piece Hp2), (piece_truthy Hp2). cbn [map].
    rewrite (strip_piece Hp2). reflexivity.
  - rewrite !forallb_app.
    destruct Hp1 as (_ & H1 & _). destruct Hp2 as (_ & H2 & _).
    rewrite H1, H2, (delimiter_dot Hd), (trailing_dot Hmore). reflexivity.
  - destruct Hp1 as (_ & _ & c & t & E & Hs & _). exists c, (t ++ d ++ p2 ++ more).
    subst p1. split; [reflexivity|exact Hs].
Qed.

End LineEntries.

Lemma matches_code_shape : forall L i s i' s',
    matches (CODE_RE L) (i, s) (i', s') ->
    exists token, s = token ++ s' /\ code_shape L token.
Proof.
  intros L i s i' s' Hm. unfold CODE_RE in Hm.
  inversion Hm as [| |a b st1 [i1 s1] st3 H1 H2| | | | | | | |]; subst.
  apply (matches_rep_cls Re.upper 1 2) in H1.
  destruct H1 as (letters & Hs & Hl & Hup & Hi1).
  inversion H2 as [| |a b st1 [i2 s2] st3 H3 H4| | | | | | | |]; subst.
  apply (matches_rep_cls (cls_d L) 2 2) in H3.
  destruct H3 as (digits & Hs1 & Hd & Hdig & Hi2).
  unfold Re.Opt in H4.
  inversion H4 as [| | |a b st1 st2 Hl'|a b st1 st2 Hr| | | | | |]; subst.
  - inversion Hl' as [| |a b st1 [i3 s3] st3 H5 H6| | | | | | | |]; subst.
    apply matches_cls_inv in H5. destruct H5 as (c & Hc & Hp & Hi3).
    apply (matches_rep_cls cls_09AZ 1 4) in H6.
    destruct H6 as (tail & Hs3 & Ht & Htail & Hi4).
    unfold Re.lit in Hp. apply N.eqb_eq in Hp. subst.
    exists (letters ++ digits ++ chr "." :: tail). split.
    + rewrite <- !app_assoc. reflexivity.
    + exists letters, digits, (chr "." :: tail).
      repeat split; try assumption; simpl in *; try lia.
      right. exists tail. repeat split; try assumption; lia.
  - inversion Hr; subst. exists (letters ++ digits). split.
    + rewrite <- app_assoc. reflexivity.
    + exists letters, digits, []. rewrite app_nil_r.
      repeat split; try assumption; simpl in *; try lia. left. reflexivity.
Qed.

Lemma line_without_code : forall L line,
    (forall token v, line = token ++ v -> ~ code_shape L token) ->
    line_entries L line = [].
Proof.
  intros L line Hno. unfold line_entries, Re.match_.
  destruct (Re.exec (LINE_RE L) 0 line [] (fun i _ g => Some (i, g))) as [[n g]|] eqn:E;
    [exfalso|reflexivity].
  apply exec_sound in E. destruct E as (i' & s' & g' & Hm & _).
  unfold LINE_RE in Hm.
  inversion Hm as [| |a b st1 [i1 s1] st3 H1 H2| | | | | | | |]; subst.
  inversion H1; subst.
  inversion H2 as [| |a b st1 [i2 s2] st3 H3 H4| | | | | | | |]; subst.
  inversion H3 as [| | | | | | |n' a st1 st2 H3'| | |]; subst.
  apply matches_code_shape in H3'. destruct H3' as (token & Hs & Hc).
  exact (Hno token s2 Hs Hc).
Qed.

Ltac piece_of :=
  split; [reflexivity|split; [reflexivity|]];
  eexists; eexists; split; [reflexivity|split; [reflexivity|discriminate]].

Ltac wide_gap_of := split; [simpl; lia|split; reflexivity].

Ltac token_A00 :=
  shape_of (u "A") (u "00") (@nil char); left; reflexivity.

(** C8, as amended. The free-text strategy matches a line against a leading
    code token, whitespace and a non-empty remainder, and a line that does
    not start with a code token gives no entry. The remainder is cut at
    every run of two or more whitespace characters, a pipe being part of the
    cut only when such a run stands on each side of it; the first piece is
    the primary description and the second, when there is one, the secondary
    description, and what follows the second piece is dropped. So
    "A00   Kolera   Cholera" gives (A00, Kolera, Cholera) and "foo bar"
    gives nothing, while a pipe between single spaces does not split:
    "A00 Kolera | Cholera" gives (A00, "Kolera | Cholera") with no secondary
    description. *)
Theorem C8_free_text_line : forall L : PyLib,
    (forall token gap p1,
        code_shape L token -> gap <> [] -> forallb Re.space gap = true -> piece p1 ->
        line_entries L (token ++ gap ++ p1)
        = [{| code := token; serbian := p1; latin := [] |}])
    /\ (forall token gap p1 d p2 more,
           code_shape L token -> gap <> [] -> forallb Re.space gap = true ->
           piece p1 -> delimiter d -> piece p2 -> trailing more ->
           line_entries L (token ++ gap ++ p1 ++ d ++ p2 ++ more)
           = [{| code := token; serbian := p1; latin := p2 |}])
    /\ (forall line,
           (forall token v, line = token ++ v -> ~ code_shape L token) ->
           line_entries L line = [])
    /\ line_entries L (u "A00   Kolera   Cholera")
       = [{| code := u "A00"; serbian := u "Kolera"; latin := u "Cholera" |}]
    /\ line_entries L (u "foo bar") = []
    /\ line_entries L (u "A00 Kolera  |  Cholera")
       = [{| code := u "A00"; serbian := u "Kolera"; latin := u "Cholera" |}]
    /\ line_entries L (u "A00 Kolera | Cholera")
       = [{| code := u "A00"; serbian := u "Kolera | Cholera"; latin := [] |}]
    /\ line_entries L (u "A00 a  b  c")
       = [{| code := u "A00"; serbian := u "a"; latin := u "b" |}].
Proof.
  intros L.
  split; [apply line_one_piece|]. split; [apply line_two_pieces|].
  split; [apply line_without_code|].
  split.
  { apply (@line_two_pieces L (u "A00") (u "   ") (u "Kolera") (u "   ") (u "Cholera") []);
      [token_A00|discriminate|reflexivity|piece_of|left; wide_gap_of|piece_of
       |left; reflexivity]. }
  split; [reflexivity|].
  split.
  { apply (@line_two_pieces L (u "A00") (u " ") (u "Kolera") (u "  |  ") (u "Cholera") []);
      [token_A00|discriminate|reflexivity|piece_of| |piece_of|left; reflexivity].
    right. exists (u "  "), (u "  "). split; [wide_gap_of|split; [wide_gap_of|reflexivity]]. }
  split.
  { apply (@line_one_piece L (u "A00") (u " ") (u "Kolera | Cholera"));
      [token_A00|discriminate|reflexivity|piece_of]. }
  apply (@line_two_pieces L (u "A00") (u " ") (u "a") (u "  ") (u "b") (u "  c"));
    [token_A00|discriminate|reflexivity|piece_of|left; wide_gap_of|piece_of|].
  right. split; [reflexivity|]. exists 32%N, 32%N, (u "c"). repeat split.
Qed.

(** C8, as stated, fails: "A00 Kolera | Cholera" has a space-pipe-space
    delimiter, and the entry that comes out carries the whole remainder as
    its primary description and no secondary one; split as the
    specification says it would be (A00, Kolera, Cholera). *)
Lemma C8_single_spaced_pipe_does_not_split :
  line_entries Reference.lib (u "A00 Kolera | Cholera")
  = [{| code := u "A00"; serbian := u "Kolera | Cholera"; latin := [] |}]
  /\ line_entries_as_specified Reference.lib (u "A00 Kolera | Cholera")
     = [{| code := u "A00"; serbian := u "Kolera"; latin := u "Cholera" |}].
Proof. split; vm_compute; reflexivity. Qed.

(** ** The bounds of the scans *)

Lemma match_at_shorter : forall r i s i' s',
    Re.match_at r i s = Some (i', s') -> length s' < length s.
Proof.
  intros r i s i' s' H. unfold Re.match_at in H. apply exec_sound in H.
  destruct H as (i1 & s1 & g1 & _ & H).
  destruct (length s1 <? length s) eqn:E; [|discriminate].
  inversion H; subst. apply Nat.ltb_lt. exact E.
Qed.

(** The bound [re.split] and [re.sub] are run with is never reached: any
    bound above the length of the text gives the same result. *)
Lemma split_bound : forall r n m i cur s,
    length s < n -> length s < m ->
    Re.split_from r n i cur s = Re.split_from r m i cur s.
Proof.
  intros r. induction n as [|n IH]; intros m i cur s Hn Hm; [lia|].
  destruct m as [|m]; [lia|]. simpl.
  destruct (Re.match_at r i s) as [[i' s']|] eqn:E.
  - apply match_at_shorter in E. f_equal. apply IH; lia.
  - destruct s as [|c s]; [reflexivity|]. simpl in *. apply IH; lia.
Qed.

Lemma sub_bound : forall r repl n m i s,
    length s < n -> length s < m ->
    Re.sub_from r repl n i s = Re.sub_from r repl m i s.
Proof.
  intros r repl. induction n as [|n IH]; intros m i s Hn Hm; [lia|].
  destruct m as [|m]; [lia|]. simpl.
  destruct (Re.match_at r i s) as [[i' s']|] eqn:E.
  - apply match_at_shorter in E. f_equal. apply IH; lia.
  - destruct s as [|c s]; [reflexivity|]. simpl in *. f_equal. apply IH; lia.
Qed.

(** ** A page of text *)

Ltac no_code_prefix :=
  let E := fresh "E" in
  intros ? ? E (letters & digits & suffix & -> & Hl & Hup & Hd & Hdig & _);
  destruct letters as [|? [|? [|? ?]]]; simpl in Hl; try lia;
  destruct digits as [|? [|? [|? ?]]]; simpl in Hd; try lia;
  simpl in E; inversion E; subst; try discriminate Hup;
  simpl in Hdig; apply andb_true_iff in Hdig; destruct Hdig as [Hd1 Hd2];
  apply andb_true_iff in Hd2; destruct Hd2 as [Hd2 _];
  first [ apply cls_d_ascii in Hd1; [lia|reflexivity]
        | apply cls_d_ascii in Hd2; [lia|reflexivity] ].

Lemma text_page_entries : forall L : PyLib,
    _parse_from_text_blocks L text_page
    = [{| code := u "A00"; serbian := u "Kolera"; latin := u "Cholera" |}].
Proof.
  intros L. unfold _parse_from_text_blocks.
  replace (Str.splitlines (Soup.get_text [10%N] text_page))
    with [u "MKB-10"; u "A00" ++ u "   " ++ u "Kolera" ++ u "   " ++ u "Cholera" ++ [];
          u "foo bar"]
    by (vm_compute; reflexivity).
  change (flat_map ?f [?x; ?y; ?z]) with (f x ++ f y ++ f z ++ []).
  rewrite (@line_without_code L (u "MKB-10")) by no_code_prefix.
  replace (line_entries L (u "foo bar")) with (@nil MKBEntry) by reflexivity.
  rewrite line_two_pieces;
    [reflexivity|token_A00|discriminate|reflexivity|piece_of|left; wide_gap_of|piece_of
     |left; reflexivity].
Qed.

(** * Further properties *)

(** ** Normalised text *)

Lemma spaces_match_none : forall i s,
    stops Re.space s -> Re.match_at SPACES_RE i s = None.
Proof.
  intros i [|c s] H; unfold Re.match_at, SPACES_RE, Re.Plus.
  - reflexivity.
  - simpl in H. rewrite exec_cat, exec_cls_cons, H. reflexivity.
Qed.

Lemma spaces_match_run : forall i w v,
    w <> [] -> forallb Re.space w = true -> stops Re.space v ->
    Re.match_at SPACES_RE i (w ++ v) = Some (i + length w, v).
Proof.
  intros i w v Hne Hw Hv. unfold Re.match_at, SPACES_RE.
  apply exec_plus_run; try assumption.
  rewrite length_app.
  replace (length v <? length w + length v) with true; [reflexivity|].
  symmetry. apply Nat.ltb_lt. destruct w; [congruence|simpl; lia].
Qed.

Lemma sub_spaces_run : forall n i w v,
    w <> [] -> forallb Re.space w = true -> stops Re.space v ->
    Re.sub_from SPACES_RE (u " ") (S n) i (w ++ v)
    = 32%N :: Re.sub_from SPACES_RE (u " ") n (i + length w) v.
Proof.
  intros n i w v Hne Hw Hv. simpl Re.sub_from.
  rewrite spaces_match_run by assumption. reflexivity.
Qed.

Lemma sub_spaces_char : forall n i c s,
    Re.space c = false ->
    Re.sub_from SPACES_RE (u " ") (S n) i (c :: s)
    = c :: Re.sub_from SPACES_RE (u " ") n (S i) s.
Proof.
  intros n i c s Hc. simpl Re.sub_from.
  rewrite spaces_match_none by exact Hc. reflexivity.
Qed.

Lemma sub_spaces_nil : forall n i, Re.sub_from SPACES_RE (u " ") n i [] = [].
Proof. intros [|n] i; reflexivity. Qed.

Lemma single_spaced_cons : forall c c' t,
    single_spaced (c :: c' :: t)
    = (negb (Re.space c) || (c =? 32)%N) && negb (Re.space c && Re.space c')
      && single_spaced (c' :: t).
Proof. reflexivity. Qed.

(** What [re.sub(r"\s+", " ", s)] leaves: single spaces; and it starts with
    a whitespace character only where [s] does. *)
Lemma sub_spaces_single : forall n i s,
    length s < n ->
    single_spaced (Re.sub_from SPACES_RE (u " ") n i s) = true
    /\ (stops Re.space s -> stops Re.space (Re.sub_from SPACES_RE (u " ") n i s)).
Proof.
  induction n as [|n IH]; intros i s Hn; [lia|].
  destruct s as [|c s].
  - rewrite sub_spaces_nil. split; [reflexivity|intros _; exact I].
  - destruct (Re.space c) eqn:Hc.
    + destruct (span_run Re.space s) as (w & v & Hs & Hw & Hv). subst s.
      change (c :: w ++ v) with ((c :: w) ++ v).
      rewrite sub_spaces_run; [|discriminate|simpl; rewrite Hc, Hw; reflexivity|exact Hv].
      assert (Hlen : length v < n).
      { simpl in Hn. rewrite length_app in Hn. lia. }
      destruct (IH (i + length (c :: w)) v Hlen) as [H1 H2].
      split; [|simpl; intros H; congruence].
      specialize (H2 Hv).
      destruct (Re.sub_from SPACES_RE (u " ") n (i + length (c :: w)) v) as [|c' t].
      * reflexivity.
      * simpl in H2. rewrite single_spaced_cons, H2, andb_false_r. exact H1.
    + rewrite sub_spaces_char by exact Hc.
      assert (Hlen : length s < n) by (simpl in Hn; lia).
      destruct (IH (S i) s Hlen) as [H1 H2].
      split; [|intros _; simpl; exact Hc].
      destruct (Re.sub_from SPACES_RE (u " ") n (S i) s) as [|c' t].
      * simpl. rewrite Hc. reflexivity.
      * rewrite single_spaced_cons, Hc. exact H1.
Qed.

(** *** Stripping *)

Lemma lstrip_with_stops : forall p s, stops p s -> Str.lstrip_with p s = s.
Proof. intros p [|c s] H; simpl in *; [reflexivity|rewrite H; reflexivity]. Qed.

Lemma lstrip_with_stopped : forall p s, stops p (Str.lstrip_with p s).
Proof.
  intros p s. destruct (Str.lstrip_with p s) as [|c t] eqn:E; [exact I|].
  simpl. eapply lstrip_with_head. exact E.
Qed.

Lemma lstrip_with_suffix : forall p s,
    exists a, s = a ++ Str.lstrip_with p s /\ forallb p a = true.
Proof.
  intros p. induction s as [|c s IH]; simpl.
  - exists []. split; reflexivity.
  - destruct (p c) eqn:E.
    + destruct IH as (a & Hs & Ha). exists (c :: a). simpl.
      rewrite E, Ha, <- Hs. split; reflexivity.
    + exists []. split; reflexivity.
Qed.

Lemma rstrip_with_prefix : forall p s,
    exists b, s = Str.rstrip_with p s ++ b /\ forallb p b = true.
Proof.
  intros p s. unfold Str.rstrip_with.
  destruct (lstrip_with_suffix p (rev s)) as (a & Hs & Ha).
  exists (rev a). split.
  - rewrite <- rev_app_distr, <- Hs, rev_involutive. reflexivity.
  - rewrite forallb_forall in *. intros c Hc. apply Ha. apply in_rev. exact Hc.
Qed.

Lemma rstrip_with_last : forall p s t c,
    Str.rstrip_with p s = t ++ [c] -> p c = false.
Proof.
  intros p s t c H. unfold Str.rstrip_with in H.
  apply (f_equal (@rev char)) in H. rewrite rev_involutive, rev_app_distr in H.
  simpl in H. eapply lstrip_with_head. exact H.
Qed.

Lemma rstrip_with_stops : forall p s, stops p s -> stops p (Str.rstrip_with p s).
Proof.
  intros p s H. destruct (rstrip_with_prefix p s) as (b & Hs & _).
  destruct (Str.rstrip_with p s) as [|c t]; [exact I|].
  rewrite Hs in H. exact H.
Qed.

Lemma rstrip_with_idem : forall p s,
    Str.rstrip_with p (Str.rstrip_with p s) = Str.rstrip_with p s.
Proof.
  intros p s. unfold Str.rstrip_with. rewrite rev_involutive.
  rewrite (lstrip_with_stops p (Str.lstrip_with p (rev s))); [reflexivity|].
  apply lstrip_with_stopped.
Qed.

(** [s.strip().strip() == s.strip()]. *)
Lemma strip_idem : forall s, Str.strip (Str.strip s) = Str.strip s.
Proof.
  intros s. unfold Str.strip.
  rewrite (lstrip_with_stops Str.isspace
             (Str.rstrip_with Str.isspace (Str.lstrip_with Str.isspace s))).
  - apply rstrip_with_idem.
  - apply rstrip_with_stops. apply lstrip_with_stopped.
Qed.

Lemma single_spaced_suffix : forall a b, single_spaced (a ++ b) = true -> single_spaced b = true.
Proof.
  induction a as [|c a IH]; intros b H; [exact H|].
  apply IH. simpl in H. apply andb_true_iff in H. apply H.
Qed.

Lemma single_spaced_prefix : forall a b, single_spaced (a ++ b) = true -> single_spaced a = true.
Proof.
  induction a as [|c a IH]; intros b H; [reflexivity|].
  simpl in H. apply andb_true_iff in H. destruct H as [H H3].
  apply andb_true_iff in H. destruct H as [H1 H2].
  simpl. rewrite H1, (IH b H3). destruct a as [|c' a]; [reflexivity|].
  simpl in H2. rewrite H2. reflexivity.
Qed.

Lemma single_spaced_strip : forall s, single_spaced s = true -> single_spaced (Str.strip s) = true.
Proof.
  intros s H. unfold Str.strip.
  destruct (lstrip_with_suffix Str.isspace s) as (a & Hs & _).
  destruct (rstrip_with_prefix Str.isspace (Str.lstrip_with Str.isspace s)) as (b & Hb & _).
  rewrite Hs in H. apply single_spaced_suffix in H. rewrite Hb in H.
  apply single_spaced_prefix in H. exact H.
Qed.

(** In single-spaced text a whitespace character is a space and is not
    followed by another. *)
Lemma single_spaced_at : forall t i c,
    single_spaced t = true -> nth_error t i = Some c -> Re.space c = true ->
    c = 32%N /\ forall c', nth_error t (S i) = Some c' -> Re.space c' = false.
Proof.
  induction t as [|x t IH]; intros i c Ht Hi Hc; [destruct i; discriminate|].
  simpl in Ht. apply andb_true_iff in Ht. destruct Ht as [Ht H3].
  apply andb_true_iff in Ht. destruct Ht as [H1 H2].
  destruct i as [|i].
  - simpl in Hi. inversion Hi; subst x. rewrite Hc in *. simpl in H1.
    apply N.eqb_eq in H1. split; [exact H1|].
    intros c' Hn. destruct t as [|y t]; [discriminate|]. simpl in Hn.
    inversion Hn; subst y. simpl in H2. apply negb_true_iff in H2. exact H2.
  - apply (IH i c H3 Hi Hc).
Qed.

Lemma nth_error_last : forall (t : str) i c,
    nth_error t i = Some c -> nth_error t (S i) = None -> t = firstn i t ++ [c].
Proof.
  induction t as [|x t IH]; intros i c Hi Hn; [destruct i; discriminate|].
  destruct i as [|i]; simpl in *.
  - inversion Hi; subst. destruct t; [reflexivity|discriminate].
  - f_equal. apply IH; assumption.
Qed.

Lemma sub_single_spaced : forall n i s,
    length s < n -> single_spaced s = true ->
    Re.sub_from SPACES_RE (u " ") n i s = s.
Proof.
  induction n as [|n IH]; intros i s Hn Hs; [lia|].
  destruct s as [|c s]; [reflexivity|].
  assert (Hs' : single_spaced s = true).
  { simpl in Hs. apply andb_true_iff in Hs. apply Hs. }
  assert (Hlen : length s < n) by (simpl in Hn; lia).
  destruct (Re.space c) eqn:Hc.
  - destruct (@single_spaced_at (c :: s) 0 c Hs eq_refl Hc) as [-> Hnext].
    change (32%N :: s) with ([32%N] ++ s).
    rewrite sub_spaces_run; [|discriminate|reflexivity|].
    + simpl. f_equal. apply IH; assumption.
    + destruct s as [|c' s]; [exact I|]. simpl. apply Hnext. reflexivity.
  - rewrite sub_spaces_char by exact Hc. f_equal. apply IH; assumption.
Qed.

Section NormalizeFacts.
Variable L : PyLib.

Lemma normalize_single_spaced : forall v, single_spaced (_normalize_text L v) = true.
Proof.
  intros v. unfold _normalize_text. apply single_spaced_strip.
  unfold Re.sub. apply sub_spaces_single. lia.
Qed.

Lemma normalize_stripped : forall v, Str.strip (_normalize_text L v) = _normalize_text L v.
Proof. intros v. unfold _normalize_text. apply strip_idem. Qed.

Lemma normalize_normal : forall t,
    single_spaced t = true -> Str.strip t = t -> ~ In 38%N t -> _normalize_text L t = t.
Proof.
  intros t Hs Ht Hamp. unfold _normalize_text. rewrite (unescape_plain L) by exact Hamp.
  unfold Re.sub. rewrite sub_single_spaced; [exact Ht|lia|exact Hs].
Qed.

End NormalizeFacts.

Lemma stripped_ends : forall t,
    Str.strip t = t ->
    stops Re.space t /\ forall a c, t = a ++ [c] -> Re.space c = false.
Proof.
  intros t H. split.
  - rewrite <- H. unfold Str.strip. apply rstrip_with_stops. apply lstrip_with_stopped.
  - intros a c E. rewrite E in H. unfold Str.strip in H.
    eapply rstrip_with_last. exact H.
Qed.

(** X1. The text [_normalize_text] returns has no whitespace but single
    spaces between two other characters: every whitespace character of the
    result is U+0020, is not the first character, and is followed by a
    character that is not whitespace. *)
Theorem X1_normalize_text_single_spaces : forall (L : PyLib) (value : str),
    let t := _normalize_text L value in
    Str.strip t = t
    /\ forall i c,
        nth_error t i = Some c -> Re.space c = true ->
        c = 32%N /\ 0 < i
        /\ exists c', nth_error t (S i) = Some c' /\ Re.space c' = false.
Proof.
  intros L value t.
  assert (Hs : single_spaced t = true) by apply normalize_single_spaced.
  assert (Ht : Str.strip t = t) by apply normalize_stripped.
  split; [exact Ht|]. intros i c Hi Hc.
  destruct (@stripped_ends t Ht) as [Hhead Hlast].
  destruct (@single_spaced_at t i c Hs Hi Hc) as [H32 Hnext].
  split; [exact H32|]. split.
  - destruct i as [|i]; [|lia]. destruct t as [|x t']; [discriminate|].
    simpl in Hi, Hhead. inversion Hi; subst x. congruence.
  - destruct (nth_error t (S i)) as [c'|] eqn:En.
    + exists c'. split; [reflexivity|]. apply Hnext. reflexivity.
    + apply (@nth_error_last t i c) in Hi; [|exact En].
      apply Hlast in Hi. congruence.
Qed.

(** X2. Text in that form and without an ampersand is a fixed point of
    [_normalize_text]; with an ampersand it need not be, since a character
    reference can come out of the first pass. *)
Theorem X2_normalize_text_fixed_point : forall L : PyLib,
    (forall value,
        ~ In 38%N (_normalize_text L value) ->
        _normalize_text L (_normalize_text L value) = _normalize_text L value)
    /\ _normalize_text Reference.lib (u "Kolera &amp;lt; 5") = u "Kolera &lt; 5"
    /\ _normalize_text Reference.lib (u "Kolera &lt; 5") = u "Kolera < 5".
Proof.
  intros L. split; [|split; vm_compute; reflexivity].
  intros value H. apply normalize_normal; [apply normalize_single_spaced| |exact H].
  apply normalize_stripped.
Qed.

(** *** Runs of whitespace *)

Lemma single_spaced_gapless : forall s, single_spaced s = true -> gapless s = true.
Proof.
  induction s as [|c s IH]; intros H; [reflexivity|].
  simpl in H. apply andb_true_iff in H. destruct H as [H H3].
  apply andb_true_iff in H. destruct H as [_ H2].
  simpl. rewrite H2, (IH H3). reflexivity.
Qed.

Lemma gapless_suffix : forall a b, gapless (a ++ b) = true -> gapless b = true.
Proof.
  induction a as [|c a IH]; intros b H; [exact H|].
  apply IH. simpl in H. apply andb_true_iff in H. apply H.
Qed.

Lemma gapless_prefix : forall a b, gapless (a ++ b) = true -> gapless a = true.
Proof.
  induction a as [|c a IH]; intros b H; [reflexivity|].
  simpl in H. apply andb_true_iff in H. destruct H as [H2 H3].
  simpl. rewrite (IH b H3). destruct a as [|c' a]; [reflexivity|].
  simpl in H2. rewrite H2. reflexivity.
Qed.

Lemma gapless_strip : forall s, gapless s = true -> gapless (Str.strip s) = true.
Proof.
  intros s H. unfold Str.strip.
  destruct (lstrip_with_suffix Str.isspace s) as (a & Hs & _).
  destruct (rstrip_with_prefix Str.isspace (Str.lstrip_with Str.isspace s)) as (b & Hb & _).
  rewrite Hs in H. apply gapless_suffix in H. rewrite Hb in H.
  apply gapless_prefix in H. exact H.
Qed.

(** One more character after gapless text. *)
Lemma gapless_snoc : forall a c c',
    gapless (a ++ [c]) = true -> Re.space c && Re.space c' = false ->
    gapless ((a ++ [c]) ++ [c']) = true.
Proof.
  induction a as [|x a IH]; intros c c' H Hc.
  - simpl. rewrite Hc. reflexivity.
  - simpl in H. apply andb_true_iff in H. destruct H as [H2 H3].
    simpl. rewrite (IH c c' H3 Hc), andb_true_r.
    destruct a as [|y a]; simpl in *; exact H2.
Qed.

Lemma tidy_nil : tidy [].
Proof. split; reflexivity. Qed.

Section NormalizeTidy.
Variable L : PyLib.

Lemma normalize_tidy : forall v, tidy (_normalize_text L v).
Proof.
  intros v. split; [apply normalize_stripped|].
  apply single_spaced_gapless. apply normalize_single_spaced.
Qed.

End NormalizeTidy.

(** ** The groups of a match *)

(** A match consumes a prefix of the text and advances the position by its
    length. *)
Lemma matches_span : forall r st st',
    matches r st st' ->
    exists w, snd st = w ++ snd st' /\ fst st' = fst st + length w.
Proof.
  intros r st st' H. induction H; simpl;
    try (exists []; split; [reflexivity|simpl; lia]).
  - exists [c]. split; [reflexivity|simpl; lia].
  - destruct IHmatches1 as (w1 & Hs1 & Hi1). destruct IHmatches2 as (w2 & Hs2 & Hi2).
    exists (w1 ++ w2). rewrite Hs1, Hs2, Hi2, Hi1, length_app, <- app_assoc.
    split; [reflexivity|lia].
  - exact IHmatches.
  - exact IHmatches.
  - destruct IHmatches1 as (w1 & Hs1 & Hi1). destruct IHmatches2 as (w2 & Hs2 & Hi2).
    exists (w1 ++ w2). rewrite Hs1, Hs2, Hi2, Hi1, length_app, <- app_assoc.
    split; [reflexivity|lia].
  - exact IHmatches.
Qed.

Section GroupFacts.
Variable R : Type.

Lemma keeps_refl : forall names g, keeps names g g.
Proof. intros names g n _. reflexivity. Qed.

Lemma keeps_trans : forall names g1 g2 g3,
    keeps names g1 g2 -> keeps names g2 g3 -> keeps names g1 g3.
Proof. intros names g1 g2 g3 H1 H2 n Hn. rewrite (H2 n Hn). apply H1. exact Hn. Qed.

Lemma keeps_more : forall names names' g g',
    (forall n, In n names -> In n names') -> keeps names g g' -> keeps names' g g'.
Proof. intros names names' g g' Hsub H n Hn. apply H. intros Hin. apply Hn, Hsub, Hin. Qed.

Lemma star_loop_groups : forall (a : Re.t) (body : nat -> str -> Re.groups -> Re.cont R -> option R),
    (forall i s g k x, body i s g k = Some x ->
       exists i' s' g', matches a (i, s) (i', s') /\ k i' s' g' = Some x
                        /\ keeps (group_names a) g g') ->
    forall (k : Re.cont R) n i s g x,
      Re.star_loop body k n i s g = Some x ->
      exists i' s' g', matches (Re.Star a) (i, s) (i', s') /\ k i' s' g' = Some x
                       /\ keeps (group_names a) g g'.
Proof.
  intros a body Hbody k. induction n as [|n IH]; intros i s g x H; simpl in H.
  - exists i, s, g. split; [constructor|split; [exact H|apply keeps_refl]].
  - destruct (body i s g
                (fun i' s' g' =>
                   if length s' <? length s then Re.star_loop body k n i' s' g' else None))
      as [y|] eqn:Hb.
    + inversion H; subst y. apply Hbody in Hb.
      destruct Hb as (i1 & s1 & g1 & Hm & Hk & Hg).
      destruct (length s1 <? length s); [|discriminate].
      apply IH in Hk. destruct Hk as (i2 & s2 & g2 & Hm2 & Hk2 & Hg2).
      exists i2, s2, g2. split; [eapply m_star_cons; eassumption|].
      split; [exact Hk2|eapply keeps_trans; eassumption].
    + exists i, s, g. split; [constructor|split; [exact H|apply keeps_refl]].
Qed.

(** Soundness with the groups: besides the match, the groups the
    continuation receives are those it was started with, but for the groups
    of the pattern. *)
Lemma exec_groups : forall r i s g (k : Re.cont R) x,
    Re.exec r i s g k = Some x ->
    exists i' s' g', matches r (i, s) (i', s') /\ k i' s' g' = Some x
                     /\ keeps (group_names r) g g'.
Proof.
  induction r as [|p|a IHa b IHb|a IHa b IHb|a IHa|n a IHa| |];
    intros i s g k x H; simpl in H.
  - exists i, s, g. split; [constructor|split; [exact H|apply keeps_refl]].
  - destruct s as [|c s]; [discriminate|]. destruct (p c) eqn:Hp; [|discriminate].
    exists (S i), s, g. split; [constructor; exact Hp|split; [exact H|apply keeps_refl]].
  - apply IHa in H. destruct H as (i1 & s1 & g1 & Hm1 & H & Hg1).
    apply IHb in H. destruct H as (i2 & s2 & g2 & Hm2 & H & Hg2).
    exists i2, s2, g2. split; [eapply m_cat; eassumption|]. split; [exact H|].
    simpl. eapply keeps_trans.
    + eapply keeps_more; [|exact Hg1]. intros n Hn. apply in_or_app. left. exact Hn.
    + eapply keeps_more; [|exact Hg2]. intros n Hn. apply in_or_app. right. exact Hn.
  - destruct (Re.exec a i s g k) as [y|] eqn:Ha.
    + inversion H; subst y. apply IHa in Ha. destruct Ha as (i1 & s1 & g1 & Hm & Hk & Hg).
      exists i1, s1, g1. split; [apply m_alt_l; exact Hm|]. split; [exact Hk|].
      simpl. eapply keeps_more; [|exact Hg]. intros n Hn. apply in_or_app. left. exact Hn.
    + apply IHb in H. destruct H as (i1 & s1 & g1 & Hm & Hk & Hg).
      exists i1, s1, g1. split; [apply m_alt_r; exact Hm|]. split; [exact Hk|].
      simpl. eapply keeps_more; [|exact Hg]. intros n Hn. apply in_or_app. right. exact Hn.
  - apply (@star_loop_groups a (Re.exec a)) with (n := length s); [|exact H].
    intros i0 s0 g0 k0 x0 H0. exact (IHa _ _ _ _ _ H0).
  - apply IHa in H. destruct H as (i1 & s1 & g1 & Hm & Hk & Hg).
    exists i1, s1, ((n, firstn (i1 - i) s) :: g1).
    split; [constructor; exact Hm|]. split; [exact Hk|].
    intros m Hm'. simpl in Hm'. simpl.
    destruct (Nat.eqb n m) eqn:E.
    + apply Nat.eqb_eq in E. subst m. exfalso. apply Hm'. left. reflexivity.
    + apply Hg. intros Hin. apply Hm'. right. exact Hin.
  - destruct i; [|discriminate]. exists 0, s, g.
    split; [constructor|split; [exact H|apply keeps_refl]].
  - destruct s as [|c [|c' s]]; try discriminate.
    + exists i, [], g. split; [constructor|split; [exact H|apply keeps_refl]].
    + destruct (c =? 10)%N eqn:Hc; [|discriminate]. apply N.eqb_eq in Hc. subst c.
      exists i, [10%N], g. split; [constructor|split; [exact H|apply keeps_refl]].
Qed.

End GroupFacts.

(** ** The line pattern *)

Lemma keeps_nil_group : forall g g' n, keeps [] g g' -> Re.group g' n = Re.group g n.
Proof. intros g g' n H. apply H. intros []. Qed.

Section LineMatch.
Variable L : PyLib.

(** What a match of the line pattern says of the line: a code token,
    whitespace, a remainder without a newline, and at most a final newline;
    the groups are the token and the remainder. *)
Lemma line_match_inv : forall line n g,
    Re.match_ (LINE_RE L) line = Some (n, g) ->
    exists token gap body tail,
      line = token ++ gap ++ body ++ tail
      /\ code_shape L token
      /\ gap <> [] /\ forallb Re.space gap = true
      /\ body <> [] /\ forallb Re.dot body = true
      /\ (tail = [] \/ tail = [10%N])
      /\ Re.group g 1 = Some token /\ Re.group g 2 = Some body.
Proof.
  intros line n g H. unfold Re.match_, LINE_RE in H.
  rewrite exec_cat in H. change (Re.exec Re.Bol 0 ?s ?g ?k) with (k 0 s g) in H.
  cbv beta in H. rewrite exec_cat in H.
  change (Re.exec (Re.Grp 1 ?a) ?i ?s ?g ?k)
    with (Re.exec a i s g (fun i' s' g' => k i' s' ((1, firstn (i' - i) s) :: g'))) in H.
  apply exec_groups in H. destruct H as (i1 & s1 & g1 & Hm1 & H & Hg1).
  rewrite exec_cat in H.
  apply exec_groups in H. destruct H as (i2 & s2 & g2 & Hm2 & H & Hg2).
  rewrite exec_cat in H.
  change (Re.exec (Re.Grp 2 ?a) ?i ?s ?g ?k)
    with (Re.exec a i s g (fun i' s' g' => k i' s' ((2, firstn (i' - i) s) :: g'))) in H.
  apply exec_groups in H. destruct H as (i3 & s3 & g3 & Hm3 & H & Hg3).
  pose proof (matches_span Hm1) as (w & Hw & Hi1). simpl in Hw, Hi1.
  apply matches_code_shape in Hm1. destruct Hm1 as (token & Ht & Hshape).
  assert (w = token) by (rewrite Hw in Ht; apply app_inv_tail in Ht; exact Ht). subst w.
  apply matches_plus_cls in Hm2. destruct Hm2 as (gap & Hs1 & Hgne & Hgap & Hi2).
  apply matches_plus_cls in Hm3. destruct Hm3 as (body & Hs2 & Hbne & Hbody & Hi3).
  assert (Hend : (s3 = [] \/ s3 = [10%N])
                 /\ g = (2, firstn (i3 - i2) s2) :: g3).
  { simpl in H. destruct s3 as [|c [|c' s3]]; try discriminate.
    - inversion H. split; [left|]; reflexivity.
    - destruct (c =? 10)%N eqn:Ec; [|discriminate]. apply N.eqb_eq in Ec. subst c.
      inversion H. split; [right|]; reflexivity. }
  destruct Hend as [Htail Hg].
  exists token, gap, body, s3. subst line s1 s2.
  repeat split; try assumption.
  - rewrite Hg. simpl.
    rewrite (keeps_nil_group 1 Hg3), (keeps_nil_group 1 Hg2). simpl.
    rewrite Hi1. simpl. rewrite Nat.sub_0_r. f_equal.
    rewrite <- (Nat.add_0_r (length token)). rewrite firstn_app_2. simpl. apply app_nil_r.
  - rewrite Hg. simpl. f_equal. rewrite Hi3. apply firstn_run.
Qed.

Lemma line_entries_code : forall line e,
    In e (line_entries L line) -> _is_code L (code e) = true.
Proof.
  intros line e H. unfold line_entries in H.
  destruct (Re.match_ (LINE_RE L) line) as [[n g]|] eqn:E; [|contradiction].
  apply line_match_inv in E.
  destruct E as (token & gap & body & tail & _ & Hshape & _ & _ & _ & _ & _ & H1 & _).
  rewrite H1 in H. destruct H as [<-|[]]. simpl. apply is_code_shape. exact Hshape.
Qed.

End LineMatch.

(** *** The pieces of a remainder *)

(** Where the text starts with two whitespace characters the pattern of the
    delimiters matches. *)
Lemma parts_match_wide : forall i s,
    starts_wide s = true -> exists r, Re.match_at PARTS_RE i s = Some r.
Proof.
  intros i s H. unfold Re.match_at, PARTS_RE. rewrite exec_alt.
  match goal with
  | |- exists r, match ?e with Some y => Some y | None => _ end = Some r =>
    destruct e as [y|]; [exists y; reflexivity|]
  end.
  destruct (span_run Re.space s) as (w & v & Hs & Hw & Hv). subst s.
  pose proof (starts_wide_run _ _ H Hv) as Hlen.
  exists (i + length w, v). apply exec_atleast_run; try assumption.
  replace (length v <? length (w ++ v)) with true; [reflexivity|].
  symmetry. apply Nat.ltb_lt. rewrite length_app. lia.
Qed.

(** No piece that [re.split] cuts off holds two whitespace characters in a
    row. *)
Lemma split_gapless : forall n i cur s,
    gapless (rev cur ++ firstn 1 s) = true ->
    Forall (fun p => gapless p = true) (Re.split_from PARTS_RE n i cur s).
Proof.
  induction n as [|n IH]; intros i cur s H; simpl.
  - constructor; [|constructor]. apply gapless_prefix in H. exact H.
  - destruct (Re.match_at PARTS_RE i s) as [[i' s']|] eqn:E.
    + constructor; [apply gapless_prefix in H; exact H|].
      apply IH. simpl. destruct s' as [|c [|c' s']]; reflexivity.
    + destruct s as [|c s].
      * constructor; [|constructor]. apply gapless_prefix in H. exact H.
      * apply IH. simpl rev. simpl firstn in H.
        destruct s as [|c' s]; [simpl; rewrite app_nil_r; exact H|].
        simpl firstn. apply gapless_snoc; [exact H|].
        destruct (Re.space c && Re.space c') eqn:Ew; [|reflexivity].
        destruct (@parts_match_wide i (c :: c' :: s) Ew) as [r Hr]. congruence.
Qed.

Lemma split_parts_gapless : forall s,
    Forall (fun p => gapless p = true) (Re.split PARTS_RE s).
Proof.
  intros s. unfold Re.split. apply split_gapless. simpl.
  destruct s as [|c [|c' s]]; reflexivity.
Qed.

(** ** What the strategies return *)

Section EntryFacts.
Variable L : PyLib.

Lemma nth_tidy : forall (cells : list str) i, Forall tidy cells -> tidy (nth i cells []).
Proof.
  intros cells i H. destruct (nth_in_or_default i cells []) as [Hin| ->]; [|apply tidy_nil].
  rewrite Forall_forall in H. apply H. exact Hin.
Qed.

Lemma row_entries_well_formed : forall cells,
    Forall tidy cells -> Forall (well_formed L) (row_entries L cells).
Proof.
  intros cells Hc. unfold row_entries.
  destruct (negb match cells with [] => false | _ :: _ => true end || is_header_row L cells);
    [constructor|].
  destruct (length cells <? 2); [constructor|].
  destruct (_is_code L (nth 0 cells [])) eqn:E; [|constructor].
  constructor; [|constructor]. split; [exact E|]. cbn [serbian latin]. split.
  - apply nth_tidy. exact Hc.
  - destruct (3 <=? length cells); [apply nth_tidy; exact Hc|apply tidy_nil].
Qed.

Lemma row_cells_tidy : forall row, Forall tidy (row_cells L row).
Proof.
  intros row. unfold row_cells. apply Forall_forall. intros c Hin.
  apply in_map_iff in Hin. destruct Hin as (cell & <- & _). apply normalize_tidy.
Qed.

Lemma flat_map_forall : forall (A B : Type) (P : B -> Prop) (f : A -> list B) l,
    (forall x, In x l -> Forall P (f x)) -> Forall P (flat_map f l).
Proof.
  intros A B P f l H. apply Forall_forall. intros y Hy.
  apply in_flat_map in Hy. destruct Hy as (x & Hx & Hy).
  specialize (H x Hx). rewrite Forall_forall in H. apply H. exact Hy.
Qed.

Lemma tables_well_formed : forall soup, Forall (well_formed L) (_parse_from_tables L soup).
Proof.
  intros soup. unfold _parse_from_tables.
  apply flat_map_forall. intros table _. apply flat_map_forall. intros row _.
  apply row_entries_well_formed. apply row_cells_tidy.
Qed.

Lemma element_text_tidy : forall element, tidy (element_text L element).
Proof.
  intros [[i e]|]; simpl; [apply normalize_tidy|apply tidy_nil].
Qed.

Lemma blocks_well_formed : forall soup,
    Forall (well_formed L) (_parse_from_structured_blocks L soup).
Proof.
  intros soup. unfold _parse_from_structured_blocks.
  apply flat_map_forall. intros container _. unfold block_entries.
  match goal with |- context [negb (_is_code L ?c)] => destruct (_is_code L c) eqn:E end;
    [|constructor].
  constructor; [|constructor]. split; [exact E|].
  split; apply element_text_tidy.
Qed.

Lemma line_entries_well_formed : forall line, Forall (well_formed L) (line_entries L line).
Proof.
  intros line. apply Forall_forall. intros e He.
  split; [eapply line_entries_code; exact He|].
  unfold line_entries in He.
  destruct (Re.match_ (LINE_RE L) line) as [[n g]|]; [|contradiction].
  destruct He as [<-|[]]. cbn [serbian latin].
  set (parts := map Str.strip _).
  assert (Hp : Forall tidy parts).
  { apply Forall_forall. intros c Hc. apply in_map_iff in Hc.
    destruct Hc as (x & <- & Hx). apply filter_In in Hx. destruct Hx as [Hx _].
    split; [apply strip_idem|]. apply gapless_strip.
    pose proof (split_parts_gapless
                  match Re.group g 2 with Some s => s | None => [] end) as Hg.
    rewrite Forall_forall in Hg. apply Hg. exact Hx. }
  split.
  - destruct parts; [apply tidy_nil|]. apply nth_tidy. exact Hp.
  - destruct (1 <? length parts); [apply nth_tidy; exact Hp|apply tidy_nil].
Qed.

Lemma text_blocks_well_formed : forall soup,
    Forall (well_formed L) (_parse_from_text_blocks L soup).
Proof.
  intros soup. unfold _parse_from_text_blocks.
  apply flat_map_forall. intros line _. apply line_entries_well_formed.
Qed.

Lemma run_well_formed : forall s soup, Forall (well_formed L) (run L s soup).
Proof.
  intros [| |] soup; simpl;
    [apply tables_well_formed|apply blocks_well_formed|apply text_blocks_well_formed].
Qed.

Lemma parse_entries_well_formed : forall soup, Forall (well_formed L) (_parse_entries L soup).
Proof.
  intros soup. unfold _parse_entries, _parse_entries_calls, run. simpl app.
  destruct (_parse_from_tables L soup) eqn:E1.
  - simpl app. destruct (_parse_from_structured_blocks L soup) eqn:E2.
    + simpl. apply text_blocks_well_formed.
    + simpl. rewrite <- E2. apply blocks_well_formed.
  - simpl. rewrite <- E1. apply tables_well_formed.
Qed.

End EntryFacts.

(** X3. Every entry a strategy returns, and so every entry of
    [_parse_entries], has a code that [_is_code] accepts and descriptions
    that have no whitespace at either end and no two whitespace characters
    in a row. *)
Theorem X3_extracted_entries_are_well_formed : forall (L : PyLib) (soup : node),
    (forall s, Forall (well_formed L) (run L s soup))
    /\ Forall (well_formed L) (_parse_entries L soup).
Proof.
  intros L soup. split; [intros s; apply run_well_formed|apply parse_entries_well_formed].
Qed.

(** ** The merger, step by step *)

Module MergeFacts.
Import Dedup DedupFacts.

Lemma set_new : forall (d : list (str * MKBEntry)) k v,
    Py.get d k = None -> Py.set d k v = d ++ [(k, v)].
Proof.
  induction d as [|[k' v'] d IH]; simpl; intros k v H; [reflexivity|].
  destruct (Str.eqb k' k); [discriminate|]. f_equal. apply IH. exact H.
Qed.

(** Entries with codes that are new and distinct are put down as they
    come. *)
Lemma fold_distinct : forall l seen,
    NoDup (keys seen ++ map code l) ->
    fold_left step l seen = seen ++ map (fun e => (code e, e)) l.
Proof.
  induction l as [|e l IH]; intros seen H; simpl.
  - rewrite app_nil_r. reflexivity.
  - assert (Hnew : Py.get seen (code e) = None).
    { apply get_none_keys. intros Hin. simpl in H.
      apply NoDup_remove_2 in H. apply H. apply in_or_app. left. exact Hin. }
    unfold step at 2. rewrite Hnew, (@set_new _ _ _ Hnew). rewrite IH.
    + rewrite <- app_assoc. reflexivity.
    + unfold keys. rewrite map_app. simpl. rewrite <- app_assoc. exact H.
Qed.

Lemma fold_nodup_keys : forall l, NoDup (keys (fold_left step l [])).
Proof.
  intros l. rewrite fold_keys. simpl.
  rewrite filter_id by reflexivity. apply firsts_nodup.
Qed.

Lemma fold_values_pairs : forall l,
    map (fun e => (code e, e)) (Py.values (fold_left step l [])) = fold_left step l [].
Proof.
  intros l. unfold Py.values. rewrite map_map.
  rewrite <- (map_id (fold_left step l [])) at 2. apply map_ext_in.
  intros [k r] Hin. simpl. f_equal. apply (@deduplicate_records l k r Hin).
Qed.

Lemma fold_values_codes : forall l,
    map code (Py.values (fold_left step l [])) = keys (fold_left step l []).
Proof.
  intros l. rewrite <- (fold_values_pairs l) at 2. unfold keys.
  rewrite map_map. reflexivity.
Qed.

Lemma deduplicate_distinct : forall l, NoDup (map code l) -> _deduplicate l = l.
Proof.
  intros l H. rewrite deduplicate_fold, fold_distinct by exact H.
  unfold Py.values. simpl. rewrite map_map. apply map_id.
Qed.

(** The fields of a record of the result: the last value of the field that
    is not empty, among the entries with the code of the record. *)
Lemma deduplicate_fields : forall l r,
    In r (_deduplicate l) ->
    serbian r = last_nonempty (map serbian (occurrences (code r) l))
    /\ latin r = last_nonempty (map latin (occurrences (code r) l)).
Proof.
  intros l r Hin. rewrite deduplicate_fold in Hin. unfold Py.values in Hin.
  apply in_map_iff in Hin. destruct Hin as ([k r'] & Heq & Hin). simpl in Heq. subst r'.
  destruct (@deduplicate_records l k r Hin) as (Hc & Hs & Hl).
  rewrite Hc. split; assumption.
Qed.

Lemma deduplicate_nodup : forall l, NoDup (map code (_deduplicate l)).
Proof.
  intros l. rewrite deduplicate_fold, fold_values_codes. apply fold_nodup_keys.
Qed.

Lemma deduplicate_app : forall l1 l2,
    _deduplicate (_deduplicate l1 ++ l2) = _deduplicate (l1 ++ l2).
Proof.
  intros l1 l2. rewrite !deduplicate_fold. rewrite !fold_left_app. f_equal. f_equal.
  rewrite fold_distinct.
  - apply fold_values_pairs.
  - simpl. rewrite fold_values_codes. apply fold_nodup_keys.
Qed.

Lemma in_set : forall (d : list (str * MKBEntry)) k v kv,
    In kv (Py.set d k v) -> In kv d \/ snd kv = v.
Proof.
  induction d as [|[k' v'] d IH]; simpl; intros k v kv H.
  - destruct H as [<-|[]]. right. reflexivity.
  - destruct (Str.eqb k' k).
    + destruct H as [<-|H]; [right; reflexivity|left; right; exact H].
    + destruct H as [<-|H]; [left; left; reflexivity|].
      apply IH in H. destruct H as [H|H]; [left; right; exact H|right; exact H].
Qed.

Lemma get_in : forall (d : list (str * MKBEntry)) k v, Py.get d k = Some v -> In (k, v) d.
Proof.
  induction d as [|[k' v'] d IH]; simpl; intros k v H; [discriminate|].
  destruct (Str.eqb k' k) eqn:E.
  - apply str_eqb_eq in E. inversion H; subst. left. reflexivity.
  - right. apply IH. exact H.
Qed.

(** A property of entries that holds of a merged record when it holds of
    its parts holds of every record of the result. *)
Lemma fold_forall : forall (P : MKBEntry -> Prop),
    (forall e existing, P e -> P existing ->
                        P {| code := code e;
                             serbian := Str.or (serbian e) (serbian existing);
                             latin := Str.or (latin e) (latin existing) |}) ->
    forall l seen,
      Forall P l -> Forall (fun kv => P (snd kv)) seen ->
      Forall (fun kv => P (snd kv)) (fold_left step l seen).
Proof.
  intros P Hmerge. induction l as [|e l IH]; intros seen Hl Hs; simpl; [exact Hs|].
  inversion Hl; subst. apply IH; [assumption|].
  apply Forall_forall. intros kv Hin. rewrite Forall_forall in Hs. unfold step in Hin.
  destruct (Py.get seen (code e)) as [existing|] eqn:G.
  - apply in_set in Hin. destruct Hin as [Hin| ->]; [apply Hs; exact Hin|].
    apply Hmerge; [assumption|]. apply get_in in G. apply (Hs _ G).
  - apply in_set in Hin. destruct Hin as [Hin| ->]; [apply Hs; exact Hin|assumption].
Qed.

Lemma deduplicate_forall : forall (P : MKBEntry -> Prop),
    (forall e existing, P e -> P existing ->
                        P {| code := code e;
                             serbian := Str.or (serbian e) (serbian existing);
                             latin := Str.or (latin e) (latin existing) |}) ->
    forall l, Forall P l -> Forall P (_deduplicate l).
Proof.
  intros P Hmerge l Hl. rewrite deduplicate_fold. unfold Py.values.
  apply Forall_forall. intros r Hr. apply in_map_iff in Hr.
  destruct Hr as (kv & <- & Hin).
  pose proof (@fold_forall P Hmerge l [] Hl (Forall_nil _)) as H.
  rewrite Forall_forall in H. apply H. exact Hin.
Qed.

End MergeFacts.

Lemma well_formed_merge : forall L e existing,
    well_formed L e -> well_formed L existing ->
    well_formed L {| code := code e;
                     serbian := Str.or (serbian e) (serbian existing);
                     latin := Str.or (latin e) (latin existing) |}.
Proof.
  intros L e existing (Hc & Hs & Hl) (_ & Hs' & Hl'). split; [exact Hc|]. cbn [serbian latin].
  unfold Str.or. split.
  - destruct (Str.truthy (serbian e)); assumption.
  - destruct (Str.truthy (latin e)); assumption.
Qed.

(** X4. [_deduplicate] leaves entries with distinct codes as they are, is
    idempotent, and can be run on a first part of the entries and then on
    its result followed by the rest. *)
Theorem X4_deduplicate_is_incremental :
  (forall entries, NoDup (map code entries) -> _deduplicate entries = entries)
  /\ (forall entries, _deduplicate (_deduplicate entries) = _deduplicate entries)
  /\ (forall first rest,
         _deduplicate (_deduplicate first ++ rest) = _deduplicate (first ++ rest)).
Proof.
  split; [apply MergeFacts.deduplicate_distinct|]. split.
  - intros entries. apply MergeFacts.deduplicate_distinct. apply MergeFacts.deduplicate_nodup.
  - apply MergeFacts.deduplicate_app.
Qed.

(** ** Sorting by key *)

(** *** Sorting under an order with ties *)

Section StableFacts.
Variable A : Type.
Variable lt : A -> A -> bool.

Hypothesis lt_asym : forall a b, lt a b = true -> lt b a = false.
Hypothesis le_trans : forall a b c, lt b a = false -> lt c b = false -> lt c a = false.

Lemma insert_ordered : forall x l,
    StronglySorted (fun a b => lt b a = false) l ->
    StronglySorted (fun a b => lt b a = false) (Py.insert lt x l).
Proof.
  intros x. induction l as [|z l IH]; intros Hl; simpl.
  - constructor; constructor.
  - inversion Hl as [|z' l' Hs Hall]; subst. destruct (lt z x) eqn:E.
    + constructor; [apply IH; exact Hs|].
      apply Forall_forall. intros y Hy. apply insert_in in Hy.
      destruct Hy as [->|Hy]; [apply lt_asym; exact E|].
      rewrite Forall_forall in Hall. apply Hall. exact Hy.
    + constructor; [exact Hl|]. constructor; [exact E|].
      apply Forall_forall. intros y Hy. rewrite Forall_forall in Hall.
      apply le_trans with (b := z); [exact E|apply Hall; exact Hy].
Qed.

Lemma sorted_ordered : forall l,
    StronglySorted (fun a b => lt b a = false) (Py.sorted lt l).
Proof.
  induction l as [|x l IH]; simpl; [constructor|]. apply insert_ordered. exact IH.
Qed.

(** Stability: the elements a test selects keep their order, when no two
    of them are apart in the order. *)
Lemma insert_filter : forall (q : A -> bool) x l,
    (forall y, q x = true -> q y = true -> lt y x = false) ->
    filter q (Py.insert lt x l) = filter q (x :: l).
Proof.
  intros q x l Hq. induction l as [|z l IH]; [reflexivity|].
  simpl Py.insert. destruct (lt z x) eqn:E; [|reflexivity].
  simpl filter at 1. rewrite IH. simpl.
  destruct (q x) eqn:Ex; [|reflexivity]. destruct (q z) eqn:Ez; [|reflexivity].
  rewrite (Hq z eq_refl Ez) in E. discriminate E.
Qed.

Lemma sorted_filter : forall (q : A -> bool) l,
    (forall x y, q x = true -> q y = true -> lt y x = false) ->
    filter q (Py.sorted lt l) = filter q l.
Proof.
  intros q l Hq. induction l as [|x l IH]; [reflexivity|].
  simpl Py.sorted. rewrite insert_filter by (apply Hq). simpl. rewrite IH. reflexivity.
Qed.

End StableFacts.

Section MapFacts.
Variables A B : Type.
Variable lt : A -> A -> bool.
Variable f : A -> B.

Lemma insert_map_in : forall x y l, In y (map f (Py.insert lt x l)) <-> y = f x \/ In y (map f l).
Proof.
  intros x y l. rewrite !in_map_iff. split.
  - intros (z & <- & Hz). apply insert_in in Hz.
    destruct Hz as [->|Hz]; [left; reflexivity|right; exists z; auto].
  - intros [->|(z & <- & Hz)].
    + exists x. split; [reflexivity|]. apply insert_in. left. reflexivity.
    + exists z. split; [reflexivity|]. apply insert_in. right. exact Hz.
Qed.

Lemma insert_map_nodup : forall x l,
    NoDup (map f (x :: l)) -> NoDup (map f (Py.insert lt x l)).
Proof.
  intros x. induction l as [|z l IH]; intros H; simpl; [exact H|].
  destruct (lt z x); [|exact H]. simpl in *.
  inversion H as [|a l' Hx Hrest]; subst. inversion Hrest as [|a l' Hz Hl]; subst.
  constructor.
  - rewrite insert_map_in. intros [Heq|Hin]; [|contradiction].
    apply Hx. left. exact Heq.
  - apply IH. constructor; [|exact Hl]. intros Hin. apply Hx. right. exact Hin.
Qed.

Lemma sorted_map_nodup : forall l, NoDup (map f l) -> NoDup (map f (Py.sorted lt l)).
Proof.
  induction l as [|x l IH]; intros H; simpl; [constructor|].
  apply insert_map_nodup. simpl in *. inversion H; subst. constructor.
  - intros Hin. apply in_map_iff in Hin. destruct Hin as (z & Hz & Hin).
    apply sorted_in in Hin. apply H2. rewrite <- Hz. apply in_map. exact Hin.
  - apply IH. assumption.
Qed.

End MapFacts.

(** *** The order of the keys *)

Lemma sort_key_ltb_irrefl : forall a, sort_key_ltb a a = false.
Proof.
  intros [[p n] s]. unfold sort_key_ltb.
  rewrite str_eqb_refl, N.eqb_refl. apply str_ltb_irrefl.
Qed.

Lemma sort_key_ltb_trans : forall a b c,
    sort_key_ltb a b = true -> sort_key_ltb b c = true -> sort_key_ltb a c = true.
Proof.
  intros [[p1 n1] s1] [[p2 n2] s2] [[p3 n3] s3] H12 H23.
  apply sort_key_ltb_lt in H12. apply sort_key_ltb_lt in H23. apply sort_key_ltb_lt.
  unfold sort_key_lt in *.
  destruct H12 as [H12|[-> H12]]; destruct H23 as [H23|[-> H23]].
  - left. eapply str_ltb_trans; eassumption.
  - left. exact H12.
  - left. exact H23.
  - right. split; [reflexivity|].
    destruct H12 as [H12|[-> H12]]; destruct H23 as [H23|[-> H23]].
    + left. lia.
    + left. exact H12.
    + left. exact H23.
    + right. split; [reflexivity|]. eapply str_ltb_trans; eassumption.
Qed.

Lemma sort_key_ltb_total : forall a b,
    sort_key_ltb a b = false -> a <> b -> sort_key_ltb b a = true.
Proof.
  intros [[p1 n1] s1] [[p2 n2] s2] H Hne. unfold sort_key_ltb in *.
  rewrite (str_eqb_sym p2 p1), (N.eqb_sym n2 n1).
  destruct (Str.eqb p1 p2) eqn:Ep.
  - apply str_eqb_eq in Ep. subst p2. destruct (n1 =? n2)%N eqn:En.
    + apply N.eqb_eq in En. subst n2. apply str_ltb_total; [exact H|congruence].
    + apply N.eqb_neq in En. apply N.ltb_ge in H. apply N.ltb_lt. lia.
  - apply str_eqb_neq in Ep. apply str_ltb_total; [exact H|congruence].
Qed.

Lemma sort_key_ltb_asym : forall a b, sort_key_ltb a b = true -> sort_key_ltb b a = false.
Proof.
  intros a b H. apply not_true_is_false. intros H'.
  pose proof (sort_key_ltb_trans _ _ _ H H') as Haa.
  rewrite sort_key_ltb_irrefl in Haa. discriminate Haa.
Qed.

Lemma sort_key_le_trans : forall a b c,
    sort_key_ltb b a = false -> sort_key_ltb c b = false -> sort_key_ltb c a = false.
Proof.
  intros a b c Hba Hcb. apply not_true_is_false. intros Hca.
  destruct (sort_key_ltb a b) eqn:Hab.
  - pose proof (sort_key_ltb_trans _ _ _ Hca Hab) as H. congruence.
  - assert (a = b).
    { destruct a as [[p1 n1] s1]. destruct b as [[p2 n2] s2].
      destruct (Str.eqb p1 p2 && (n1 =? n2)%N && Str.eqb s1 s2) eqn:E.
      - apply andb_true_iff in E. destruct E as [E E3].
        apply andb_true_iff in E. destruct E as [E1 E2].
        apply str_eqb_eq in E1, E3. apply N.eqb_eq in E2. congruence.
      - exfalso. assert (Hne : (p2, n2, s2) <> (p1, n1, s1)).
        { intros Heq. inversion Heq; subst.
          rewrite !str_eqb_refl, N.eqb_refl in E. discriminate E. }
        pose proof (sort_key_ltb_total Hba Hne) as H. congruence. }
    subst b. congruence.
Qed.

(** *** Sorting by a key that may raise *)

Section SortedBy.
Variables A K : Type.
Variable key : A -> outcome K.
Variable lt : K -> K -> bool.
Variable k : A -> K.

Lemma keyed_total : forall l,
    Forall (fun x => key x = Returned (k x)) l ->
    Py.keyed key l = Returned (map (fun x => (k x, x)) l).
Proof.
  induction l as [|x l IH]; intros H; [reflexivity|].
  inversion H as [|? ? Hx Hl]; subst. cbn [Py.keyed map]. unfold and_then.
  rewrite Hx, (IH Hl). reflexivity.
Qed.

Lemma insert_keyed : forall x l,
    Py.insert (fun a b => lt (fst a) (fst b)) (k x, x) (map (fun y => (k y, y)) l)
    = map (fun y => (k y, y)) (Py.insert (fun a b => lt (k a) (k b)) x l).
Proof.
  intros x. induction l as [|y l IH]; [reflexivity|].
  cbn [map Py.insert fst]. destruct (lt (k y) (k x)); [|reflexivity].
  cbn [map]. rewrite IH. reflexivity.
Qed.

Lemma sorted_keyed : forall l,
    Py.sorted (fun a b => lt (fst a) (fst b)) (map (fun y => (k y, y)) l)
    = map (fun y => (k y, y)) (Py.sorted (fun a b => lt (k a) (k b)) l).
Proof.
  induction l as [|x l IH]; [reflexivity|].
  unfold Py.sorted in *. cbn [map fold_right]. rewrite IH. apply insert_keyed.
Qed.

(** When every key is returned, sorting by key is sorting under the order
    of the keys. *)
Lemma sorted_by_total : forall l,
    Forall (fun x => key x = Returned (k x)) l ->
    Py.sorted_by key lt l = Returned (Py.sorted (fun a b => lt (k a) (k b)) l).
Proof.
  intros l H. unfold Py.sorted_by, and_then. rewrite (keyed_total H), sorted_keyed.
  rewrite map_map. cbn [snd]. rewrite map_id. reflexivity.
Qed.

(** The sort raises what the first key that raises does. *)
Lemma sorted_by_raised : forall l e,
    Py.sorted_by key lt l = Raised e -> exists x, In x l /\ key x = Raised e.
Proof.
  intros l e. unfold Py.sorted_by, and_then.
  destruct (Py.keyed key l) as [pairs|e1] eqn:E; [discriminate|].
  intros H. inversion H; subst e1. clear H. revert E.
  induction l as [|x l IH]; cbn [Py.keyed]; unfold and_then; [discriminate|].
  destruct (key x) as [kx|e1] eqn:Ex.
  - destruct (Py.keyed key l) as [rest|e2]; [discriminate|].
    intros H. inversion H; subst e2.
    destruct (IH eq_refl) as (y & Hy & Hk). exists y. split; [right; exact Hy|exact Hk].
  - intros H. inversion H; subst e1. exists x. split; [left; reflexivity|exact Ex].
Qed.

End SortedBy.

Lemma strongly_sorted_among : forall (A : Type) (R R' : A -> A -> Prop) (P : A -> Prop) l,
    (forall a b, P a -> P b -> R a b -> R' a b) ->
    Forall P l -> StronglySorted R l -> StronglySorted R' l.
Proof.
  intros A R R' P l HR. induction l as [|x l IH]; intros HP Hs; [constructor|].
  inversion HP as [|? ? Hx Hl]; subst. inversion Hs as [|? ? Hs' Hall]; subst.
  constructor; [apply IH; assumption|].
  rewrite Forall_forall in *. intros y Hy. apply HR; auto.
Qed.

(** *** The keys of the entries of a run *)

Section EntryKeys.
Variable L : PyLib.

(** A code that [_is_code] accepts has the shape of a key, with two
    digits. *)
Lemma code_key_shape : forall letters digits suffix,
    letters <> [] -> forallb Re.upper letters = true ->
    digits <> [] -> forallb (cls_d L) digits = true ->
    (suffix = []
     \/ exists tail, suffix = chr "." :: tail
                     /\ 1 <= length tail <= 4 /\ forallb cls_09AZ tail = true) ->
    key_shape L (letters ++ digits ++ suffix) letters digits
              match suffix with [] => None | _ :: tail => Some tail end.
Proof.
  intros letters digits suffix Hl Hup Hd Hdig [->|(tail & -> & Hlen & Htail)].
  - rewrite app_nil_r. repeat split; assumption.
  - repeat split; try assumption. intros ->. simpl in Hlen. lia.
Qed.

Lemma accepted_key_shape : forall s,
    _is_code L s = true ->
    exists prefix number suffix,
      key_shape L s prefix number suffix /\ length number = 2.
Proof.
  intros s H. apply is_code_shape in H.
  destruct H as (letters & digits & suffix & -> & Hl & Hup & Hd & Hdig & Hsuf).
  exists letters, digits, match suffix with [] => None | _ :: tail => Some tail end.
  split; [|exact Hd]. apply code_key_shape; try assumption.
  - intros ->. simpl in Hl. lia.
  - intros ->. discriminate Hd.
Qed.

(** The key of an accepted code is returned. *)
Lemma accepted_key : forall s,
    _is_code L s = true -> _code_sort_key L s = Returned (unlimited_key L s).
Proof.
  intros s H. destruct (@accepted_key_shape s H) as (p & n & t & Hs & Hn).
  rewrite (@unlimited_parsed L s p n t Hs). apply (@sort_key_parsed L s p n t Hs).
  apply short_within_limit. rewrite Hn. apply Nat.leb_le. reflexivity.
Qed.

Lemma well_formed_keys : forall l,
    Forall (well_formed L) l ->
    Forall (fun e => _code_sort_key L (code e) = Returned (unlimited_key L (code e))) l.
Proof.
  intros l H. rewrite Forall_forall in *. intros e He.
  apply accepted_key. apply (H e He).
Qed.

(** Sorting well-formed entries by their keys does not raise. *)
Lemma sorted_by_well_formed : forall l,
    Forall (well_formed L) l ->
    Py.sorted_by (fun entry => _code_sort_key L (code entry)) sort_key_ltb l
    = Returned (Py.sorted (entry_ltb L) l).
Proof.
  intros l H.
  apply (@sorted_by_total MKBEntry sort_key (fun entry => _code_sort_key L (code entry))
                          sort_key_ltb (fun entry => unlimited_key L (code entry))).
  apply well_formed_keys. exact H.
Qed.

Lemma tie_well_formed : forall key e,
    well_formed L e ->
    tie L key e
    = negb (sort_key_ltb key (unlimited_key L (code e)))
      && negb (sort_key_ltb (unlimited_key L (code e)) key).
Proof.
  intros key e [H _]. unfold tie. rewrite (@accepted_key (code e) H). reflexivity.
Qed.

End EntryKeys.

(** ** The result of a run *)

Section RunResult.
Variable L : PyLib.
Variable E : Env.
Variable self : MKBScraper.

Lemma fetch_pages_forall : forall (P : MKBEntry -> Prop),
    (forall soup, Forall P (_parse_entries L soup)) ->
    forall pages entries w out w',
      fetch_pages L E self pages entries w = (Returned out, w') ->
      Forall P entries -> Forall P out.
Proof.
  intros P HP. induction pages as [|page pages IH]; intros entries w out w' H He.
  - simpl in H. inversion H; subst. exact He.
  - rewrite fetch_pages_cons in H.
    destruct (_fetch E page (logger E INFO (Message.fetching_detail page) w))
      as [[html|e] w1]; [|discriminate].
    cbv zeta in H. eapply IH; [exact H|]. apply Forall_app. split; [exact He|apply HP].
Qed.

(** What a run returns: the merged entries of the pages, sorted. *)
Lemma scrape_returns : forall w entries w',
    scrape L E self w = (Returned entries, w') ->
    exists fetched,
      Forall (well_formed L) fetched
      /\ entries = Py.sorted (entry_ltb L) (_deduplicate fetched).
Proof.
  intros w entries w' H. rewrite scrape_steps in H.
  destruct (_fetch E (index_url self)
                   (logger E INFO (Message.fetching_index (index_url self)) w))
    as [[index_html|e] w1]; [|discriminate].
  cbv zeta in H.
  destruct (_discover_detail_pages L self (html_parser E index_html)) as [pages|e];
    [|discriminate].
  destruct (fetch_pages L E self pages (_parse_entries L (html_parser E index_html))
                        (logger E INFO (Message.discovered (length pages)) w1))
    as [[fetched|e] w2] eqn:Hp; [|discriminate].
  assert (Hw : Forall (well_formed L) fetched).
  { eapply fetch_pages_forall; [|exact Hp|]; intros; apply parse_entries_well_formed. }
  exists fetched. split; [exact Hw|].
  rewrite sorted_by_well_formed in H.
  - inversion H. reflexivity.
  - apply MergeFacts.deduplicate_forall; [|exact Hw].
    intros e existing. apply well_formed_merge.
Qed.

Lemma fetch_served : forall content url w,
    serves E content [url] ->
    exists w', _fetch E url w = (Returned (content url), w').
Proof.
  intros content url w H. destruct (H url (or_introl eq_refl) w) as (resp & w' & Hg & Hs & Ht).
  exists w'. rewrite fetch_once, Hg, Hs, Ht. reflexivity.
Qed.

Lemma fetch_pages_served : forall content pages entries w,
    serves E content pages ->
    exists w',
      fetch_pages L E self pages entries w
      = (Returned (entries
                   ++ flat_map (fun url => _parse_entries L (html_parser E (content url)))
                               pages), w').
Proof.
  intros content. induction pages as [|page pages IH]; intros entries w H.
  - exists w. simpl. rewrite app_nil_r. reflexivity.
  - assert (H1 : serves E content [page]).
    { intros url [<-|[]]. apply H. left. reflexivity. }
    assert (H2 : serves E content pages).
    { intros url Hin. apply H. right. exact Hin. }
    destruct (fetch_served (logger E INFO (Message.fetching_detail page) w) H1)
      as (w1 & Hf).
    rewrite fetch_pages_cons, Hf. cbv zeta.
    match goal with
    | |- context [fetch_pages L E self pages ?es ?w0] =>
      destruct (IH es w0 H2) as (w' & Hp)
    end.
    exists w'. rewrite Hp. cbn [flat_map]. rewrite <- app_assoc. reflexivity.
Qed.

End RunResult.

(** X5. What a run returns: the entries have sort keys and are in the
    order of their keys; no two entries carry the same code; and every entry
    has a code that [_is_code] accepts and descriptions without whitespace
    at either end or two whitespace characters in a row. *)
Theorem X5_run_result_is_ordered_and_unique :
  forall (L : PyLib) (E : Env) (self : MKBScraper) (w : world E) entries w',
    scrape L E self w = (Returned entries, w') ->
    StronglySorted (in_key_order L) entries
    /\ NoDup (map code entries)
    /\ Forall (well_formed L) entries.
Proof.
  intros L E self w entries w' H.
  apply scrape_returns in H. destruct H as (fetched & Hw & ->).
  assert (Hall : Forall (well_formed L) (Py.sorted (entry_ltb L) (_deduplicate fetched))).
  { apply Forall_forall. intros e He. apply sorted_in in He. revert e He.
    apply Forall_forall. apply MergeFacts.deduplicate_forall; [|exact Hw].
    intros e existing. apply well_formed_merge. }
  split; [|split; [|exact Hall]].
  - apply (@strongly_sorted_among MKBEntry
             (fun a b => entry_ltb L b a = false) (in_key_order L) (well_formed L));
      [|exact Hall|].
    + intros a b [Ha _] [Hb _] Hab. exists (unlimited_key L (code a)), (unlimited_key L (code b)).
      split; [apply accepted_key; exact Ha|]. split; [apply accepted_key; exact Hb|exact Hab].
    + apply (@sorted_ordered MKBEntry (entry_ltb L)).
      * intros a b. apply sort_key_ltb_asym.
      * intros a b c. apply sort_key_le_trans.
  - apply sorted_map_nodup. apply MergeFacts.deduplicate_nodup.
Qed.

(** On [small_site], with a delay of two units, three pages are fetched
    and the run slept twice; the two records of A00 are merged and the
    entries come out in the order of their codes. *)
Lemma X5_run_result_on_small_site :
  scrape Reference.lib small_site (__init__ BASE_URL INDEX_PATH 2) (0, 0%Z)
  = (Returned small_site_entries, (3, 4%Z))
  /\ StronglySorted (in_key_order Reference.lib) small_site_entries
  /\ NoDup (map code small_site_entries)
  /\ Forall (well_formed Reference.lib) small_site_entries.
Proof.
  assert (H : scrape Reference.lib small_site (__init__ BASE_URL INDEX_PATH 2) (0, 0%Z)
              = (Returned small_site_entries, (3, 4%Z))).
  { vm_compute. reflexivity. }
  split; [exact H|].
  exact (@X5_run_result_is_ordered_and_unique Reference.lib small_site
           (__init__ BASE_URL INDEX_PATH 2) (0, 0%Z) small_site_entries (3, 4%Z) H).
Defined.

(** The run on a site that serves its pages, when the links of the index
    page resolve. *)
Lemma scrape_served :
  forall (L : PyLib) (E : Env) (self : MKBScraper) (content : str -> str) (w : world E)
         (pages : list str),
    _discover_detail_pages L self (html_parser E (content (index_url self)))
    = Returned pages ->
    serves E content (index_url self :: pages) ->
    exists w',
      scrape L E self w
      = (Returned
           (Py.sorted (entry_ltb L)
              (_deduplicate
                 (flat_map (fun url => _parse_entries L (html_parser E (content url)))
                    (index_url self :: pages)))), w').
Proof.
  intros L E self content w pages Hd H.
  assert (H1 : serves E content [index_url self]).
  { intros url [<-|[]]. apply H. left. reflexivity. }
  assert (H2 : serves E content pages).
  { intros url Hin. apply H. right. exact Hin. }
  destruct (fetch_served (logger E INFO (Message.fetching_index (index_url self)) w) H1)
    as (w1 & Hf).
  destruct (@fetch_pages_served L E self content pages
              (_parse_entries L (html_parser E (content (index_url self))))
              (logger E INFO (Message.discovered (length pages)) w1) H2)
    as (w2 & Hp).
  eexists. rewrite scrape_steps, Hf. cbv zeta. rewrite Hd, Hp.
  rewrite sorted_by_well_formed; [reflexivity|].
  apply MergeFacts.deduplicate_forall.
  - intros e existing. apply well_formed_merge.
  - apply Forall_app. split; [apply parse_entries_well_formed|].
    apply Forall_forall. intros e He. apply in_flat_map in He.
    destruct He as (url & _ & He).
    pose proof (parse_entries_well_formed L (html_parser E (content url))) as Hall.
    rewrite Forall_forall in Hall. apply Hall. exact He.
Qed.



(** ** The first matching element *)

Lemma first_matching_from_spec : forall L subs exclude ds idx,
    match first_matching_from L subs exclude idx ds with
    | Some (i, d) =>
      exists k, i = idx + k /\ nth_error ds k = Some d
                /\ class_matches L subs d = true /\ exclude <> Some i
                /\ forall j d', j < k -> nth_error ds j = Some d' ->
                                exclude = Some (idx + j) \/ class_matches L subs d' = false
    | None =>
      forall j d', nth_error ds j = Some d' ->
                   exclude = Some (idx + j) \/ class_matches L subs d' = false
    end.
Proof.
  intros L subs exclude. induction ds as [|x ds IH]; intros idx; simpl.
  - intros j d' H. destruct j; discriminate.
  - assert (Hstep : forall (E : exclude = Some idx \/ class_matches L subs x = false),
               match first_matching_from L subs exclude (S idx) ds with
               | Some (i, d) =>
                 exists k, i = idx + k /\ nth_error (x :: ds) k = Some d
                           /\ class_matches L subs d = true /\ exclude <> Some i
                           /\ forall j d', j < k -> nth_error (x :: ds) j = Some d' ->
                                           exclude = Some (idx + j)
                                           \/ class_matches L subs d' = false
               | None =>
                 forall j d', nth_error (x :: ds) j = Some d' ->
                              exclude = Some (idx + j) \/ class_matches L subs d' = false
               end).
    { intros Hx. specialize (IH (S idx)).
      destruct (first_matching_from L subs exclude (S idx) ds) as [[i d]|].
      - destruct IH as (k & Hi & Hk & Hc & He & Hbefore).
        exists (S k). split; [lia|]. split; [exact Hk|]. split; [exact Hc|].
        split; [exact He|]. intros [|j] d' Hj Hn.
        + simpl in Hn. inversion Hn; subst d'. rewrite Nat.add_0_r. exact Hx.
        + simpl in Hn. replace (idx + S j) with (S idx + j) by lia.
          apply (Hbefore j d'); [lia|exact Hn].
      - intros [|j] d' Hn.
        + simpl in Hn. inversion Hn; subst d'. rewrite Nat.add_0_r. exact Hx.
        + simpl in Hn. replace (idx + S j) with (S idx + j) by lia.
          apply (IH j d'). exact Hn. }
    destruct exclude as [e|].
    + destruct (Nat.eqb idx e) eqn:Ee.
      * apply Nat.eqb_eq in Ee. subst e. apply Hstep. left. reflexivity.
      * destruct (class_matches L subs x) eqn:Ec.
        -- exists 0. split; [lia|]. split; [reflexivity|]. split; [exact Ec|].
           split; [|intros j d' Hj; lia].
           apply Nat.eqb_neq in Ee. congruence.
        -- apply Hstep. right. reflexivity.
    + destruct (class_matches L subs x) eqn:Ec.
      * exists 0. split; [lia|]. split; [reflexivity|]. split; [exact Ec|].
        split; [discriminate|intros j d' Hj; lia].
      * apply Hstep. right. reflexivity.
Qed.

(** X7. [_find_first_matching] returns the first element below the
    container, in document order, that carries a class holding one of the
    markers and is not the element to leave out; it returns nothing exactly
    when every element below the container is left out or carries no such
    class. The container itself is not looked at. *)
Theorem X7_find_first_matching_is_first :
  forall (L : PyLib) (container : node) (class_substrings : list str)
         (exclude : option (nat * node)),
    let elements := Soup.find_all (fun _ => true) container in
    match _find_first_matching L container class_substrings exclude with
    | Some (i, found) =>
      nth_error elements i = Some found
      /\ class_matches L class_substrings found = true
      /\ ~ skipped exclude i
      /\ forall j d, j < i -> nth_error elements j = Some d ->
                     skipped exclude j \/ class_matches L class_substrings d = false
    | None =>
      forall j d, nth_error elements j = Some d ->
                  skipped exclude j \/ class_matches L class_substrings d = false
    end.
Proof.
  intros L container subs exclude elements. unfold _find_first_matching, skipped.
  fold elements.
  pose proof (first_matching_from_spec L subs (option_map fst exclude) elements 0) as H.
  destruct (first_matching_from L subs (option_map fst exclude) 0 elements) as [[i d]|].
  - destruct H as (k & -> & Hk & Hc & He & Hb). simpl. repeat split; assumption.
  - exact H.
Qed.

(** ** The configuration of the scraper *)

(** X8. What [__init__] makes of its arguments. The base URL loses its
    trailing slashes and nothing else; the index path gets a leading slash
    when it has none; the index URL is the one joined to the other; a
    negative delay counts as none. Building a scraper from the fields of a
    scraper gives the same scraper, and the defaults give the site's index
    URL. *)
Theorem X8_init_normalises_its_arguments : forall (base path0 : str) (d : Z),
    let self := __init__ base path0 d in
    (forall t, base_url self <> t ++ u "/")
    /\ (exists slashes, base = base_url self ++ slashes
                        /\ forallb (fun c => (c =? 47)%N) slashes = true)
    /\ Str.startswith (u "/") (index_path self) = true
    /\ (index_path self = path0 \/ index_path self = u "/" ++ path0)
    /\ index_url self = base_url self ++ index_path self
    /\ (0 <= delay self)%Z /\ (delay self = 0%Z <-> (d <= 0)%Z)
    /\ __init__ (base_url self) (index_path self) (delay self) = self
    /\ __init__ BASE_URL INDEX_PATH d
       = {| base_url := BASE_URL; index_path := INDEX_PATH; index_url := INDEX_URL;
            delay := Z.max 0 d |}.
Proof.
  intros base path0 d self.
  assert (Hpath : Str.startswith (u "/") (index_path self) = true).
  { unfold self, __init__. cbn [index_path].
    destruct (Str.startswith (u "/") path0) eqn:E; [exact E|].
    simpl. reflexivity. }
  split; [|split; [|split; [exact Hpath|split; [|split; [|split; [|split; [|split]]]]]]].
  - intros t E. unfold self, __init__ in E. cbn [base_url] in E.
    apply rstrip_not_ending in E. discriminate E.
  - unfold self, __init__. cbn [base_url]. unfold Str.rstrip.
    destruct (rstrip_with_prefix (fun c => existsb (N.eqb c) (u "/")) base) as (b & Hb & Hall).
    exists b. split; [exact Hb|]. rewrite forallb_forall in *. intros c Hc.
    specialize (Hall c Hc). simpl in Hall. rewrite orb_false_r in Hall. exact Hall.
  - unfold self, __init__. cbn [index_path].
    destruct (Str.startswith (u "/") path0); [left|right]; reflexivity.
  - reflexivity.
  - unfold self, __init__. cbn [delay]. lia.
  - unfold self, __init__. cbn [delay]. lia.
  - unfold __init__ at 1. rewrite Hpath. unfold self, __init__.
    cbn [base_url index_path delay]. unfold Str.rstrip. rewrite rstrip_with_idem.
    f_equal. lia.
  - reflexivity.
Qed.

(** ** The order of the links *)

(** Two strictly increasing sequences with the same elements are the same
    sequence. *)
Lemma increasing_unique : forall l1 l2,
    StronglySorted (fun a b => Str.ltb a b = true) l1 ->
    StronglySorted (fun a b => Str.ltb a b = true) l2 ->
    (forall x, In x l1 <-> In x l2) ->
    l1 = l2.
Proof.
  induction l1 as [|x l1 IH]; intros l2 H1 H2 Hin.
  - destruct l2 as [|y l2]; [reflexivity|].
    exfalso. apply (Hin y). left. reflexivity.
  - destruct l2 as [|y l2].
    { exfalso. apply (Hin x). left. reflexivity. }
    inversion H1 as [|x' l1' Hs1 Ha1]; subst. inversion H2 as [|y' l2' Hs2 Ha2]; subst.
    rewrite Forall_forall in Ha1, Ha2.
    assert (Hxy : x = y).
    { destruct (proj1 (Hin x) (or_introl eq_refl)) as [Hy|Hy]; [symmetry; exact Hy|].
      destruct (proj2 (Hin y) (or_introl eq_refl)) as [Hx|Hx]; [exact Hx|].
      exfalso. pose proof (str_ltb_trans _ _ _ (Ha1 _ Hx) (Ha2 _ Hy)) as Hxx.
      rewrite str_ltb_irrefl in Hxx. discriminate Hxx. }
    subst y. f_equal. apply IH; [assumption|assumption|].
    intros z. split; intros Hz.
    + destruct (proj1 (Hin z) (or_intror Hz)) as [Heq|Hz2]; [|exact Hz2].
      subst z. specialize (Ha1 _ Hz). rewrite str_ltb_irrefl in Ha1. discriminate Ha1.
    + destruct (proj2 (Hin z) (or_intror Hz)) as [Heq|Hz1]; [|exact Hz1].
      subst z. specialize (Ha2 _ Hz). rewrite str_ltb_irrefl in Ha2. discriminate Ha2.
Qed.

Section DiscoverFacts.
Variable L : PyLib.
Variable self : MKBScraper.

(** Pages with the same link targets: when the discoverer returns on the
    one it returns the same on the other. *)
Lemma discover_same_targets : forall soup1 soup2 pages,
    (forall href, In href (anchors soup1) <-> In href (anchors soup2)) ->
    _discover_detail_pages L self soup1 = Returned pages ->
    _discover_detail_pages L self soup2 = Returned pages.
Proof.
  intros soup1 soup2 pages H H1.
  assert (H2 : exists pages2, _discover_detail_pages L self soup2 = Returned pages2).
  { apply discover_returns. intros href Hin. apply H in Hin.
    revert href Hin. apply discover_returns. exists pages. exact H1. }
  destruct H2 as (pages2 & H2). rewrite H2. f_equal.
  apply increasing_unique.
  - eapply discover_increasing. exact H2.
  - eapply discover_increasing. exact H1.
  - intros url. rewrite (@discover_in L self soup2 pages2 url H2).
    rewrite (@discover_in L self soup1 pages url H1).
    split; intros (href & Hin & Hd); exists href; (split; [apply H; exact Hin|exact Hd]).
Qed.

Lemma discover_raises_or_returns : forall soup,
    (exists e, _discover_detail_pages L self soup = Raised e)
    <-> ~ exists pages, _discover_detail_pages L self soup = Returned pages.
Proof.
  intros soup. destruct (_discover_detail_pages L self soup) as [pages|e].
  - split; [intros [e H]; discriminate H|]. intros H. exfalso. apply H. exists pages. reflexivity.
  - split; [intros _ [pages H]; discriminate H|]. intros _. exists e. reflexivity.
Qed.

End DiscoverFacts.

(** X9. What [_discover_detail_pages] does depends on which link targets
    the index page holds, not on their order or on how often one occurs:
    on two pages with the same targets it returns the same pages, or raises
    on both. *)
Theorem X9_discovered_pages_ignore_link_order :
  forall (L : PyLib) (self : MKBScraper) (soup1 soup2 : node),
    (forall href, In href (anchors soup1) <-> In href (anchors soup2)) ->
    (forall pages,
        _discover_detail_pages L self soup1 = Returned pages
        <-> _discover_detail_pages L self soup2 = Returned pages)
    /\ ((exists e, _discover_detail_pages L self soup1 = Raised e)
        <-> (exists e, _discover_detail_pages L self soup2 = Raised e)).
Proof.
  intros L self soup1 soup2 H.
  assert (H' : forall href, In href (anchors soup2) <-> In href (anchors soup1)).
  { intros href. symmetry. apply H. }
  assert (Hr : forall pages,
             _discover_detail_pages L self soup1 = Returned pages
             <-> _discover_detail_pages L self soup2 = Returned pages).
  { intros pages. split; apply discover_same_targets; assumption. }
  split; [exact Hr|].
  rewrite !discover_raises_or_returns. split; intros Hn [pages Hp]; apply Hn;
    exists pages; apply Hr; exact Hp.
Qed.

(** The two index pages hold the same link targets and give the same
    detail pages. *)
Lemma X9_discovered_pages_of_shuffled_index :
  (forall href, In href (anchors index_page) <-> In href (anchors index_page_shuffled))
  /\ _discover_detail_pages Reference.lib (__init__ BASE_URL INDEX_PATH 0)
                            index_page_shuffled
     = Returned [u "https://www.stetoskop.info/mkb/a00-b99";
                 u "https://www.stetoskop.info/mkb/c00-d48"].
Proof.
  assert (H : forall href,
             In href (anchors index_page) <-> In href (anchors index_page_shuffled)).
  { intros href.
    let v := eval vm_compute in (anchors index_page) in
    change (anchors index_page) with v.
    let v := eval vm_compute in (anchors index_page_shuffled) in
    change (anchors index_page_shuffled) with v.
    simpl. tauto. }
  split; [exact H|].
  apply (proj1 (X9_discovered_pages_ignore_link_order Reference.lib
                  (__init__ BASE_URL INDEX_PATH 0) index_page index_page_shuffled H)).
  vm_compute. reflexivity.
Defined.

(** ** The keys of accepted codes *)

Section KeyFacts.
Variable L : PyLib.

(** The key of a code that [_is_code] accepts. *)
Lemma code_key : forall letters digits suffix,
    letters <> [] -> forallb Re.upper letters = true ->
    length digits = 2 -> forallb (cls_d L) digits = true ->
    (suffix = []
     \/ exists tail, suffix = chr "." :: tail
                     /\ 1 <= length tail <= 4 /\ forallb cls_09AZ tail = true) ->
    _code_sort_key L (letters ++ digits ++ suffix)
    = Returned (letters, int_value L digits,
                match suffix with [] => [] | _ :: tail => tail end).
Proof.
  intros letters digits suffix Hl Hup Hd Hdig Hsuf.
  assert (Hne : digits <> []) by (intros ->; discriminate Hd).
  rewrite (@sort_key_parsed L _ _ _ _ (code_key_shape L Hl Hup Hne Hdig Hsuf)).
  - destruct suffix; reflexivity.
  - apply short_within_limit. rewrite Hd. apply Nat.leb_le. reflexivity.
Qed.

Lemma int_two_digits : forall d1 d2,
    (48 <= d1 <= 57)%N -> (48 <= d2 <= 57)%N ->
    int_value L [d1; d2] = (10 * (d1 - 48) + (d2 - 48))%N.
Proof.
  intros d1 d2 H1 H2. unfold int_value. cbn [fold_left].
  rewrite !(decimal_ascii L) by assumption. lia.
Qed.

Lemma int_below_hundred : forall d1 d2,
    cls_d L d1 = true -> cls_d L d2 = true -> (int_value L [d1; d2] < 100)%N.
Proof.
  intros d1 d2 H1 H2. unfold int_value, cls_d in *. cbn [fold_left].
  destruct (decimal L d1) as [v1|] eqn:E1; [|discriminate].
  destruct (decimal L d2) as [v2|] eqn:E2; [|discriminate].
  apply (decimal_below_ten L) in E1, E2. lia.
Qed.

End KeyFacts.

(** X10. A code that [_is_code] accepts always gets a key, and never the
    fallback: its key is its letters, the value of its two digits, which
    [int] returns and which is below one hundred, and what follows its full
    stop. *)
Theorem X10_accepted_code_has_parsed_key : forall (L : PyLib) (s : str),
    _is_code L s = true ->
    exists letters digits suffix value,
      s = letters ++ digits ++ suffix
      /\ 1 <= length letters <= 2 /\ length digits = 2
      /\ (suffix = [] \/ exists tail, suffix = chr "." :: tail /\ tail <> [])
      /\ int L digits = Returned value
      /\ _code_sort_key L s
         = Returned (letters, value, match suffix with [] => [] | _ :: tail => tail end)
      /\ (value < 100)%N.
Proof.
  intros L s H. apply is_code_shape in H.
  destruct H as (letters & digits & suffix & -> & Hl & Hup & Hd & Hdig & Hsuf).
  exists letters, digits, suffix, (int_value L digits).
  split; [reflexivity|]. split; [exact Hl|].
  split; [exact Hd|]. split; [|split; [|split]].
  - destruct Hsuf as [->|(tail & -> & Hlen & _)]; [left; reflexivity|].
    right. exists tail. split; [reflexivity|]. intros ->. simpl in Hlen. lia.
  - apply int_within_limit. apply short_within_limit. rewrite Hd.
    apply Nat.leb_le. reflexivity.
  - apply code_key; try assumption.
    intros ->. simpl in Hl. lia.
  - destruct digits as [|d1 [|d2 [|d3 ds]]]; try discriminate Hd.
    simpl in Hdig. apply andb_true_iff in Hdig. destruct Hdig as [H1 H2].
    apply andb_true_iff in H2. destruct H2 as [H2 _].
    apply int_below_hundred; assumption.
Qed.

(** The code B00.1 is accepted, and so has a parsed key. *)
Lemma X10_accepted_code_B00_1 :
  _is_code Reference.lib (u "B00.1") = true
  /\ exists letters digits suffix value,
      u "B00.1" = letters ++ digits ++ suffix
      /\ 1 <= length letters <= 2 /\ length digits = 2
      /\ (suffix = [] \/ exists tail, suffix = chr "." :: tail /\ tail <> [])
      /\ int Reference.lib digits = Returned value
      /\ _code_sort_key Reference.lib (u "B00.1")
         = Returned (letters, value, match suffix with [] => [] | _ :: tail => tail end)
      /\ (value < 100)%N.
Proof.
  split; [vm_compute; reflexivity|].
  apply (X10_accepted_code_has_parsed_key Reference.lib (u "B00.1")).
  vm_compute. reflexivity.
Defined.

Lemma ascii_digits : forall L d1 d2,
    ascii_only [d1; d2] -> forallb (cls_d L) [d1; d2] = true ->
    (48 <= d1 <= 57)%N /\ (48 <= d2 <= 57)%N.
Proof.
  intros L d1 d2 Ha Hd. inversion Ha as [|? ? H1 Ha']; subst.
  inversion Ha' as [|? ? H2 _]; subst. simpl in Hd.
  apply andb_true_iff in Hd. destruct Hd as [E1 Hd].
  apply andb_true_iff in Hd. destruct Hd as [E2 _].
  split; apply (@cls_d_ascii L); assumption.
Qed.

Lemma ascii_only_app : forall a b, ascii_only (a ++ b) -> ascii_only a /\ ascii_only b.
Proof. intros a b H. apply Forall_app in H. exact H. Qed.

(** X11. Two different codes that [_is_code] accepts and that are written
    in Basic Latin have different keys, so that one of them sorts strictly
    before the other. A digit of another script breaks this: the code of A
    and two Arabic-Indic zeros is accepted and has the key of A00. *)
Theorem X11_accepted_ascii_codes_never_tie : forall L : PyLib,
    (forall a b,
        _is_code L a = true -> _is_code L b = true ->
        ascii_only a -> ascii_only b ->
        _code_sort_key L a = _code_sort_key L b -> a = b)
    /\ (forall a b,
           _is_code L a = true -> _is_code L b = true ->
           ascii_only a -> ascii_only b -> a <> b ->
           exists ka kb,
             _code_sort_key L a = Returned ka /\ _code_sort_key L b = Returned kb
             /\ sort_key_ltb ka kb = negb (sort_key_ltb kb ka))
    /\ _is_code Reference.lib A00_arabic_indic = true
    /\ _code_sort_key Reference.lib A00_arabic_indic
       = _code_sort_key Reference.lib (u "A00")
    /\ _code_sort_key Reference.lib (u "A00") = Returned (u "A", 0%N, []).
Proof.
  intros L.
  assert (Hinj : forall a b,
             _is_code L a = true -> _is_code L b = true ->
             ascii_only a -> ascii_only b ->
             _code_sort_key L a = _code_sort_key L b -> a = b).
  { intros a b Ha Hb Aa Ab Hk.
    apply is_code_shape in Ha, Hb.
    destruct Ha as (l1 & d1 & s1 & -> & Hl1 & Hup1 & Hd1 & Hdig1 & Hs1).
    destruct Hb as (l2 & d2 & s2 & -> & Hl2 & Hup2 & Hd2 & Hdig2 & Hs2).
    rewrite !code_key in Hk; try assumption;
      try (intros ->; simpl in *; first [lia|discriminate]).
    inversion Hk as [[El Ei Et]]. subst l2.
    apply ascii_only_app in Aa, Ab. destruct Aa as [_ Aa]. destruct Ab as [_ Ab].
    apply ascii_only_app in Aa, Ab. destruct Aa as [Aa _]. destruct Ab as [Ab _].
    destruct d1 as [|x1 [|y1 [|z1 d1]]]; try discriminate Hd1.
    destruct d2 as [|x2 [|y2 [|z2 d2]]]; try discriminate Hd2.
    destruct (@ascii_digits L _ _ Aa Hdig1) as [Hx1 Hy1].
    destruct (@ascii_digits L _ _ Ab Hdig2) as [Hx2 Hy2].
    rewrite !int_two_digits in Ei by assumption.
    assert (x1 = x2 /\ y1 = y2) as [-> ->] by lia.
    do 2 f_equal.
    destruct Hs1 as [->|(t1 & -> & Hlen1 & _)]; destruct Hs2 as [->|(t2 & -> & Hlen2 & _)].
    - reflexivity.
    - subst t2. simpl in Hlen2. lia.
    - subst t1. simpl in Hlen1. lia.
    - subst t2. reflexivity. }
  split; [exact Hinj|]. split; [|repeat split; vm_compute; reflexivity].
  intros a b Ha Hb Aa Ab Hne.
  exists (unlimited_key L a), (unlimited_key L b).
  split; [apply accepted_key; exact Ha|]. split; [apply accepted_key; exact Hb|].
  destruct (sort_key_ltb (unlimited_key L b) (unlimited_key L a)) eqn:E; simpl.
  - apply sort_key_ltb_asym. exact E.
  - apply sort_key_ltb_total; [exact E|]. intros Hk. apply Hne.
    symmetry. apply Hinj; try assumption.
    rewrite (@accepted_key L a Ha), (@accepted_key L b Hb), Hk. reflexivity.
Qed.

(** ** A code and nothing after it *)

Section BackFacts.
Variable R : Type.

(** A run of the class up to the end of the text, where the continuation
    refuses the whole run and accepts it without its last character: the
    greedy run gives that one character back. *)
Lemma greedy_back_one : forall p (k : Re.cont R) w c i g x,
    forallb p w = true -> p c = true ->
    k (i + length w + 1) [] g = None ->
    k (i + length w) [c] g = Some x ->
    greedy p k i (w ++ [c]) g = Some x.
Proof.
  intros p k. induction w as [|a w IH]; intros c i g x Hw Hc Hnone Hsome; simpl in *.
  - rewrite Hc. rewrite Nat.add_0_r in *. replace (S i) with (i + 1) by lia.
    rewrite Hnone. exact Hsome.
  - apply andb_true_iff in Hw. destruct Hw as [Ha Hw]. rewrite Ha.
    rewrite (IH c (S i) g x Hw Hc); [reflexivity| |].
    + rewrite <- Hnone. f_equal. lia.
    + rewrite <- Hsome. f_equal. lia.
Qed.

End BackFacts.

Lemma code_shape_no_space : forall L token c,
    code_shape L token -> In c token -> Re.space c = false.
Proof.
  intros L token c (letters & digits & suffix & -> & _ & Hup & _ & Hdig & Hsuf) Hin.
  apply not_true_is_false. intros Hs.
  apply in_app_or in Hin. destruct Hin as [Hin|Hin].
  { rewrite forallb_forall in Hup. specialize (Hup c Hin).
    rewrite (space_not_upper _ Hs) in Hup. discriminate Hup. }
  apply in_app_or in Hin. destruct Hin as [Hin|Hin].
  { rewrite forallb_forall in Hdig. specialize (Hdig c Hin).
    rewrite (space_not_cls_d L _ Hs) in Hdig. discriminate Hdig. }
  destruct Hsuf as [->|(tail & -> & _ & Htail)]; [contradiction|].
  destruct Hin as [<-|Hin]; [discriminate Hs|].
  rewrite forallb_forall in Htail. specialize (Htail c Hin).
  rewrite (space_not_09AZ _ Hs) in Htail. discriminate Htail.
Qed.

(** A text splits in one way only into a part without whitespace and a
    part that is empty or starts with whitespace. *)
Lemma token_unique : forall t1 r1 t2 r2 : str,
    t1 ++ r1 = t2 ++ r2 ->
    (forall c, In c t1 -> Re.space c = false) ->
    (forall c, In c t2 -> Re.space c = false) ->
    code_end r1 -> code_end r2 ->
    t1 = t2 /\ r1 = r2.
Proof.
  induction t1 as [|a t1 IH]; intros r1 t2 r2 E H1 H2 E1 E2.
  - destruct t2 as [|b t2]; [split; [reflexivity|exact E]|].
    simpl in E. subst r1. simpl in E1.
    rewrite (H2 b (or_introl eq_refl)) in E1. discriminate E1.
  - destruct t2 as [|b t2].
    + simpl in E. subst r2. simpl in E2.
      rewrite (H1 a (or_introl eq_refl)) in E2. discriminate E2.
    + simpl in E. inversion E as [[Eab Et]]. subst b.
      destruct (IH r1 t2 r2 Et) as [-> ->]; try assumption.
      * intros c Hc. apply H1. right. exact Hc.
      * intros c Hc. apply H2. right. exact Hc.
      * split; reflexivity.
Qed.

Section BlankLines.
Variable L : PyLib.

Lemma line_of_blanks : forall token b0 mid c,
    code_shape L token ->
    forallb Re.space (b0 :: mid ++ [c]) = true -> Re.dot c = true ->
    line_entries L (token ++ b0 :: mid ++ [c])
    = [{| code := token; serbian := []; latin := [] |}].
Proof.
  intros token b0 mid c Hshape Hsp Hdot.
  simpl in Hsp. apply andb_true_iff in Hsp. destruct Hsp as [Hb0 Hrest].
  assert (Hc : Re.space c = true).
  { rewrite forallb_app in Hrest. apply andb_true_iff in Hrest.
    destruct Hrest as [_ Hc]. simpl in Hc. rewrite andb_true_r in Hc. exact Hc. }
  assert (Hmid : forallb Re.space mid = true).
  { rewrite forallb_app in Hrest. apply andb_true_iff in Hrest. apply Hrest. }
  assert (E : Re.match_ (LINE_RE L) (token ++ b0 :: mid ++ [c])
              = Some (length token + S (length mid) + 1, [(2, [c]); (1, token)])).
  { unfold Re.match_, LINE_RE. rewrite exec_cat.
    change (Re.exec Re.Bol 0 ?s ?g ?k) with (k 0 s g). cbv beta.
    rewrite exec_cat.
    change (Re.exec (Re.Grp 1 ?a) ?i ?s ?g ?k)
      with (Re.exec a i s g (fun i' s' g' => k i' s' ((1, firstn (i' - i) s) :: g'))).
    apply exec_code_run; [exact Hshape|exact Hb0|].
    cbv beta. rewrite firstn_run. rewrite exec_cat.
    unfold Re.Plus at 1. rewrite exec_cat, exec_cls_cons, Hb0, exec_star_cls.
    apply greedy_back_one; [exact Hmid|exact Hc|reflexivity|].
    rewrite exec_cat. change [c] with ([c] ++ []).
    apply exec_grp_plus_run; [simpl; rewrite Hdot; reflexivity|discriminate|exact I|].
    cbv beta. cbn [Re.exec]. do 2 f_equal. simpl. lia. }
  unfold line_entries. rewrite E. cbn [Re.group Nat.eqb].
  replace (Re.split PARTS_RE [c]) with [[c]].
  - cbn [filter]. replace (Str.strip [c]) with (@nil char); [reflexivity|].
    unfold Str.strip. simpl. change (Str.isspace c) with (Re.space c). rewrite Hc.
    reflexivity.
  - unfold Re.split. simpl Re.split_from. unfold Re.match_at.
    rewrite parts_no_match by reflexivity. reflexivity.
Qed.

Lemma line_too_short : forall token blanks,
    code_shape L token -> forallb Re.space blanks = true -> length blanks < 2 ->
    line_entries L (token ++ blanks) = [].
Proof.
  intros token blanks Hshape Hsp Hlen. unfold line_entries.
  destruct (Re.match_ (LINE_RE L) (token ++ blanks)) as [[n g]|] eqn:E; [exfalso|reflexivity].
  apply line_match_inv in E.
  destruct E as (token' & gap & body & tail & Hl & Hshape' & Hgne & Hgap & Hbne & _).
  destruct (@token_unique token blanks token' (gap ++ body ++ tail) Hl) as [_ Hb].
  - intros c. apply code_shape_no_space with (L := L). exact Hshape.
  - intros c. apply code_shape_no_space with (L := L). exact Hshape'.
  - destruct blanks as [|b bs]; [exact I|]. simpl in *.
    apply andb_true_iff in Hsp. apply Hsp.
  - destruct gap as [|b gap]; [congruence|]. simpl in *.
    apply andb_true_iff in Hgap. apply Hgap.
  - subst blanks. rewrite !length_app in Hlen.
    destruct gap; [congruence|]. destruct body; [congruence|]. simpl in Hlen. lia.
Qed.

End BlankLines.

(** X12. A line that holds a code and after it nothing but whitespace: with
    two or more whitespace characters the line pattern matches, the last of
    them being the remainder, and the entry that comes out has two empty
    descriptions; with one or none the line gives no entry. *)
Theorem X12_code_followed_by_blanks : forall (L : PyLib) (token blanks : str),
    _is_code L token = true ->
    forallb Re.space blanks = true -> forallb Re.dot blanks = true ->
    line_entries L (token ++ blanks)
    = if 2 <=? length blanks
      then [{| code := token; serbian := []; latin := [] |}]
      else [].
Proof.
  intros L token blanks Hcode Hsp Hdot. apply is_code_shape in Hcode.
  destruct (2 <=? length blanks) eqn:E.
  - apply Nat.leb_le in E. destruct blanks as [|b0 rest]; [simpl in E; lia|].
    destruct (exists_last (l := rest)) as (mid & c & ->).
    { intros ->. simpl in E. lia. }
    apply line_of_blanks; [exact Hcode|exact Hsp|].
    simpl in Hdot. apply andb_true_iff in Hdot. destruct Hdot as [_ Hdot].
    rewrite forallb_app in Hdot. apply andb_true_iff in Hdot.
    destruct Hdot as [_ Hdot]. simpl in Hdot. rewrite andb_true_r in Hdot. exact Hdot.
  - apply Nat.leb_gt in E. apply line_too_short; assumption.
Qed.

(** A00 and two spaces: an entry without descriptions. *)
Lemma X12_code_followed_by_two_spaces :
  _is_code Reference.lib (u "A00") = true
  /\ forallb Re.space (u "  ") = true /\ forallb Re.dot (u "  ") = true
  /\ line_entries Reference.lib (u "A00" ++ u "  ")
     = [{| code := u "A00"; serbian := []; latin := [] |}].
Proof.
  split; [reflexivity|]. split; [reflexivity|]. split; [reflexivity|].
  apply (X12_code_followed_by_blanks Reference.lib (u "A00") (u "  "));
    vm_compute; reflexivity.
Defined.

(** ** Table rows *)

(** X13. What a table row gives, by the number of its cells: nothing when
    it has fewer than two cells or its first cell is not a code; otherwise
    one entry made of the first two cells and of the third, or of the empty
    string when there are only two. *)
Theorem X13_table_row_by_cells : forall (L : PyLib) (cells : list str),
    row_entries L cells
    = match cells with
      | c1 :: c2 :: rest =>
        if _is_code L c1
        then [{| code := c1; serbian := c2;
                 latin := match rest with [] => [] | c3 :: _ => c3 end |}]
        else []
      | _ => []
      end.
Proof.
  intros L [|c1 [|c2 rest]].
  - reflexivity.
  - unfold row_entries. rewrite header_test_never_holds. reflexivity.
  - destruct (_is_code L c1) eqn:E.
    + apply row_entries_code. exact E.
    + apply row_entries_not_code. exact E.
Qed.

(** ** The delay *)

Section SleepFacts.
Variable L : PyLib.
Variable W : Type.
Variable get : str -> W -> outcome Response * W.
Variable parser : str -> node.
Variable log : level -> str -> W -> W.
Variable self : MKBScraper.

Lemma fetch_pages_no_sleep : forall (sleep1 sleep2 : Z -> W -> W) pages entries w,
    delay self = 0%Z ->
    fetch_pages L {| world := W; session_get := get; time_sleep := sleep1;
                     html_parser := parser; logger := log |} self pages entries w
    = fetch_pages L {| world := W; session_get := get; time_sleep := sleep2;
                       html_parser := parser; logger := log |} self pages entries w.
Proof.
  intros sleep1 sleep2 pages. induction pages as [|page pages IH]; intros entries w H.
  - reflexivity.
  - rewrite !fetch_pages_cons. cbn [logger html_parser time_sleep].
    change (_fetch {| world := W; session_get := get; time_sleep := sleep1;
                      html_parser := parser; logger := log |})
      with (_fetch {| world := W; session_get := get; time_sleep := sleep2;
                      html_parser := parser; logger := log |}).
    destruct (_fetch {| world := W; session_get := get; time_sleep := sleep2;
                        html_parser := parser; logger := log |} page
                     (log INFO (Message.fetching_detail page) w))
      as [[html|e] w1]; [|reflexivity].
    cbv zeta. rewrite H. change (0 =? 0)%Z with true. cbv iota. apply IH. exact H.
Qed.

End SleepFacts.

(** X14. A scraper whose delay is zero never calls [time.sleep]: the run is
    the same whatever [time.sleep] would do. *)
Theorem X14_no_delay_never_sleeps :
  forall (L : PyLib) (W : Type) (get : str -> W -> outcome Response * W)
         (parser : str -> node) (log : level -> str -> W -> W)
         (sleep1 sleep2 : Z -> W -> W) (self : MKBScraper) (w : W),
    delay self = 0%Z ->
    scrape L {| world := W; session_get := get; time_sleep := sleep1;
                html_parser := parser; logger := log |} self w
    = scrape L {| world := W; session_get := get; time_sleep := sleep2;
                  html_parser := parser; logger := log |} self w.
Proof.
  intros L W get parser log sleep1 sleep2 self w H. rewrite !scrape_steps.
  cbn [logger html_parser].
  change (_fetch {| world := W; session_get := get; time_sleep := sleep1;
                    html_parser := parser; logger := log |})
    with (_fetch {| world := W; session_get := get; time_sleep := sleep2;
                    html_parser := parser; logger := log |}).
  destruct (_fetch {| world := W; session_get := get; time_sleep := sleep2;
                      html_parser := parser; logger := log |} (index_url self)
                   (log INFO (Message.fetching_index (index_url self)) w))
    as [[index_html|e] w1]; [|reflexivity].
  cbv zeta. destruct (_discover_detail_pages L self (parser index_html)) as [pages|e];
    [|reflexivity].
  rewrite (@fetch_pages_no_sleep L W get parser log self sleep1 sleep2) by exact H.
  reflexivity.
Qed.

(** With a negative delay, which [__init__] turns into none, the run on the
    small site is the same when [time.sleep] counts as when it does not. *)
Lemma X14_negative_delay_never_sleeps :
  delay (__init__ BASE_URL INDEX_PATH (-3)) = 0%Z
  /\ scrape Reference.lib
            {| world := nat * Z; session_get := session_get small_site;
               time_sleep := time_sleep small_site; html_parser := small_site_page;
               logger := logger small_site |}
            (__init__ BASE_URL INDEX_PATH (-3)) (0, 0%Z)
     = scrape Reference.lib
              {| world := nat * Z; session_get := session_get small_site;
                 time_sleep := fun _ w => w; html_parser := small_site_page;
                 logger := logger small_site |}
              (__init__ BASE_URL INDEX_PATH (-3)) (0, 0%Z).
Proof.
  split; [reflexivity|].
  apply (@X14_no_delay_never_sleeps Reference.lib (nat * Z)%type (session_get small_site)
           small_site_page (logger small_site) (time_sleep small_site) (fun _ w => w)
           (__init__ BASE_URL INDEX_PATH (-3)) (0, 0%Z)).
  reflexivity.
Defined.

(** ** The command *)

(** Equality of two machines that differ in how the lines of the standard
    error are grouped. *)
Ltac machine_eq m :=
  destruct m as [? ? ? ? [|]]; unfold more_err, set_net, info_lines;
  cbn [net files out err logging map app];
  rewrite ?map_app, <- ?(@app_assoc str), ?app_nil_r;
  cbn [map app]; reflexivity.

Section MachineFacts.
Variable L : PyLib.
Variable E : Env.
Variable self : MKBScraper.

Lemma fetch_on_machine : forall url m,
    _fetch (on_machine E) url m
    = let (r, w) := _fetch E url (net m) in (r, set_net m w).
Proof.
  intros url m. unfold _fetch, bind. simpl.
  destruct (session_get E url (net m)) as [[resp|e] w]; [|reflexivity].
  destruct ((400 <=? status_code resp) && (status_code resp <? 600))%N; reflexivity.
Qed.

Lemma more_err_nil : forall (m : Machine (world E)), more_err [] m = m.
Proof. intros [n f o e lg]. unfold more_err. cbn. rewrite app_nil_r. reflexivity. Qed.

Lemma more_err_more : forall l1 l2 (m : Machine (world E)),
    more_err l2 (more_err l1 m) = more_err (l1 ++ l2) m.
Proof. intros l1 l2 m. unfold more_err. cbn. rewrite app_assoc. reflexivity. Qed.

Lemma log_line_info : forall message (m : Machine (world E)),
    log_line INFO message m = more_err (info_lines (logging m) [message]) m.
Proof.
  intros message [n f o e lg]. unfold log_line, info_lines, to_err, more_err. cbn.
  destruct lg; [reflexivity|]. rewrite app_nil_r. reflexivity.
Qed.

Lemma info_lines_app : forall on l1 l2,
    info_lines on l1 ++ info_lines on l2 = info_lines on (l1 ++ l2).
Proof. intros [|] l1 l2; unfold info_lines; [rewrite map_app|]; reflexivity. Qed.

Lemma set_net_more_err : forall lines (m : Machine (world E)) w,
    set_net (more_err lines m) w = more_err lines (set_net m w).
Proof. reflexivity. Qed.

(** The detail pages of a site that serves them, fetched on the machine:
    the entries, and one line on the standard error for each page. *)
Lemma fetch_pages_served_on_machine : forall content pages entries m,
    serves E content pages ->
    exists w',
      fetch_pages L (on_machine E) self pages entries m
      = (Returned (entries
                   ++ flat_map (fun url => _parse_entries L (html_parser E (content url)))
                               pages),
         more_err (info_lines (logging m) (map Message.fetching_detail pages))
                  (set_net m w')).
Proof.
  intros content. induction pages as [|page pages IH]; intros entries m H.
  - exists (net m). cbn [fetch_pages map flat_map]. unfold ret.
    rewrite app_nil_r. destruct m as [n f o e [|]]; unfold more_err, set_net; cbn;
      rewrite app_nil_r; reflexivity.
  - assert (H1 : serves E content [page]).
    { intros url [<-|[]]. apply H. left. reflexivity. }
    assert (H2 : serves E content pages).
    { intros url Hin. apply H. right. exact Hin. }
    rewrite fetch_pages_cons. cbn [logger on_machine html_parser time_sleep].
    rewrite fetch_on_machine, log_line_info.
    destruct (@fetch_served E content page (net m) H1) as (w1 & Hf).
    change (net (more_err ?l m)) with (net m). rewrite Hf. cbv zeta.
    cbn [log_line].
    match goal with
    | |- context [fetch_pages L (on_machine E) self pages ?es ?m0] =>
      destruct (IH es m0 H2) as (w' & Hp)
    end.
    exists w'. rewrite Hp. cbn [flat_map map]. rewrite <- app_assoc. f_equal.
    destruct (delay self =? 0)%Z; machine_eq m.
Qed.

(** The run on the machine, for a site that serves its pages. *)
Lemma scrape_served_on_machine : forall content pages m,
    _discover_detail_pages L self (html_parser E (content (index_url self)))
    = Returned pages ->
    serves E content (index_url self :: pages) ->
    let entries :=
        Py.sorted (entry_ltb L)
                  (_deduplicate
                     (flat_map (fun url => _parse_entries L (html_parser E (content url)))
                               (index_url self :: pages))) in
    exists w',
      scrape L (on_machine E) self m
      = (Returned entries,
         more_err (info_lines (logging m)
                              ([Message.fetching_index (index_url self);
                                Message.discovered (length pages)]
                                 ++ map Message.fetching_detail pages
                                 ++ [Message.collected (length entries)]))
                  (set_net m w')).
Proof.
  intros content pages m Hd H entries.
  assert (H1 : serves E content [index_url self]).
  { intros url [<-|[]]. apply H. left. reflexivity. }
  assert (H2 : serves E content pages).
  { intros url Hin. apply H. right. exact Hin. }
  assert (Hw : Forall (well_formed L)
                 (_deduplicate
                    (flat_map (fun url => _parse_entries L (html_parser E (content url)))
                              (index_url self :: pages)))).
  { apply MergeFacts.deduplicate_forall.
    - intros e existing. apply well_formed_merge.
    - apply Forall_forall. intros e He. apply in_flat_map in He.
      destruct He as (url & _ & He).
      pose proof (parse_entries_well_formed L (html_parser E (content url))) as Hall.
      rewrite Forall_forall in Hall. apply Hall. exact He. }
  rewrite scrape_steps. cbn [logger on_machine html_parser].
  rewrite fetch_on_machine, log_line_info.
  destruct (@fetch_served E content (index_url self) (net m) H1) as (w1 & Hf).
  change (net (more_err ?l m)) with (net m). rewrite Hf. cbv zeta. rewrite Hd.
  rewrite log_line_info.
  match goal with
  | |- context [fetch_pages L (on_machine E) self pages ?es ?m0] =>
    destruct (@fetch_pages_served_on_machine content pages es m0 H2) as (w' & Hp)
  end.
  exists w'. rewrite Hp, log_line_info.
  change (_parse_entries L (html_parser E (content (index_url self)))
          ++ flat_map (fun url => _parse_entries L (html_parser E (content url))) pages)
    with (flat_map (fun url => _parse_entries L (html_parser E (content url)))
                   (index_url self :: pages)).
  rewrite (sorted_by_well_formed Hw). fold entries.
  assert (Hlen : length entries
                 = length (_deduplicate
                             (flat_map (fun url => _parse_entries L
                                                     (html_parser E (content url)))
                                       (index_url self :: pages)))).
  { unfold entries. apply sorted_length. }
  rewrite <- Hlen. f_equal.
  machine_eq m.
Qed.

(** What a run leaves of the machine: the files, the standard output and
    the logging set-up as they were, and more lines on the standard
    error. *)
Lemma fetch_pages_frame : forall pages entries m r m',
    fetch_pages L (on_machine E) self pages entries m = (r, m') ->
    exists w' messages, m' = more_err (info_lines (logging m) messages) (set_net m w').
Proof.
  induction pages as [|page pages IH]; intros entries m r m' H.
  - cbn [fetch_pages] in H. unfold ret in H. inversion H; subst.
    exists (net m'), []. destruct m' as [n f o e [|]]; unfold more_err, set_net; cbn;
      rewrite app_nil_r; reflexivity.
  - rewrite fetch_pages_cons in H. cbn [logger on_machine html_parser time_sleep] in H.
    rewrite fetch_on_machine, log_line_info in H.
    change (net (more_err ?l m)) with (net m) in H.
    destruct (_fetch E page (net m)) as [[html|e] w1].
    + cbv zeta in H. cbn [log_line] in H. apply IH in H.
      destruct H as (w' & messages & ->).
      exists w', (Message.fetching_detail page :: messages).
      destruct (delay self =? 0)%Z; machine_eq m.
    + inversion H; subst. exists w1, [Message.fetching_detail page]. reflexivity.
Qed.

Lemma scrape_frame : forall m r m',
    scrape L (on_machine E) self m = (r, m') ->
    exists w' messages,
      m' = more_err (info_lines (logging m)
                                (Message.fetching_index (index_url self) :: messages))
                    (set_net m w').
Proof.
  intros m r m' H. rewrite scrape_steps in H. cbn [logger on_machine html_parser] in H.
  rewrite fetch_on_machine, log_line_info in H.
  change (net (more_err ?l m)) with (net m) in H.
  destruct (_fetch E (index_url self) (net m)) as [[html|e] w1].
  - cbv zeta in H.
    destruct (_discover_detail_pages L self (html_parser E html)) as [pages|e].
    + rewrite log_line_info in H.
      match type of H with
      | context [fetch_pages L (on_machine E) self pages ?es ?m0] =>
        destruct (fetch_pages L (on_machine E) self pages es m0) as [r1 m1] eqn:Hp
      end.
      apply fetch_pages_frame in Hp. destruct Hp as (w' & messages & ->).
      destruct r1 as [entries|e].
      * rewrite log_line_info in H. inversion H; subst.
        exists w', (Message.discovered (length pages) :: messages
                      ++ [Message.collected (length (_deduplicate entries))]).
        machine_eq m.
      * inversion H; subst. exists w', (Message.discovered (length pages) :: messages).
        machine_eq m.
    + inversion H; subst. exists w1, []. reflexivity.
  - inversion H; subst. exists w1, []. reflexivity.
Qed.

End MachineFacts.

(** *** Dictionaries *)

Section DictFacts.
Variable V : Type.

Lemma dict_get_set : forall (d : list (str * V)) k v, Py.get (Py.set d k v) k = Some v.
Proof.
  induction d as [|[k' v'] d IH]; simpl; intros k v.
  - rewrite str_eqb_refl. reflexivity.
  - destruct (Str.eqb k' k) eqn:E; simpl; rewrite E; [reflexivity|apply IH].
Qed.

Lemma dict_set_set : forall (d : list (str * V)) k v v',
    Py.set (Py.set d k v) k v' = Py.set d k v'.
Proof.
  induction d as [|[k' v0] d IH]; simpl; intros k v v'.
  - rewrite str_eqb_refl. reflexivity.
  - destruct (Str.eqb k' k) eqn:E; simpl; rewrite E; [reflexivity|].
    f_equal. apply IH.
Qed.

Lemma dict_set_same : forall (d : list (str * V)) k v,
    Py.get d k = Some v -> Py.set d k v = d.
Proof.
  induction d as [|[k' v0] d IH]; simpl; intros k v H; [discriminate|].
  destruct (Str.eqb k' k); [inversion H; reflexivity|]. f_equal. apply IH. exact H.
Qed.

End DictFacts.

Section WriteFacts.
Variable E : Env.
Variable describe : failure -> str.

(** Rows written to an open file in memory are appended to it, one after
    the other; nothing else changes. *)
Lemma writerows_mem : forall rows (m : Machine (world E)) path old,
    Py.get (files m) path = Some old ->
    writerows (mem_system E describe) path rows m
    = (None, set_files m (Py.set (files m) path (old ++ concat (map Csv.row rows)))).
Proof.
  induction rows as [|r rows IH]; intros m path old H.
  - simpl. rewrite app_nil_r, (dict_set_same _ _ H). destruct m; reflexivity.
  - simpl writerows. simpl write. rewrite H.
    rewrite (IH _ path (old ++ Csv.row r)) by (simpl; apply dict_get_set).
    simpl. rewrite dict_set_set, <- app_assoc. reflexivity.
Qed.

End WriteFacts.



Section FailureFacts.
Variable L : PyLib.
Variable S : System.

Lemma command_run_failed : forall args w e w1,
    scrape L (site S) (__init__ BASE_URL INDEX_PATH (args_delay args)) (basicConfig S w)
    = (Raised e, w1) ->
    main L S args w
    = (1%N, print_stderr S (u "Error: " ++ describe S (RunFailed e)) w1).
Proof.
  intros args w e w1 H. unfold main, scrape_to_csv. rewrite H. reflexivity.
Qed.

End FailureFacts.

Section RunFailures.
Variable L : PyLib.
Variable E : Env.
Variable self : MKBScraper.

Lemma scrape_index_failed : forall w e w1,
    _fetch E (index_url self) (logger E INFO (Message.fetching_index (index_url self)) w)
    = (Raised e, w1) ->
    scrape L E self w = (Raised e, w1).
Proof. intros w e w1 H. rewrite scrape_steps, H. reflexivity. Qed.

(** A link that makes the discoverer raise ends the run after the index
    page. *)
Lemma scrape_discover_failed : forall w index_html w1 e,
    _fetch E (index_url self) (logger E INFO (Message.fetching_index (index_url self)) w)
    = (Returned index_html, w1) ->
    _discover_detail_pages L self (html_parser E index_html) = Raised e ->
    scrape L E self w = (Raised e, w1).
Proof.
  intros w index_html w1 e Hf Hd. rewrite scrape_steps, Hf. cbv zeta. rewrite Hd.
  reflexivity.
Qed.

(** What a run raises: what a fetch raised, or a [ValueError]. *)
Lemma scrape_raised : forall w e w',
    scrape L E self w = (Raised e, w') ->
    (exists url w0, _fetch E url w0 = (Raised e, w')) \/ exists detail, e = ValueError detail.
Proof.
  intros w e w' H. rewrite scrape_steps in H.
  destruct (_fetch E (index_url self)
                   (logger E INFO (Message.fetching_index (index_url self)) w))
    as [[index_html|e1] w1] eqn:Hi.
  2: { inversion H; subst. left. eexists. eexists. exact Hi. }
  cbv zeta in H.
  destruct (_discover_detail_pages L self (html_parser E index_html)) as [pages|e1] eqn:Hd.
  2: { inversion H; subst. right. apply discover_raised in Hd.
       destruct Hd as (b & href & a & _ & _ & Hd).
       eapply detail_link_raised. exact Hd. }
  destruct (fetch_pages L E self pages (_parse_entries L (html_parser E index_html))
                        (logger E INFO (Message.discovered (length pages)) w1))
    as [[fetched|e1] w2] eqn:Hp.
  - inversion H as [[Hs Hw]]. right.
    apply sorted_by_raised in Hs. destruct Hs as (x & _ & Hx).
    apply sort_key_raised in Hx. destruct Hx as (p & n & t & _ & _ & ->).
    eexists. reflexivity.
  - inversion H; subst. left. clear H Hi Hd.
    revert Hp. generalize (_parse_entries L (html_parser E index_html)).
    generalize (logger E INFO (Message.discovered (length pages)) w1).
    induction pages as [|page pages IH]; intros w0 entries Hp; [discriminate Hp|].
    rewrite fetch_pages_cons in Hp.
    destruct (_fetch E page (logger E INFO (Message.fetching_detail page) w0))
      as [[html|e2] w3] eqn:Hf.
    + cbv zeta in Hp. eapply IH. exact Hp.
    + inversion Hp; subst. eexists. eexists. exact Hf.
Qed.

End RunFailures.


(** *** The rows *)

Lemma field_plain : forall s, plain s = true -> Csv.field s = s.
Proof.
  intros s H. unfold Csv.field.
  assert (Hq : flat_map (fun c => if (c =? Csv.quotechar)%N
                                  then [Csv.quotechar; Csv.quotechar] else [c]) s = s).
  { induction s as [|c s IH]; [reflexivity|]. simpl in H.
    apply andb_true_iff in H. destruct H as [Hc Hs]. simpl. rewrite (IH Hs).
    unfold Csv.special in Hc. apply negb_true_iff in Hc.
    apply orb_false_iff in Hc. destruct Hc as [Hc _].
    apply orb_false_iff in Hc. destruct Hc as [_ Hc]. rewrite Hc. reflexivity. }
  rewrite Hq.
  replace (existsb Csv.special s) with false; [reflexivity|].
  symmetry. apply not_true_is_false. intros Hex. apply existsb_exists in Hex.
  destruct Hex as (c & Hin & Hc). unfold plain in H. rewrite forallb_forall in H.
  specialize (H c Hin). rewrite Hc in H. discriminate H.
Qed.

Lemma code_plain : forall L token, _is_code L token = true -> plain token = true.
Proof.
  intros L token H. apply is_code_shape in H.
  destruct H as (letters & digits & suffix & -> & _ & Hup & _ & Hdig & Hsuf).
  assert (Hcls : forall c, Csv.special c = true -> (c < 128)%N /\ Re.upper c = false
                                                  /\ cls_09AZ c = false /\ c <> chr ".").
  { intros c Hc. unfold Csv.special in Hc. simpl in Hc. rewrite orb_false_r in Hc.
    unfold Csv.delimiter, Csv.quotechar in Hc.
    unfold Re.upper, cls_09AZ, Re.digit09, Re.upper. bprop; subst;
      repeat split; try reflexivity; discriminate. }
  unfold plain. rewrite !forallb_app. apply andb_true_iff. split; [|apply andb_true_iff; split].
  - apply forallb_forall. intros c Hin. apply negb_true_iff. apply not_true_is_false.
    intros Hc. destruct (Hcls c Hc) as (_ & Hu & _).
    rewrite forallb_forall in Hup. rewrite (Hup c Hin) in Hu. discriminate Hu.
  - apply forallb_forall. intros c Hin. apply negb_true_iff. apply not_true_is_false.
    intros Hc. destruct (Hcls c Hc) as (Ha & _ & H9 & _).
    rewrite forallb_forall in Hdig. specialize (Hdig c Hin).
    apply (@cls_d_ascii L c Ha) in Hdig.
    unfold cls_09AZ, Re.digit09 in H9. apply orb_false_iff in H9. destruct H9 as [H9 _].
    bprop; lia.
  - destruct Hsuf as [->|(tail & -> & _ & Htail)]; [reflexivity|].
    simpl. apply forallb_forall. intros c Hin. apply negb_true_iff. apply not_true_is_false.
    intros Hc. destruct (Hcls c Hc) as (_ & _ & H9 & _).
    rewrite forallb_forall in Htail. rewrite (Htail c Hin) in H9. discriminate H9.
Qed.

Lemma row_of_three : forall a b c,
    Csv.row [a; b; c]
    = Csv.field a ++ u "|" ++ Csv.field b ++ u "|" ++ Csv.field c ++ [13; 10]%N.
Proof.
  intros [|x a] b c; unfold Csv.row; cbn [map Str.join];
    rewrite <- !app_assoc; reflexivity.
Qed.

(** X17. The row of an entry in the file: the code, which never needs
    quotes, the two descriptions, each between quotes when it holds a pipe,
    a quote, a carriage return or a line feed, with pipes between them and
    CR LF at the end. An entry whose descriptions hold none of these
    characters is written as code|serbian|latin. *)
Theorem X17_csv_row_of_an_entry : forall (L : PyLib) (entry : MKBEntry),
    _is_code L (code entry) = true ->
    Csv.row (fields_of entry)
    = code entry ++ u "|" ++ Csv.field (serbian entry) ++ u "|" ++ Csv.field (latin entry)
        ++ [13; 10]%N
    /\ (plain (serbian entry) = true -> plain (latin entry) = true ->
        Csv.row (fields_of entry)
        = code entry ++ u "|" ++ serbian entry ++ u "|" ++ latin entry ++ [13; 10]%N).
Proof.
  intros L entry H.
  assert (E : Csv.row (fields_of entry)
              = code entry ++ u "|" ++ Csv.field (serbian entry) ++ u "|"
                  ++ Csv.field (latin entry) ++ [13; 10]%N).
  { unfold fields_of. rewrite row_of_three.
    rewrite (@field_plain _ (@code_plain L _ H)). reflexivity. }
  split; [exact E|]. intros Hs Hl. rewrite E, (@field_plain _ Hs), (@field_plain _ Hl). reflexivity.
Qed.

(** A description with a pipe is written between quotes. *)
Lemma X17_csv_row_of_a_quoted_entry :
  _is_code Reference.lib (u "A00") = true
  /\ Csv.row (fields_of {| code := u "A00"; serbian := u "Kolera | Cholera"; latin := [] |})
     = u "A00|" ++ [34%N] ++ u "Kolera | Cholera" ++ [34%N] ++ u "|" ++ [13; 10]%N.
Proof.
  split; [reflexivity|].
  rewrite (proj1 (@X17_csv_row_of_an_entry Reference.lib
                    {| code := u "A00"; serbian := u "Kolera | Cholera"; latin := [] |}
                    eq_refl)).
  reflexivity.
Defined.

(** ** Lines with and without a remainder *)

Section LineNeeds.
Variable L : PyLib.

(** A line gives an entry only if a code token at its start is followed by
    whitespace. *)
Lemma line_needs_blank : forall line,
    (forall token v, line = token ++ v -> code_shape L token -> ~ starts_blank v) ->
    line_entries L line = [].
Proof.
  intros line Hno. unfold line_entries.
  destruct (Re.match_ (LINE_RE L) line) as [[n g]|] eqn:E; [exfalso|reflexivity].
  apply line_match_inv in E.
  destruct E as (token & gap & body & tail & Hl & Hshape & Hgne & Hgap & _).
  apply (Hno token (gap ++ body ++ tail) Hl Hshape).
  destruct gap as [|c gap]; [congruence|]. exists c, (gap ++ body ++ tail).
  split; [reflexivity|]. simpl in Hgap. apply andb_true_iff in Hgap. apply Hgap.
Qed.

Lemma line_entry_code : forall line e,
    In e (line_entries L line) -> exists v, line = code e ++ v /\ starts_blank v.
Proof.
  intros line e H. unfold line_entries in H.
  destruct (Re.match_ (LINE_RE L) line) as [[n g]|] eqn:E; [|contradiction].
  apply line_match_inv in E.
  destruct E as (token & gap & body & tail & Hl & _ & Hgne & Hgap & _ & _ & _ & H1 & _).
  rewrite H1 in H. destruct H as [<-|[]]. simpl.
  exists (gap ++ body ++ tail). split; [exact Hl|].
  destruct gap as [|c gap]; [congruence|]. exists c, (gap ++ body ++ tail).
  split; [reflexivity|]. simpl in Hgap. apply andb_true_iff in Hgap. apply Hgap.
Qed.

End LineNeeds.

(** The first piece [re.split] cuts off starts with what was read before. *)
Lemma split_first : forall n i cur s,
    exists p rest, Re.split_from PARTS_RE n i cur s = (rev cur ++ p) :: rest.
Proof.
  induction n as [|n IH]; intros i cur s; simpl.
  - exists [], []. rewrite app_nil_r. reflexivity.
  - destruct (Re.match_at PARTS_RE i s) as [[i' s']|].
    + exists [], (Re.split_from PARTS_RE n i' [] s'). rewrite app_nil_r. reflexivity.
    + destruct s as [|c s].
      * exists [], []. rewrite app_nil_r. reflexivity.
      * destruct (IH (S i) (c :: cur) s) as (p & rest & H).
        exists (c :: p), rest. rewrite H. simpl. rewrite <- app_assoc. reflexivity.
Qed.

Lemma split_from_step : forall r n i cur s,
    Re.split_from r (S n) i cur s
    = match Re.match_at r i s with
      | Some (i', s') => rev cur :: Re.split_from r n i' [] s'
      | None =>
        match s with
        | [] => [rev cur]
        | c :: s' => Re.split_from r n (S i) (c :: cur) s'
        end
      end.
Proof. reflexivity. Qed.

Lemma split_head : forall c t,
    Re.space c = false ->
    exists p rest, Re.split PARTS_RE (c :: t) = (c :: p) :: rest.
Proof.
  intros c t Hc. unfold Re.split. rewrite split_from_step. unfold Re.match_at.
  rewrite parts_no_match.
  - match goal with
    | |- context [Re.split_from PARTS_RE ?n ?i ?cur ?s] =>
      destruct (split_first n i cur s) as (p & rest & H)
    end.
    exists p, rest. rewrite H. reflexivity.
  - simpl. destruct t; [reflexivity|]. rewrite Hc. reflexivity.
Qed.

Lemma strip_head : forall c p,
    Re.space c = false -> exists p', Str.strip (c :: p) = c :: p'.
Proof.
  intros c p Hc. unfold Str.strip. simpl Str.lstrip_with.
  change (Str.isspace c) with (Re.space c). rewrite Hc.
  destruct (rstrip_with_prefix Str.isspace (c :: p)) as (b & Hb & Hall).
  destruct (Str.rstrip_with Str.isspace (c :: p)) as [|x r] eqn:E.
  - exfalso. simpl in Hb. subst b. simpl in Hall.
    change (Str.isspace c) with (Re.space c) in Hall. rewrite Hc in Hall. discriminate Hall.
  - simpl in Hb. inversion Hb; subst x. exists r. reflexivity.
Qed.

Lemma pieces_head : forall c t,
    Re.space c = false -> exists p' more, pieces_of (c :: t) = (c :: p') :: more.
Proof.
  intros c t Hc. unfold pieces_of.
  destruct (@split_head c t Hc) as (p & rest & H). rewrite H.
  destruct (@strip_head c p Hc) as (p' & Hp). cbn [filter]. rewrite Hp. cbn [Str.truthy map].
  rewrite Hp. eexists. eexists. reflexivity.
Qed.

Section LineGives.
Variable L : PyLib.

Lemma line_with_remainder : forall token gap body,
    code_shape L token ->
    gap <> [] -> forallb Re.space gap = true ->
    forallb Re.dot body = true ->
    (exists c t, body = c :: t /\ Re.space c = false) ->
    line_entries L (token ++ gap ++ body)
    = [{| code := token;
          serbian := nth 0 (pieces_of body) [];
          latin := nth 1 (pieces_of body) [] |}].
Proof.
  intros token gap body Hc Hg Hgap Hbody Hhead.
  unfold line_entries. rewrite line_match by assumption.
  cbn [Re.group Nat.eqb]. fold (pieces_of body).
  destruct Hhead as (c & t & -> & Hcs).
  destruct (@pieces_head c t Hcs) as (p' & more & Hp). rewrite Hp.
  destruct more; reflexivity.
Qed.

End LineGives.

Ltac refute_code_then_blank L :=
  let E := fresh "E" in
  let Hl := fresh "Hl" in
  let Hup := fresh "Hup" in
  let Hd := fresh "Hd" in
  let Hdig := fresh "Hdig" in
  let Hsuf := fresh "Hsuf" in
  let Hc := fresh "Hc" in
  let Hlen := fresh "Hlen" in
  let Htail := fresh "Htail" in
  intros ? ? E (letters & digits & suffix & -> & Hl & Hup & Hd & Hdig & Hsuf)
         (c & t & -> & Hc);
  destruct letters as [|? [|? [|? ?]]]; simpl in Hl; try lia;
  destruct digits as [|? [|? [|? ?]]]; simpl in Hd; try lia;
  (destruct Hsuf as [->|(tail & -> & Hlen & Htail)];
   [|destruct tail as [|? [|? [|? [|? [|? ?]]]]]; simpl in Hlen; try lia]);
  simpl in E; inversion E; subst;
  try discriminate Hup; try discriminate Hc; try discriminate Htail;
  simpl in Hdig;
  repeat match goal with
         | H : _ && _ = true |- _ => apply andb_true_iff in H; destruct H
         end;
  repeat match goal with
         | H : cls_d L ?c = true |- _ => apply (@cls_d_ascii L) in H; [|reflexivity]
         end;
  lia.

(** X18. In the free-text strategy a line gives an entry only if a code at
    its very start is followed by whitespace, and the code of the entry is
    that code. A code followed by another character, a code alone on its
    line, and a code in lower case give nothing. *)
Theorem X18_line_needs_code_then_whitespace : forall L : PyLib,
    (forall line e,
        In e (line_entries L line) -> exists v, line = code e ++ v /\ starts_blank v)
    /\ (forall line,
           (forall token v, line = token ++ v -> _is_code L token = true -> ~ starts_blank v) ->
           line_entries L line = [])
    /\ line_entries L (u "A000 Kolera") = []
    /\ line_entries L (u "A00: Kolera") = []
    /\ line_entries L (u "A00.12345 Kolera") = []
    /\ line_entries L (u "A00") = []
    /\ line_entries L (u "a00 Kolera") = [].
Proof.
  intros L. split; [apply line_entry_code|]. split.
  { intros line H. apply line_needs_blank. intros token v E Hs.
    apply (H token v E). apply is_code_shape. exact Hs. }
  repeat split; apply line_needs_blank; refute_code_then_blank L.
Qed.

(** X19. A line made of a code, whitespace and a remainder that starts with
    another character and holds no newline gives one entry: its code is the
    code, its descriptions are the first two pieces of the remainder that
    are not blank, stripped, and the primary description is not empty: it
    starts with the first character of the remainder. *)
Theorem X19_line_with_a_remainder : forall (L : PyLib) (token gap : str) (c : char) (t : str),
    _is_code L token = true ->
    gap <> [] -> forallb Re.space gap = true ->
    Re.space c = false -> forallb Re.dot (c :: t) = true ->
    line_entries L (token ++ gap ++ c :: t)
    = [{| code := token;
          serbian := nth 0 (pieces_of (c :: t)) [];
          latin := nth 1 (pieces_of (c :: t)) [] |}]
    /\ exists t', nth 0 (pieces_of (c :: t)) [] = c :: t'.
Proof.
  intros L token gap c t Hcode Hg Hgap Hc Hdot. split.
  - apply line_with_remainder; try assumption.
    + apply is_code_shape. exact Hcode.
    + exists c, t. split; [reflexivity|exact Hc].
  - destruct (@pieces_head c t Hc) as (p' & more & Hp). rewrite Hp. exists p'. reflexivity.
Qed.

Lemma X19_line_with_a_pipe :
  _is_code Reference.lib (u "A00") = true
  /\ line_entries Reference.lib (u "A00" ++ u " " ++ chr "|" :: u "  Kolera")
     = [{| code := u "A00"; serbian := u "|"; latin := u "Kolera" |}].
Proof.
  split; [reflexivity|].
  rewrite (proj1 (@X19_line_with_a_remainder Reference.lib (u "A00") (u " ") (chr "|")
                    (u "  Kolera") eq_refl ltac:(discriminate) eq_refl eq_refl eq_refl)).
  vm_compute. reflexivity.
Defined.

(** ** A link that does not parse *)

(** X20. A link of the index page that makes [urljoin] or [urlparse] raise
    fails the run, whatever the site serves: [scrape] raises the
    [ValueError] when the index page was fetched, and no detail page is
    requested. *)
Theorem X20_malformed_link_fails_the_run :
  forall (L : PyLib) (E : Env) (self : MKBScraper) (w : world E) index_html w1 href,
    _fetch E (index_url self) (logger E INFO (Message.fetching_index (index_url self)) w)
    = (Returned index_html, w1) ->
    In href (anchors (html_parser E index_html)) ->
    ~ resolves L self href ->
    exists detail, scrape L E self w = (Raised (ValueError detail), w1).
Proof.
  intros L E self w index_html w1 href Hf Hin Hno.
  destruct (_discover_detail_pages L self (html_parser E index_html)) as [pages|e] eqn:Hd.
  - exfalso. apply Hno.
    apply (proj1 (@discover_returns L self (html_parser E index_html))); [|exact Hin].
    exists pages. exact Hd.
  - pose proof Hd as Hd'. apply discover_raised in Hd'.
    destruct Hd' as (b & h & a & _ & _ & Hh).
    destruct (@detail_link_raised L self h e Hh) as [detail ->].
    exists detail. eapply scrape_discover_failed; [exact Hf|exact Hd].
Qed.

(** The site serves every page, and the run on it fails after one request,
    with the error of [urlparse]. *)
Lemma X20_broken_link_site_run_fails :
  In (u "http://[") (anchors (html_parser broken_link_site INDEX_URL))
  /\ ~ resolves Reference.lib (__init__ BASE_URL INDEX_PATH 0) (u "http://[")
  /\ (exists detail,
         scrape Reference.lib broken_link_site (__init__ BASE_URL INDEX_PATH 0) 0
         = (Raised (ValueError detail), 1))
  /\ scrape Reference.lib broken_link_site (__init__ BASE_URL INDEX_PATH 0) 0
     = (Raised (ValueError (u "Invalid IPv6 URL")), 1).
Proof.
  assert (Hin : In (u "http://[") (anchors (html_parser broken_link_site INDEX_URL))).
  { vm_compute. right. left. reflexivity. }
  assert (Hno : ~ resolves Reference.lib (__init__ BASE_URL INDEX_PATH 0) (u "http://[")).
  { intros [found Hr]. vm_compute in Hr. discriminate Hr. }
  split; [exact Hin|]. split; [exact Hno|]. split; [|vm_compute; reflexivity].
  apply (@X20_malformed_link_fails_the_run Reference.lib broken_link_site
           (__init__ BASE_URL INDEX_PATH 0) 0 INDEX_URL 1 (u "http://[")).
  - vm_compute. reflexivity.
  - exact Hin.
  - exact Hno.
Defined.
